(** * Boundary trust layer of the games SDK

    A shallow embedding of the event validators, the fire-and-forget
    emitter, the lifecycle gate, the session driver and the capability
    guard, together with the properties the specification states about
    them.  Further parts embed the creators of the branded types, the
    context guards, the metadata validator and game registration, the
    state migrator, the event inspector and the simulator's permission
    check, with properties read off their code.

    Conventions of the embedding.
    - A JavaScript value is a tree ([JsValue]); objects are finite maps from
      property names to values.  Accessor properties, proxies and [toJSON]
      hooks are outside the model: a property read never runs foreign code.
    - A finite [number] is identified with the decimal [m * 10^e] that
      [Number::toString] prints for it; comparisons, [Math.min] and
      [Math.max] are exact on these.  The two zeros are identified.
    - Clock readings ([Date.now()], the injected [nowMs]) are integers.
      Those of [Date.now()] are time values, below [2^53] in magnitude,
      on which subtraction is exact; the difference of two readings of
      the injected clock is rounded as the subtraction of doubles rounds
      it.
    - A [throw] is the [Throw] constructor of [Result]; [try/catch] is a
      match on it.  Console output is not modelled.
    - Host callbacks (event handlers, listeners, the two capability
      factories, the permission check) may throw.  The listeners of the
      session driver may also call the driver from inside their
      callbacks; event handlers do not call the emitter.  [getSessionId]
      gives the value its declared type promises. *)

From stdpp Require Import base decidable option list strings gmap pretty.
From Stdlib Require Import ZArith Lia Ascii String.

#[local] Set Warnings "-register-all".
#[local] Open Scope string_scope.
#[local] Open Scope Z_scope.

(* ================================================================== *)
(** * Capability names and exceptions *)
(* ================================================================== *)

Inductive Capability := audio | haptics | timers | sensors | animations.

#[global] Instance Capability_eq_dec : EqDecision Capability.
Proof. solve_decision. Defined.

#[global] Instance Capability_countable : Countable Capability.
Proof.
  refine (inj_countable'
    (fun c => match c with
              | audio => 0 | haptics => 1 | timers => 2
              | sensors => 3 | animations => 4
              end%nat)
    (fun n => match n with
              | 0 => audio | 1 => haptics | 2 => timers
              | 3 => sensors | _ => animations
              end%nat) _).
  intros []; reflexivity.
Defined.

Definition capabilityName (c : Capability) : string :=
  match c with
  | audio => "audio"
  | haptics => "haptics"
  | timers => "timers"
  | sensors => "sensors"
  | animations => "animations"
  end.

(** The error objects the modelled code can throw. *)
Inductive JsError :=
| TypeError
| UnknownEventTypeError (eventType : string)
| InvalidTimestampError (providedValue : Z)
| InvalidDurationError (providedValue : Z)
| CapabilityNotDeclaredError (capability : Capability)
| SdkError (message : string)
| HostError (message : string).

Inductive Result (A : Type) :=
| Ok (a : A)
| Throw (err : JsError).
Arguments Ok {A} a.
Arguments Throw {A} err.

#[global] Instance Result_ret : MRet Result := fun A a => Ok a.
#[global] Instance Result_bind : MBind Result := fun A B k r =>
  match r with
  | Ok a => k a
  | Throw err => Throw err
  end.

(** [try { body } catch (error) { handler }]. *)
Definition tryCatch {A} (body : Result A) (handler : JsError -> Result A)
  : Result A :=
  match body with
  | Ok a => Ok a
  | Throw err => handler err
  end.

(** Stateful code that may throw: the state reached is kept when it does. *)
Definition Eff (S A : Type) : Type := S -> S * Result A.

#[global] Instance Eff_ret {S} : MRet (Eff S) := fun A a s => (s, Ok a).
#[global] Instance Eff_bind {S} : MBind (Eff S) := fun A B k m s =>
  match m s with
  | (s', Ok a) => k a s'
  | (s', Throw err) => (s', Throw err)
  end.

Definition modify {S} (f : S -> S) : Eff S unit := fun s => (f s, Ok ()).
Definition gets {S A} (f : S -> A) : Eff S A := fun s => (s, Ok (f s)).
Definition lift {S A} (r : Result A) : Eff S A := fun s => (s, r).

(** [try { body } catch (error) { handler }] on stateful code. *)
Definition tryCatchEff {S A} (body : Eff S A) (handler : JsError -> Eff S A)
  : Eff S A := fun s =>
  match body s with
  | (s', Ok a) => (s', Ok a)
  | (s', Throw err) => handler err s'
  end.

Definition threw {A} (r : Result A) : Prop := exists err, r = Throw err.
Definition returned {A} (r : Result A) : Prop := exists a, r = Ok a.

(* ================================================================== *)
(** * JavaScript numbers *)
(* ================================================================== *)

Module JsNumber.

Inductive number :=
| NaN
| Infinity (negative : bool)
| Finite (mantissa exponent : Z).

Definition ofZ (z : Z) : number := Finite z 0.

(** [m * 10^e] brought to the exponent [e0 <= e]. *)
Definition scaled (m e e0 : Z) : Z := m * 10 ^ (e - e0).

Definition compareFinite (m1 e1 m2 e2 : Z) : comparison :=
  let e0 := Z.min e1 e2 in
  Z.compare (scaled m1 e1 e0) (scaled m2 e2 e0).

(** Numeric comparison; [None] when an operand is [NaN]. *)
Definition compare (a b : number) : option comparison :=
  match a, b with
  | NaN, _ | _, NaN => None
  | Infinity na, Infinity nb =>
      Some (match na, nb with
            | true, false => Lt
            | false, true => Gt
            | _, _ => Eq
            end)
  | Infinity na, Finite _ _ => Some (if na then Lt else Gt)
  | Finite _ _, Infinity nb => Some (if nb then Gt else Lt)
  | Finite m1 e1, Finite m2 e2 => Some (compareFinite m1 e1 m2 e2)
  end.

(** [a < b], [a <= b], [a > b], [a >= b], [a === b]. *)
Definition ltb (a b : number) : bool :=
  match compare a b with Some Lt => true | _ => false end.
Definition leb (a b : number) : bool :=
  match compare a b with Some Lt | Some Eq => true | _ => false end.
Definition gtb (a b : number) : bool := ltb b a.
Definition geb (a b : number) : bool := leb b a.
Definition eqb (a b : number) : bool :=
  match compare a b with Some Eq => true | _ => false end.

(** [Number.isFinite] and [Number.isInteger] on a value already known to
    be a number. *)
Definition isFinite (a : number) : bool :=
  match a with Finite _ _ => true | _ => false end.

Definition isInteger (a : number) : bool :=
  match a with
  | Finite m e => (0 <=? e) || (m mod 10 ^ (- e) =? 0)
  | _ => false
  end.

(** [Math.min(a, b)] and [Math.max(a, b)]. *)
Definition min (a b : number) : number :=
  match compare a b with
  | None => NaN
  | Some Gt => b
  | Some _ => a
  end.

Definition max (a b : number) : number :=
  match compare a b with
  | None => NaN
  | Some Lt => b
  | Some _ => a
  end.

(** The double nearest to an integer, ties going to the even significand:
    what [a - b] yields for two doubles that are integers, [z] being their
    exact difference.  An integer of magnitude below [2^53] is a double.
    (Past the largest double the code computes with an infinity; clock
    readings that far apart are outside the model.) *)
Definition nearestDouble (z : Z) : Z :=
  let magnitude := Z.abs z in
  let spare := Z.log2 magnitude - 52 in
  if spare <=? 0 then z
  else
    let unit := 2 ^ spare in
    let kept := magnitude / unit in
    let rest := magnitude mod unit in
    let up := (unit <? 2 * rest) || ((unit =? 2 * rest) && Z.odd kept) in
    Z.sgn z * ((if up then kept + 1 else kept) * unit).

(** ** [Number::toString] *)

Fixpoint dropZeros (l : list ascii) : list ascii :=
  match l with
  | "0"%char :: l' => dropZeros l'
  | _ => l
  end.

Definition zeros (n : Z) : list ascii := replicate (Z.to_nat n) "0"%char.

Definition digits (n : N) : list ascii := list_ascii_of_string (pretty n).

Definition exponentPart (n : Z) : list ascii :=
  "e"%char :: (if n - 1 <? 0 then "-"%char else "+"%char)
          :: digits (Z.to_N (Z.abs (n - 1))).

(** The digits [s] of the magnitude without trailing zeros, [k] of them,
    and the position [n] of the decimal point, as in the standard. *)
Definition renderMagnitude (m e : Z) : list ascii :=
  let all := digits (Z.to_N (Z.abs m)) in
  let s := reverse (dropZeros (reverse all)) in
  let k := Z.of_nat (List.length s) in
  let n := Z.of_nat (List.length all) + e in
  if (k <=? n) && (n <=? 21) then s ++ zeros (n - k)
  else if (0 <? n) && (n <=? 21) then
    take (Z.to_nat n) s ++ "."%char :: drop (Z.to_nat n) s
  else if (-6 <? n) && (n <=? 0) then
    "0"%char :: "."%char :: zeros (- n) ++ s
  else if k =? 1 then s ++ exponentPart n
  else take 1 s ++ "."%char :: drop 1 s ++ exponentPart n.

Definition toString (a : number) : string :=
  match a with
  | NaN => "NaN"
  | Infinity negative => if negative then "-Infinity" else "Infinity"
  | Finite m e =>
      if m =? 0 then "0"
      else string_of_list_ascii
             ((if m <? 0 then ["-"%char] else []) ++ renderMagnitude m e)
  end.

End JsNumber.

Abbreviation number := JsNumber.number.
Abbreviation NaN := JsNumber.NaN.
Abbreviation Infinity := JsNumber.Infinity.
Abbreviation Finite := JsNumber.Finite.

(* ================================================================== *)
(** * JavaScript values *)
(* ================================================================== *)

Inductive JsValue :=
| JsUndefined
| JsNull
| JsBoolean (b : bool)
| JsNumber (n : number)
| JsBigInt (z : Z)
| JsString (s : string)
| JsArray (elements : list JsValue)
| JsObject (properties : gmap string JsValue).

(** The own properties of a [Record<string, unknown>]. *)
Abbreviation Fields := (gmap string JsValue).

(** [e[key]]: a missing property reads as [undefined]. *)
Definition prop (e : Fields) (key : string) : JsValue :=
  default JsUndefined (e !! key).

(** [value.prop] on an arbitrary value: a [TypeError] on [null] and
    [undefined], [undefined] on primitives and arrays (no such own or
    inherited property for the names used here). *)
Definition getProp (v : JsValue) (key : string) : Result JsValue :=
  match v with
  | JsUndefined | JsNull => Throw TypeError
  | JsObject e => Ok (prop e key)
  | _ => Ok JsUndefined
  end.

(** [value !== undefined]. *)
Definition isDefined (v : JsValue) : bool :=
  match v with JsUndefined => false | _ => true end.

(** [value === 'literal']. *)
Definition isStringLiteral (v : JsValue) (literal : string) : bool :=
  match v with JsString s => bool_decide (s = literal) | _ => false end.

(** [list.includes(value as string)] for a list of string literals. *)
Definition includes (l : list string) (v : JsValue) : bool :=
  match v with JsString s => bool_decide (s ∈ l) | _ => false end.

(** The text a template literal inserts for a value ([ToString]). *)
Fixpoint templateText (v : JsValue) : string :=
  match v with
  | JsUndefined => "undefined"
  | JsNull => "null"
  | JsBoolean b => if b then "true" else "false"
  | JsNumber n => JsNumber.toString n
  | JsBigInt z => pretty z
  | JsString s => s
  | JsArray elements =>
      String.concat ","
        (map (fun x => match x with
                       | JsUndefined | JsNull => ""
                       | _ => templateText x
                       end) elements)
  | JsObject _ => "[object Object]"
  end.

(** [list.join(', ')]. *)
Definition join (l : list string) : string := String.concat ", " l.

(* ================================================================== *)
(** * Serialized size: [JSON.stringify] followed by [TextEncoder] *)
(* ================================================================== *)

Module JSON.

(** Bytes one character of a string takes inside a JSON string literal,
    UTF-8 encoded.  Characters are the code units U+0000 to U+00FF. *)
Definition quotedCharSize (c : ascii) : Z :=
  let n := Z.of_N (N_of_ascii c) in
  if (n =? 34) || (n =? 92) then 2
  else if (n =? 8) || (n =? 9) || (n =? 10) || (n =? 12) || (n =? 13) then 2
  else if n <? 32 then 6
  else if n <? 128 then 1
  else 2.

Fixpoint quotedSize (s : string) : Z :=
  match s with
  | EmptyString => 0
  | String c s' => quotedCharSize c + quotedSize s'
  end.

Definition quoteSize (s : string) : Z := 2 + quotedSize s.

(** What [JSON.stringify] does on a value: it throws (on a [BigInt]),
    yields [undefined], or yields text of so many UTF-8 bytes. *)
Inductive Serialized :=
| Throws
| Undefined
| Bytes (n : Z).

Definition commas (count : Z) : Z := Z.max 0 (count - 1).

Fixpoint stringifySize (v : JsValue) : Serialized :=
  match v with
  | JsUndefined => Undefined
  | JsNull => Bytes 4
  | JsBoolean b => Bytes (if b then 4 else 5)
  | JsNumber n =>
      Bytes (if JsNumber.isFinite n
             then Z.of_nat (String.length (JsNumber.toString n))
             else 4)
  | JsBigInt _ => Throws
  | JsString s => Bytes (quoteSize s)
  | JsArray elements =>
      let element x acc :=
        match acc, stringifySize x with
        | Some total, Bytes n => Some (total + n)
        | Some total, Undefined => Some (total + 4)
        | _, _ => None
        end in
      match foldr element (Some 0) elements with
      | Some total =>
          Bytes (2 + total + commas (Z.of_nat (List.length elements)))
      | None => Throws
      end
  | JsObject properties =>
      let member (key : string) x acc :=
        match acc, stringifySize x with
        | Some (count, total), Bytes n =>
            Some (count + 1, total + quoteSize key + 1 + n)
        | Some kept, Undefined => Some kept
        | _, _ => None
        end in
      match map_fold member (Some (0, 0)) properties with
      | Some (count, total) => Bytes (2 + total + commas count)
      | None => Throws
      end
  end.

End JSON.

(* ================================================================== *)
(** * Branded types ([types/branded]) *)
(* ================================================================== *)

(** [createTimestamp(value?)]: [ts] is [value ?? Date.now()], the argument
    when one is given and the clock reading otherwise; it must be a
    non-negative integer. *)
Definition createTimestamp (ts : Z) : Result Z :=
  if ts <? 0 then Throw (InvalidTimestampError ts) else Ok ts.

Definition createDuration (value : Z) : Result Z :=
  if value <? 0 then Throw (InvalidDurationError value) else Ok value.

Definition isValidDifficulty (value : JsValue) : bool :=
  match value with
  | JsNumber n =>
      JsNumber.isInteger n
      && JsNumber.geb n (JsNumber.ofZ 1)
      && JsNumber.leb n (JsNumber.ofZ 10)
  | _ => false
  end.

Definition isValidSessionId (value : JsValue) : bool :=
  match value with
  | JsString s => bool_decide (0 < String.length s)%nat
  | _ => false
  end.

Definition isValidLevelId (value : JsValue) : bool :=
  match value with
  | JsString s => bool_decide (0 < String.length s)%nat
  | _ => false
  end.

Definition isValidDuration (value : JsValue) : bool :=
  match value with
  | JsNumber n => JsNumber.isInteger n && JsNumber.geb n (JsNumber.ofZ 0)
  | _ => false
  end.

(* ================================================================== *)
(** * Event validation ([events/event-validators]) *)
(* ================================================================== *)

Inductive ValidationMode := production | development.

Record ValidationResult := {
  valid : bool;
  event : option JsValue;
  errors : list string;
  warnings : list string;
}.

Definition MAX_STATE_BLOB_SIZE : Z := 1024 * 1024.
Definition MAX_EVENT_SIZE : Z := 64 * 1024.

(** [estimateSize]: the byte length of the JSON text; a value that cannot
    be serialized counts as one byte over the event limit, and the
    [undefined] that [JSON.stringify] returns encodes to nothing. *)
Definition estimateSize (value : JsValue) : Z :=
  match JSON.stringifySize value with
  | JSON.Bytes n => n
  | JSON.Undefined => 0
  | JSON.Throws => MAX_EVENT_SIZE + 1
  end.

Definition clampOptional (value : JsValue) (min max : number)
  : option (number * bool) :=
  match value with
  | JsNumber n =>
      if JsNumber.isFinite n then
        let clamped := JsNumber.max min (JsNumber.min max n) in
        Some (clamped, negb (JsNumber.eqb clamped n))
      else None
  | _ => None
  end.

Definition clampNonNegative (value : JsValue) : option (number * bool) :=
  match value with
  | JsNumber n =>
      if JsNumber.isFinite n then
        let clamped := JsNumber.max (JsNumber.ofZ 0) n in
        Some (clamped, negb (JsNumber.eqb clamped n))
      else None
  | _ => None
  end.

(** The tags of the [switch] in [validateEvent]. *)
Inductive EventType :=
| SESSION_STARTED | SESSION_ENDED | SESSION_ABORTED
| LEVEL_STARTED | LEVEL_COMPLETED | LEVEL_FAILED | CHECKPOINT_REACHED
| PERFORMANCE_REPORTED | ACTIVE_TIME_REPORTED | FRICTION_REPORTED
| ERROR_MADE | FAILURE_OCCURRED | SAVE_GAME_STATE | USER_SIGNAL | DEV_LOG.

Definition eventTypeTag (t : EventType) : string :=
  match t with
  | SESSION_STARTED => "SESSION_STARTED"
  | SESSION_ENDED => "SESSION_ENDED"
  | SESSION_ABORTED => "SESSION_ABORTED"
  | LEVEL_STARTED => "LEVEL_STARTED"
  | LEVEL_COMPLETED => "LEVEL_COMPLETED"
  | LEVEL_FAILED => "LEVEL_FAILED"
  | CHECKPOINT_REACHED => "CHECKPOINT_REACHED"
  | PERFORMANCE_REPORTED => "PERFORMANCE_REPORTED"
  | ACTIVE_TIME_REPORTED => "ACTIVE_TIME_REPORTED"
  | FRICTION_REPORTED => "FRICTION_REPORTED"
  | ERROR_MADE => "ERROR_MADE"
  | FAILURE_OCCURRED => "FAILURE_OCCURRED"
  | SAVE_GAME_STATE => "SAVE_GAME_STATE"
  | USER_SIGNAL => "USER_SIGNAL"
  | DEV_LOG => "DEV_LOG"
  end.

Definition allEventTypes : list EventType :=
  [SESSION_STARTED; SESSION_ENDED; SESSION_ABORTED; LEVEL_STARTED;
   LEVEL_COMPLETED; LEVEL_FAILED; CHECKPOINT_REACHED; PERFORMANCE_REPORTED;
   ACTIVE_TIME_REPORTED; FRICTION_REPORTED; ERROR_MADE; FAILURE_OCCURRED;
   SAVE_GAME_STATE; USER_SIGNAL; DEV_LOG].

(** The [case] label a discriminant selects, [None] for [default]. *)
Definition matchCase (eventType : string) : option EventType :=
  List.find (fun t => bool_decide (eventTypeTag t = eventType)) allEventTypes.

(** The recognized discriminant tags. *)
Definition recognizedTags : list string := map eventTypeTag allEventTypes.

(** [if (!ok) errors.push(message)]. *)
Definition check (ok : bool) (message : string) (errors : list string)
  : list string :=
  if ok then errors else errors ++ [message].

Definition rejected (errors warnings : list string) : ValidationResult :=
  {| valid := false; event := None; errors := errors; warnings := warnings |}.

Definition accepted (ev : Fields) (warnings : list string) : ValidationResult :=
  {| valid := true; event := Some (JsObject ev); errors := [];
     warnings := warnings |}.

(** The common tail of every validator: reject when [errors.length > 0]. *)
Definition conclude (errors warnings : list string) (ev : Fields)
  : ValidationResult :=
  if bool_decide (0 < List.length errors)%nat
  then rejected errors warnings
  else accepted ev warnings.

(** [typeof v !== 'number' || v < bound] negated. *)
Definition isNumberNotBelow (v : JsValue) (bound : Z) : bool :=
  match v with
  | JsNumber n => negb (JsNumber.ltb n (JsNumber.ofZ bound))
  | _ => false
  end.

(** The per-kind validators.  Their [mode] argument only selects console
    output in the source and is left out. *)

Definition validateSessionStarted (e : Fields) : ValidationResult :=
  let errors :=
    check (isValidSessionId (prop e "sessionId"))
      "sessionId must be a non-empty string" [] in
  conclude errors [] e.

Definition sessionEndReasons : list string :=
  ["completed"; "user_exit"; "timeout"].

Definition validateSessionEnded (e : Fields) : ValidationResult :=
  let errors :=
    check (isValidSessionId (prop e "sessionId"))
      "sessionId must be a non-empty string" [] in
  let errors :=
    check (includes sessionEndReasons (prop e "reason"))
      ("reason must be one of: " ++ join sessionEndReasons) errors in
  let errors :=
    check (isValidDuration (prop e "totalDurationMs"))
      "totalDurationMs must be a non-negative integer" errors in
  conclude errors [] e.

Definition sessionAbortReasons : list string :=
  ["crash"; "force_close"; "platform_termination"; "network_error"].

Definition validateSessionAborted (e : Fields) : ValidationResult :=
  let errors :=
    check (isValidSessionId (prop e "sessionId"))
      "sessionId must be a non-empty string" [] in
  let errors :=
    check (includes sessionAbortReasons (prop e "reason"))
      ("reason must be one of: " ++ join sessionAbortReasons) errors in
  let errors :=
    check (isValidDuration (prop e "durationBeforeAbortMs"))
      "durationBeforeAbortMs must be a non-negative integer" errors in
  conclude errors [] e.

Definition validateLevelStarted (e : Fields) : ValidationResult :=
  let errors :=
    check (isValidLevelId (prop e "levelId"))
      "levelId must be a non-empty string" [] in
  let errors :=
    check (isNumberNotBelow (prop e "attemptNumber") 1)
      "attemptNumber must be a positive integer" errors in
  let errors :=
    check (isValidDifficulty (prop e "difficulty"))
      "difficulty must be an integer between 1 and 10" errors in
  conclude errors [] e.

Definition validateLevelCompleted (e : Fields) : ValidationResult :=
  let errors :=
    check (isValidLevelId (prop e "levelId"))
      "levelId must be a non-empty string" [] in
  let errors :=
    check (isNumberNotBelow (prop e "attemptNumber") 1)
      "attemptNumber must be a positive integer" errors in
  let errors :=
    check (isValidDuration (prop e "durationMs"))
      "durationMs must be a non-negative integer" errors in
  let errors :=
    check (isValidDifficulty (prop e "difficulty"))
      "difficulty must be an integer between 1 and 10" errors in
  conclude errors [] e.

Definition levelFailureReasons : list string :=
  ["timeout"; "too_many_errors"; "user_quit"; "other"].

Definition validateLevelFailed (e : Fields) : ValidationResult :=
  let errors :=
    check (isValidLevelId (prop e "levelId"))
      "levelId must be a non-empty string" [] in
  let errors :=
    check (isNumberNotBelow (prop e "attemptNumber") 1)
      "attemptNumber must be a positive integer" errors in
  let errors :=
    check (isValidDuration (prop e "durationMs"))
      "durationMs must be a non-negative integer" errors in
  let errors :=
    check (isValidDifficulty (prop e "difficulty"))
      "difficulty must be an integer between 1 and 10" errors in
  let errors :=
    if isDefined (prop e "failureReason") then
      check (includes levelFailureReasons (prop e "failureReason"))
        ("failureReason must be one of: " ++ join levelFailureReasons) errors
    else errors in
  conclude errors [] e.

Definition validateCheckpointReached (e : Fields) : ValidationResult :=
  let errors :=
    check (isValidLevelId (prop e "levelId"))
      "levelId must be a non-empty string" [] in
  let errors :=
    check (match prop e "checkpointId" with
           | JsString s => negb (bool_decide (String.length s = 0%nat))
           | _ => false
           end)
      "checkpointId must be a non-empty string" errors in
  let errors :=
    check (isValidDuration (prop e "elapsedMs"))
      "elapsedMs must be a non-negative integer" errors in
  conclude errors [] e.

(** The accumulators of a cleaning validator: [errors], [warnings] and
    [cleanedEvent]. *)
Record Cleaning := {
  cErrors : list string;
  cWarnings : list string;
  cleanedEvent : Fields;
}.

(** The block the source repeats for [accuracy] and [successRate]. *)
Definition clampUnitField (name : string) (e : Fields) (acc : Cleaning)
  : Cleaning :=
  if isDefined (prop e name) then
    match clampOptional (prop e name) (JsNumber.ofZ 0) (JsNumber.ofZ 1) with
    | None =>
        {| cErrors := cErrors acc ++ [name ++ " must be a number"];
           cWarnings := cWarnings acc;
           cleanedEvent := cleanedEvent acc |}
    | Some (value, clamped) =>
        {| cErrors := cErrors acc;
           cWarnings :=
             if clamped
             then cWarnings acc
                    ++ [name ++ " clamped to " ++ JsNumber.toString value]
             else cWarnings acc;
           cleanedEvent := <[name := JsNumber value]> (cleanedEvent acc) |}
    end
  else acc.

(** The block the source repeats for [reactionTimeMs], [errorCount],
    [hintsUsed] and [streakLength]: the [clamped] flag is not looked at. *)
Definition clampCountField (name : string) (e : Fields) (acc : Cleaning)
  : Cleaning :=
  if isDefined (prop e name) then
    match clampNonNegative (prop e name) with
    | None =>
        {| cErrors := cErrors acc ++ [name ++ " must be a number"];
           cWarnings := cWarnings acc;
           cleanedEvent := cleanedEvent acc |}
    | Some (value, _) =>
        {| cErrors := cErrors acc;
           cWarnings := cWarnings acc;
           cleanedEvent := <[name := JsNumber value]> (cleanedEvent acc) |}
    end
  else acc.

Definition validatePerformanceReported (e : Fields) : ValidationResult :=
  let acc := {| cErrors := []; cWarnings := []; cleanedEvent := e |} in
  let acc := clampUnitField "accuracy" e acc in
  let acc := clampUnitField "successRate" e acc in
  let acc := clampCountField "reactionTimeMs" e acc in
  let acc := clampCountField "errorCount" e acc in
  let acc := clampCountField "hintsUsed" e acc in
  let acc := clampCountField "streakLength" e acc in
  conclude (cErrors acc) (cWarnings acc) (cleanedEvent acc).

Definition validateActiveTimeReported (e : Fields) : ValidationResult :=
  let errors :=
    check (isValidDuration (prop e "activeDurationMs"))
      "activeDurationMs must be a non-negative integer" [] in
  let errors :=
    check (negb (isDefined (prop e "idleDurationMs")
                 && negb (isValidDuration (prop e "idleDurationMs"))))
      "idleDurationMs must be a non-negative integer" errors in
  let errors :=
    if isDefined (prop e "pausesCount") then
      check (isNumberNotBelow (prop e "pausesCount") 0)
        "pausesCount must be a non-negative number" errors
    else errors in
  conclude errors [] e.

Definition cognitiveLoadTypes : list string :=
  ["memory"; "focus"; "speed"; "regulation"; "planning"; "mixed"].

Definition validateFrictionReported (e : Fields) : ValidationResult :=
  let errors :=
    check (isValidDifficulty (prop e "claimedDifficulty"))
      "claimedDifficulty must be an integer between 1 and 10" [] in
  let errors :=
    check (includes cognitiveLoadTypes (prop e "cognitiveLoadType"))
      ("cognitiveLoadType must be one of: " ++ join cognitiveLoadTypes)
      errors in
  conclude errors [] e.

Definition errorTypes : list string :=
  ["wrong_input"; "timeout"; "rule_violation";
   "missed_target"; "wrong_selection"; "sequence_break"].

Definition validateErrorMade (e : Fields) : ValidationResult :=
  let errors :=
    check (includes errorTypes (prop e "errorType"))
      ("errorType must be one of: " ++ join errorTypes) [] in
  conclude errors [] e.

Definition failureTypes : list string :=
  ["error_threshold"; "time_expired"; "resource_depleted"; "invalid_state"].

Definition validateFailureOccurred (e : Fields) : ValidationResult :=
  let errors :=
    check (includes failureTypes (prop e "failureType"))
      ("failureType must be one of: " ++ join failureTypes) [] in
  conclude errors [] e.

Definition validateSaveGameState (e : Fields) : ValidationResult :=
  let errors :=
    match e !! "stateBlob" with
    | None => ["stateBlob is required"]
    | Some stateBlob =>
        let blobSize := estimateSize stateBlob in
        check (negb (MAX_STATE_BLOB_SIZE <? blobSize))
          ("stateBlob exceeds size limit (" ++ pretty blobSize ++ " > "
             ++ pretty MAX_STATE_BLOB_SIZE ++ ")") []
    end in
  let errors :=
    check (isNumberNotBelow (prop e "schemaVersion") 1)
      "schemaVersion must be a positive integer" errors in
  conclude errors [] e.

Definition signalTypes : list string :=
  ["felt_easy"; "felt_hard"; "felt_stressed"; "felt_calm";
   "wants_more"; "wants_stop"; "enjoying"; "frustrated"].

Definition validateUserSignal (e : Fields) : ValidationResult :=
  let errors :=
    check (includes signalTypes (prop e "signalType"))
      ("signalType must be one of: " ++ join signalTypes) [] in
  let '(warnings, cleaned) :=
    if isDefined (prop e "value") then
      match clampOptional (prop e "value") (JsNumber.ofZ 0) (JsNumber.ofZ 1)
      with
      | None => (["value was not a valid number, omitted"], delete "value" e)
      | Some (value, clamped) =>
          (if clamped
           then ["value clamped to " ++ JsNumber.toString value]
           else [],
           <["value" := JsNumber value]> e)
      end
    else ([], e) in
  conclude errors warnings cleaned.

Definition logLevels : list string := ["debug"; "info"; "warn"; "error"].

Definition validateDevLog (e : Fields) : ValidationResult :=
  let errors :=
    check (match prop e "message" with JsString _ => true | _ => false end)
      "message must be a string" [] in
  let errors :=
    if isDefined (prop e "level") then
      check (includes logLevels (prop e "level"))
        ("level must be one of: " ++ join logLevels) errors
    else errors in
  conclude errors [] e.

(** The bodies of the [case] labels. *)
Definition dispatch (t : EventType) (e : Fields) : ValidationResult :=
  match t with
  | SESSION_STARTED => validateSessionStarted e
  | SESSION_ENDED => validateSessionEnded e
  | SESSION_ABORTED => validateSessionAborted e
  | LEVEL_STARTED => validateLevelStarted e
  | LEVEL_COMPLETED => validateLevelCompleted e
  | LEVEL_FAILED => validateLevelFailed e
  | CHECKPOINT_REACHED => validateCheckpointReached e
  | PERFORMANCE_REPORTED => validatePerformanceReported e
  | ACTIVE_TIME_REPORTED => validateActiveTimeReported e
  | FRICTION_REPORTED => validateFrictionReported e
  | ERROR_MADE => validateErrorMade e
  | FAILURE_OCCURRED => validateFailureOccurred e
  | SAVE_GAME_STATE => validateSaveGameState e
  | USER_SIGNAL => validateUserSignal e
  | DEV_LOG => validateDevLog e
  end.

Definition validateEvent (event : JsValue) (mode : ValidationMode)
  : Result ValidationResult :=
  match event with
  | JsObject e =>
      match e !! "type" with
      | Some (JsString eventType) =>
          let eventSize := estimateSize event in
          if MAX_EVENT_SIZE <? eventSize then
            Ok (rejected
                  ["Event exceeds size limit (" ++ pretty eventSize ++ " > "
                     ++ pretty MAX_EVENT_SIZE ++ ")"] [])
          else
            match matchCase eventType with
            | Some t => Ok (dispatch t e)
            | None =>
                match mode with
                | development => Throw (UnknownEventTypeError eventType)
                | production =>
                    Ok (rejected ["Unknown event type: " ++ eventType] [])
                end
            end
      | _ => Ok (rejected ["Event must have a string type field"] [])
      end
  | JsArray _ => Ok (rejected ["Event must have a string type field"] [])
  | _ => Ok (rejected ["Event must be an object"] [])
  end.

(** Object and number literals. *)
Definition obj (l : list (string * JsValue)) : JsValue :=
  JsObject (list_to_map l).
Definition int (z : Z) : JsValue := JsNumber (JsNumber.ofZ z).

(* ================================================================== *)
(** * Event emitter ([events/event-emitter]) *)
(* ================================================================== *)

Definition MAX_EVENTS_PER_SECOND : Z := 50.
Definition RATE_LIMIT_WINDOW_MS : Z := 1000.

(** [result.event ?? event]. *)
Definition eventOr (result : ValidationResult) (original : JsValue) : JsValue :=
  default original (event result).

Module EmittedEvent.
Record t := {
  event : JsValue;
  timestamp : Z;
  sessionId : option string;
  gameId : string;
  sdkVersion : string;
}.
End EmittedEvent.

Definition EventHandler := EmittedEvent.t -> Result unit.

Record EventEmitterConfig := {
  gameId : string;
  sdkVersion : string;
  mode : ValidationMode;
  handlers : list EventHandler;
}.

(** What one call of [emit] reads from its surroundings: [Date.now()] in
    [checkRateLimit], the result of [getSessionId()], and [Date.now()] in
    [createTimestamp()]. *)
Record EmitEnv := {
  now : Z;
  getSessionId : option string;
  timestampNow : Z;
}.

(** One invocation of a handler: which one, with what, and how it ended. *)
Record HandlerCall := {
  callee : nat;
  argument : EmittedEvent.t;
  outcome : Result unit;
}.

(** The closure variables of [createEventEmitter], and the record of the
    handler invocations made so far. *)
Record Emitter := {
  eventCount : Z;
  droppedCount : Z;
  rateLimitWindowStart : Z;
  eventsInWindow : Z;
  handlerCalls : list HandlerCall;
}.

Definition createEventEmitter (dateNow : Z) : Emitter :=
  {| eventCount := 0; droppedCount := 0;
     rateLimitWindowStart := dateNow; eventsInWindow := 0;
     handlerCalls := [] |}.

Definition resetWindow (now : Z) (s : Emitter) : Emitter :=
  {| eventCount := eventCount s; droppedCount := droppedCount s;
     rateLimitWindowStart := now; eventsInWindow := 0;
     handlerCalls := handlerCalls s |}.

Definition countInWindow (s : Emitter) : Emitter :=
  {| eventCount := eventCount s; droppedCount := droppedCount s;
     rateLimitWindowStart := rateLimitWindowStart s;
     eventsInWindow := eventsInWindow s + 1;
     handlerCalls := handlerCalls s |}.

Definition countDropped (s : Emitter) : Emitter :=
  {| eventCount := eventCount s; droppedCount := droppedCount s + 1;
     rateLimitWindowStart := rateLimitWindowStart s;
     eventsInWindow := eventsInWindow s;
     handlerCalls := handlerCalls s |}.

Definition countEvent (s : Emitter) : Emitter :=
  {| eventCount := eventCount s + 1; droppedCount := droppedCount s;
     rateLimitWindowStart := rateLimitWindowStart s;
     eventsInWindow := eventsInWindow s;
     handlerCalls := handlerCalls s |}.

Definition recordCall (call : HandlerCall) (s : Emitter) : Emitter :=
  {| eventCount := eventCount s; droppedCount := droppedCount s;
     rateLimitWindowStart := rateLimitWindowStart s;
     eventsInWindow := eventsInWindow s;
     handlerCalls := handlerCalls s ++ [call] |}.

Definition checkRateLimit (now : Z) : Eff Emitter bool :=
  windowStart ← gets rateLimitWindowStart;
  (if RATE_LIMIT_WINDOW_MS <=? now - windowStart
   then modify (resetWindow now)
   else mret ());;
  inWindow ← gets eventsInWindow;
  if MAX_EVENTS_PER_SECOND <=? inWindow then mret false
  else modify countInWindow;; mret true.

(** The fan-out loop: each handler runs inside its own [try/catch], whose
    [catch] only logs. *)
Fixpoint deliver (index : nat) (handlers : list EventHandler)
    (emittedEvent : EmittedEvent.t) : Eff Emitter unit :=
  match handlers with
  | [] => mret ()
  | handler :: rest =>
      tryCatchEff
        (modify (recordCall {| callee := index; argument := emittedEvent;
                               outcome := handler emittedEvent |});;
         lift (handler emittedEvent))
        (fun handlerError => mret ());;
      deliver (S index) rest emittedEvent
  end.

Definition emit (config : EventEmitterConfig) (env : EmitEnv)
    (event : JsValue) : Eff Emitter unit :=
  allowed ← checkRateLimit (now env);
  if negb allowed then
    modify countDropped;;
    match mode config with
    | development => lift (getProp event "type");; mret ()
    | production => mret ()
    end
  else
    skipped ← match mode config with
              | production =>
                  type ← lift (getProp event "type");
                  mret (isStringLiteral type "DEV_LOG")
              | development => mret false
              end;
    if skipped : bool then mret ()
    else
      validated ← tryCatchEff
                    (result ← lift (validateEvent event (mode config));
                     mret (Some result))
                    (fun error => modify countDropped;; mret None);
      match validated with
      | None => mret ()
      | Some result =>
          if negb (valid result) then modify countDropped
          else
            let sessionId := getSessionId env in
            timestamp ← lift (createTimestamp (timestampNow env));
            let emittedEvent :=
              {| EmittedEvent.event := eventOr result event;
                 EmittedEvent.timestamp := timestamp;
                 EmittedEvent.sessionId := sessionId;
                 EmittedEvent.gameId := gameId config;
                 EmittedEvent.sdkVersion := sdkVersion config |} in
            deliver 0 (handlers config) emittedEvent;;
            modify countEvent
      end.

(* ================================================================== *)
(** * Session driver ([platform/session]) *)
(* ================================================================== *)

Inductive SessionState := INITIAL | IN_SESSION | ENDED.

#[global] Instance SessionState_eq_dec : EqDecision SessionState.
Proof. solve_decision. Defined.

(** The three context shapes.  The fields copied unchanged from the driver
    configuration (metadata, preferences, progression, saved state) are
    left out. *)
Inductive GameContext :=
| InitialContext
| InSessionContext (sessionId : string) (startTime : Z)
| SessionEndedContext (sessionId : string) (sessionDurationMs : Z).

Definition state (ctx : GameContext) : SessionState :=
  match ctx with
  | InitialContext => INITIAL
  | InSessionContext _ _ => IN_SESSION
  | SessionEndedContext _ _ => ENDED
  end.

Definition stateName (s : SessionState) : string :=
  match s with
  | INITIAL => "INITIAL"
  | IN_SESSION => "IN_SESSION"
  | ENDED => "ENDED"
  end.

Module Session.

(** A listener is known by its identity.  What it does when it is called
    is a [Script]: it returns, it throws, or it calls a method of the
    driver and carries on according to what came back (a call it does not
    guard is continued by [Raise]).  What it does may depend on everything
    handed out before. *)
Definition Listener := nat.

(** The calls that can be made on a driver, by the host or by a listener;
    [nowMs] is the reading of the injected clock during the call. *)
Inductive Call :=
| StartSession (sid : string) (nowMs : Z)
| EndSession (reason : string) (nowMs : Z)
| AbortSession (reason : string) (nowMs : Z)
| Subscribe (listener : Listener)
| Unsubscribe (listener : Listener)
| GetContext
| IsSessionActive.

(** What a call hands back. *)
Inductive Answer :=
| Nothing
| Snapshot (context : GameContext)
| Active (active : bool).

Inductive Script :=
| Return
| Raise (err : JsError)
| Invoke (call : Call) (next : Result Answer -> Script).

(** One invocation of a listener: which one, and with which snapshot. *)
Record Notification := {
  recipient : Listener;
  handed : GameContext;
}.

Definition ListenerBehaviour :=
  list Notification -> Listener -> GameContext -> Script.

(** The closure variables of [createSessionDriver], and the record of the
    listener invocations made so far.  [listeners] holds the entries of
    the [Set] in insertion order; [delete] leaves an empty entry behind,
    which an iteration under way steps over. *)
Record Driver := {
  currentState : SessionState;
  sessionId : option string;
  startTime : option Z;
  sessionDurationMs : option Z;
  listeners : list (option Listener);
  notifications : list Notification;
}.

(** Code that runs listeners may not finish: [None] when the steps
    allowed did not suffice. *)
Definition Run (A : Type) : Type := Driver -> option (Driver * Result A).

#[global] Instance Run_ret : MRet Run := fun A a s => Some (s, Ok a).
#[global] Instance Run_bind : MBind Run := fun A B k m s =>
  match m s with
  | Some (s', Ok a) => k a s'
  | Some (s', Throw err) => Some (s', Throw err)
  | None => None
  end.

(** Code that runs no listener. *)
Definition once {A} (m : Eff Driver A) : Run A := fun s => Some (m s).

(** [try { body } catch (error) { handler }]. *)
Definition tryCatchRun {A} (body : Run A) (handler : JsError -> Run A)
  : Run A := fun s =>
  match body s with
  | Some (s', Ok a) => Some (s', Ok a)
  | Some (s', Throw err) => handler err s'
  | None => None
  end.

Definition createSessionDriver : Driver :=
  {| currentState := INITIAL; sessionId := None; startTime := None;
     sessionDurationMs := None; listeners := []; notifications := [] |}.

Definition createContextSnapshot : Eff Driver GameContext := fun s =>
  (match currentState s with
   | INITIAL => mret InitialContext
   | IN_SESSION =>
       match sessionId s, startTime s with
       | Some sid, Some started =>
           timestamp ← lift (createTimestamp started);
           mret (InSessionContext sid timestamp)
       | _, _ =>
           lift (Throw (SdkError
                          "[SDK] Invalid state: IN_SESSION without sessionId"))
       end
   | ENDED =>
       match sessionId s, sessionDurationMs s with
       | Some sid, Some duration =>
           duration ← lift (createDuration duration);
           mret (SessionEndedContext sid duration)
       | _, _ =>
           lift (Throw (SdkError
                          "[SDK] Invalid state: ENDED without session data"))
       end
   end) s.

Definition getContext : Eff Driver GameContext := createContextSnapshot.

Definition beginSession (sid : string) (now : Z) (s : Driver) : Driver :=
  {| currentState := IN_SESSION; sessionId := Some sid;
     startTime := Some now; sessionDurationMs := sessionDurationMs s;
     listeners := listeners s; notifications := notifications s |}.

(** [sessionDurationMs = nowMs() - (startTime ?? 0); currentState =
    'ENDED'], the subtraction being one of doubles. *)
Definition finishSession (now : Z) (s : Driver) : Driver :=
  {| currentState := ENDED; sessionId := sessionId s;
     startTime := startTime s;
     sessionDurationMs :=
       Some (JsNumber.nearestDouble (now - default 0 (startTime s)));
     listeners := listeners s; notifications := notifications s |}.

Definition setListeners (entries : list (option Listener)) (s : Driver)
  : Driver :=
  {| currentState := currentState s; sessionId := sessionId s;
     startTime := startTime s; sessionDurationMs := sessionDurationMs s;
     listeners := entries; notifications := notifications s |}.

(** [listeners.add(listener)]: a value the set holds is not added again,
    a new one is appended. *)
Definition subscribe (listener : Listener) : Eff Driver unit :=
  modify (fun s =>
    if bool_decide (Some listener ∈ listeners s) then s
    else setListeners (listeners s ++ [Some listener]) s).

(** The function [subscribe] returns: [listeners.delete(listener)]. *)
Definition unsubscribe (listener : Listener) : Eff Driver unit :=
  modify (fun s =>
    setListeners
      (map (fun entry =>
              if bool_decide (entry = Some listener) then None else entry)
           (listeners s)) s).

Definition isSessionActive : Eff Driver bool :=
  current ← gets currentState;
  mret (bool_decide (current = IN_SESSION)).

(** The record of one invocation, made as the listener is called. *)
Definition note (listener : Listener) (ctx : GameContext) (s : Driver)
  : Driver :=
  {| currentState := currentState s; sessionId := sessionId s;
     startTime := startTime s; sessionDurationMs := sessionDurationMs s;
     listeners := listeners s;
     notifications :=
       notifications s ++ [{| recipient := listener; handed := ctx |}] |}.

Section Methods.

(** What the listeners do, and the methods of the driver as a listener
    reaches them. *)
Variable behaviour : ListenerBehaviour.
Variable call : Call -> Run Answer.

(** The body of a listener, run on the driver. *)
Fixpoint runScript (script : Script) : Run unit :=
  match script with
  | Return => mret ()
  | Raise err => once (lift (Throw err))
  | Invoke c next => fun s =>
      match call c s with
      | Some (s', answer) => runScript (next answer) s'
      | None => None
      end
  end.

(** The loop of [notifyListeners], [for (const listener of listeners)],
    from the entry at [index] on: the iteration reads the set as it is
    when it gets to an entry, so it steps over entries deleted meanwhile
    and reaches entries added meanwhile.  Each listener runs inside its
    own [try/catch], whose [catch] is empty.  At most [steps] entries are
    looked at. *)
Fixpoint visit (steps : nat) (index : nat) (ctx : GameContext) : Run unit :=
  fun s =>
    match listeners s !! index with
    | None => Some (s, Ok ())
    | Some entry =>
        match steps with
        | O => None
        | S steps =>
            match entry with
            | None => visit steps (S index) ctx s
            | Some listener =>
                (tryCatchRun
                   (once (modify (note listener ctx));;
                    runScript (behaviour (notifications s) listener ctx))
                   (fun _ => mret ());;
                 visit steps (S index) ctx) s
            end
        end
    end.

Definition notifyListeners (steps : nat) : Run unit :=
  ctx ← once createContextSnapshot;
  visit steps 0 ctx.

Definition startSession (steps : nat) (sid : string) (nowMs : Z)
  : Run unit :=
  current ← once (gets currentState);
  if bool_decide (current ≠ INITIAL) then
    once (lift (Throw (SdkError
                         ("[SDK] Cannot start session: already in state "
                            ++ stateName current))))
  else
    once (modify (beginSession sid nowMs));;
    notifyListeners steps.

Definition endSession (steps : nat) (_reason : string) (nowMs : Z)
  : Run unit :=
  current ← once (gets currentState);
  if bool_decide (current ≠ IN_SESSION) then
    once (lift (Throw (SdkError
                         ("[SDK] Cannot end session: not in session (state: "
                            ++ stateName current ++ ")"))))
  else
    once (modify (finishSession nowMs));;
    notifyListeners steps.

Definition abortSession (steps : nat) (_reason : string) (nowMs : Z)
  : Run unit :=
  current ← once (gets currentState);
  if bool_decide (current ≠ IN_SESSION) then
    once (lift (Throw (SdkError
                         ("[SDK] Cannot abort session: not in session (state: "
                            ++ stateName current ++ ")"))))
  else
    once (modify (finishSession nowMs));;
    notifyListeners steps.

End Methods.

(** A call on the driver.  [fuel] bounds the nesting of calls made from
    inside listeners and, in each run of [notifyListeners], the entries
    looked at; a call needs one unit itself. *)
Fixpoint perform (behaviour : ListenerBehaviour) (fuel : nat) (c : Call)
  : Run Answer :=
  match fuel with
  | O => fun _ => None
  | S fuel =>
      let call := perform behaviour fuel in
      match c with
      | StartSession sid nowMs =>
          startSession behaviour call fuel sid nowMs;; mret Nothing
      | EndSession reason nowMs =>
          endSession behaviour call fuel reason nowMs;; mret Nothing
      | AbortSession reason nowMs =>
          abortSession behaviour call fuel reason nowMs;; mret Nothing
      | Subscribe listener => once (subscribe listener);; mret Nothing
      | Unsubscribe listener => once (unsubscribe listener);; mret Nothing
      | GetContext => context ← once getContext; mret (Snapshot context)
      | IsSessionActive => active ← once isSessionActive; mret (Active active)
      end
  end.

(** A host that carries on after a call throws. *)
Fixpoint run (behaviour : ListenerBehaviour) (fuel : nat)
    (calls : list Call) (s : Driver) : option Driver :=
  match calls with
  | [] => Some s
  | c :: rest =>
      match perform behaviour fuel c s with
      | Some (s', _) => run behaviour fuel rest s'
      | None => None
      end
  end.

(** The listeners subscribed, in the order of their subscription. *)
Definition members (s : Driver) : list Listener := omap id (listeners s).

(** The states a given listener was handed, in order. *)
Definition observed (listener : Listener) (s : Driver)
  : list SessionState :=
  map (fun n => state (handed n))
      (filter (fun n => recipient n = listener) (notifications s)).

End Session.

(* ================================================================== *)
(** * Event lifecycle gate ([platform/eventGate]) *)
(* ================================================================== *)

Module EventGate.

Inductive DropReasonCode :=
| BEFORE_SESSION
| SESSION_ID_MISMATCH
| AFTER_SESSION_ENDED
| INVALID_STATE_FOR_EVENT.

(** [onEventDropped] tells whether the optional callback was given. *)
Record GatedEmitOptions := {
  onEventDropped : bool;
  allowDevLogAfterEnd : option bool;
}.

(** The calls the gate makes on what the host handed it. *)
Inductive Effect :=
| PlatformEmit (event : JsValue)
| OnEventDropped (event : JsValue) (reason : string) (code : DropReasonCode).

Definition hasSessionId (event : Fields) : bool :=
  match event !! "sessionId" with
  | Some (JsString _) => true
  | _ => false
  end.

(** [onEventDropped?.(event, reason, code)]. *)
Definition drop (options : GatedEmitOptions) (event : Fields)
    (reason : string) (code : DropReasonCode) : list Effect :=
  if onEventDropped options
  then [OnEventDropped (JsObject event) reason code]
  else [].

(** The function [createGatedEmit] returns, applied to [event]; [ctx] is
    the snapshot [sessionDriver.getContext()] gives it. *)
Definition createGatedEmit (options : GatedEmitOptions) (ctx : GameContext)
    (event : Fields) : list Effect :=
  let allowDevLogAfterEnd := default false (allowDevLogAfterEnd options) in
  match ctx with
  | InitialContext =>
      if isStringLiteral (prop event "type") "DEV_LOG"
      then [PlatformEmit (JsObject event)]
      else drop options event
             ("Event '" ++ templateText (prop event "type")
                ++ "' emitted before session started. "
                ++ "Platform must transition to IN_SESSION first.")
             BEFORE_SESSION
  | InSessionContext sessionId _ =>
      if hasSessionId event
         && negb (isStringLiteral (prop event "sessionId") sessionId)
      then drop options event
             ("sessionId mismatch: event.sessionId='"
                ++ templateText (prop event "sessionId")
                ++ "' !== context.sessionId='" ++ sessionId ++ "'")
             SESSION_ID_MISMATCH
      else [PlatformEmit (JsObject event)]
  | SessionEndedContext _ _ =>
      if isStringLiteral (prop event "type") "DEV_LOG"
         && allowDevLogAfterEnd
      then [PlatformEmit (JsObject event)]
      else drop options event
             ("Event '" ++ templateText (prop event "type")
                ++ "' emitted after session ended")
             AFTER_SESSION_ENDED
  end.

End EventGate.

(* ================================================================== *)
(** * Capability guard ([core/capability-guard]) *)
(* ================================================================== *)

Module CapabilityGuard.
Section Guard.

(** The API objects the platform factories build. *)
Context {Api : Type}.

Record PermissionResult := {
  granted : bool;
  reason : option string;
}.

(** The platform's check is a host callback: it may throw, and what it
    returns may be [null] or [undefined] ([None]). *)
Definition RuntimePermissionChecker :=
  Capability -> Result (option PermissionResult).
Definition CapabilityApiFactory := Capability -> Result Api.

Definition defaultPermissionChecker : RuntimePermissionChecker :=
  fun _ => Ok (Some {| granted := true; reason := None |}).

(** [permissionResult.granted] and [permissionResult.reason]: a
    [TypeError] on [null] and [undefined]. *)
Definition readResult (permissionResult : option PermissionResult)
  : Result PermissionResult :=
  match permissionResult with
  | Some result => Ok result
  | None => Throw TypeError
  end.

Record CapabilityGuardConfig := {
  declaredCapabilities : list Capability;
  checkPermission : option RuntimePermissionChecker;
  apiFactory : CapabilityApiFactory;
  noOpApiFactory : CapabilityApiFactory;
}.

Record CapabilityResult := {
  isAvailable : bool;
  api : Api;
  unavailableReason : option string;
}.

Definition getCapability (config : CapabilityGuardConfig)
    (capability : Capability) : Result CapabilityResult :=
  let declaredSet : gset Capability :=
    list_to_set (declaredCapabilities config) in
  let checkPermission :=
    default defaultPermissionChecker (checkPermission config) in
  if bool_decide (capability ∉ declaredSet) then
    Throw (CapabilityNotDeclaredError capability)
  else
    returned ← checkPermission capability;
    permissionResult ← readResult returned;
    available ←
      (if granted permissionResult then
         tryCatch
           (real ← apiFactory config capability;
            mret (Some {| isAvailable := true; api := real;
                          unavailableReason := None |}))
           (fun error => mret None)
       else mret None);
    match available with
    | Some result => mret result
    | None =>
        noOpApi ←
          tryCatch (noOpApiFactory config capability)
            (fun error =>
               Throw (SdkError
                        ("SDK internal error: cannot create no-op API for '"
                           ++ capabilityName capability ++ "'")));
        mret {| isAvailable := false; api := noOpApi;
                unavailableReason :=
                  Some (default "internal_error" (reason permissionResult)) |}
    end.

End Guard.
Arguments CapabilityGuardConfig : clear implicits.
Arguments CapabilityResult : clear implicits.
Arguments CapabilityApiFactory : clear implicits.
End CapabilityGuard.

(* ================================================================== *)
(** * The creators of the branded types ([types/branded]) *)
(* ================================================================== *)

(** The outcome of code all of whose exceptions are of one class, with
    its sequencing. *)
Inductive Try (E A : Type) :=
| Returns (a : A)
| Raises (e : E).
Arguments Returns {E A} a.
Arguments Raises {E A} e.

#[global] Instance Try_ret {E} : MRet (Try E) := fun A a => Returns a.
#[global] Instance Try_bind {E} : MBind (Try E) := fun A B k r =>
  match r with
  | Returns a => k a
  | Raises e => Raises e
  end.

Module Branded.

Inductive BrandedTypeError :=
| InvalidDifficultyError (providedValue : JsValue)
| InvalidSessionIdError (providedValue : JsValue)
| InvalidLevelIdError (providedValue : JsValue)
| InvalidTimestampError (providedValue : JsValue)
| InvalidDurationError (providedValue : JsValue).




(** [value ?? Date.now()]. *)
Definition orNow (value : JsValue) (dateNow : Z) : JsValue :=
  match value with
  | JsUndefined | JsNull => JsNumber (JsNumber.ofZ dateNow)
  | _ => value
  end.

Definition createTimestamp (value : JsValue) (dateNow : Z)
  : Try BrandedTypeError number :=
  let ts := orNow value dateNow in
  match ts with
  | JsNumber n =>
      if negb (JsNumber.isInteger n) || JsNumber.ltb n (JsNumber.ofZ 0)
      then Raises (InvalidTimestampError ts)
      else Returns n
  | _ => Raises (InvalidTimestampError ts)
  end.

Definition createDuration (value : JsValue)
  : Try BrandedTypeError number :=
  match value with
  | JsNumber n =>
      if negb (JsNumber.isInteger n) || JsNumber.ltb n (JsNumber.ofZ 0)
      then Raises (InvalidDurationError value)
      else Returns n
  | _ => Raises (InvalidDurationError value)
  end.


End Branded.

(* ================================================================== *)
(** * Context guards ([types/context]) *)
(* ================================================================== *)

Definition isInitialContext (context : GameContext) : bool :=
  bool_decide (state context = INITIAL).

Definition isInSessionContext (context : GameContext) : bool :=
  bool_decide (state context = IN_SESSION).

Definition isSessionEndedContext (context : GameContext) : bool :=
  bool_decide (state context = ENDED).

Definition assertInSession (context : GameContext) : Result unit :=
  if bool_decide (state context ≠ IN_SESSION) then
    Throw (SdkError ("Expected IN_SESSION context, got "
                       ++ stateName (state context) ++ ". "
                       ++ "This function should only be called during "
                       ++ "active gameplay."))
  else Ok ().

(* ================================================================== *)
(** * The gate on its driver ([platform/renderGame]) *)
(* ================================================================== *)

(** The function [createGatedEmit] returns, reading the snapshot from the
    driver it was given. *)
Definition gatedEmit (options : EventGate.GatedEmitOptions) (event : Fields)
  : Eff Session.Driver (list EventGate.Effect) :=
  ctx ← Session.getContext;
  mret (EventGate.createGatedEmit options ctx event).

(** The options [renderGame] builds: diagnostics stay allowed after the
    end, the drop callback is passed on when the host gave one. *)
Definition gatedEmitOptions (onEventDropped : bool)
  : EventGate.GatedEmitOptions :=
  {| EventGate.onEventDropped := onEventDropped;
     EventGate.allowDevLogAfterEnd := Some true |}.

(* ================================================================== *)
(** * The other methods of the emitter ([events/event-emitter]) *)
(* ================================================================== *)

Definition getEventCount : Eff Emitter Z := gets eventCount.
Definition getDroppedCount : Eff Emitter Z := gets droppedCount.

(** [dateNow] is the reading of [Date.now()] during the call. *)
Definition resetRateLimiter (dateNow : Z) : Eff Emitter unit :=
  modify (resetWindow dateNow).

(* ================================================================== *)
(** * Simulator runtime ([games-sdk-simulator/runtimeBuilder]) *)
(* ================================================================== *)

Module Simulator.

(** [{ ...profile.defaults.capabilities, ...overrides.capabilities }]: the
    profile gives every capability a switch, the overrides some of them. *)
Definition mergeCapabilities (defaults : Capability -> bool)
    (overrides : gmap Capability bool) (capability : Capability) : bool :=
  default (defaults capability) (overrides !! capability).

(** The [checkRuntimePermission] of the runtime [buildRuntime] returns. *)
Definition checkRuntimePermission (defaults : Capability -> bool)
    (overrides : gmap Capability bool)
  : CapabilityGuard.RuntimePermissionChecker :=
  fun capability =>
    let granted := mergeCapabilities defaults overrides capability in
    Ok (Some {| CapabilityGuard.granted := granted;
                CapabilityGuard.reason :=
                  if granted then None
                  else Some ("Capability " ++ capabilityName capability
                               ++ " denied by simulator") |}).

End Simulator.

(* ================================================================== *)
(** * Regular expressions *)
(* ================================================================== *)

(** The patterns of the source are anchored at both ends and use classes,
    sequence, repetition and option only; [test] on such a pattern is a
    match of the whole string. *)
Module RegExp.

Inductive t :=
| Never
| Empty
| Class (accepts : ascii -> bool)
| Seq (r1 r2 : t)
| Alt (r1 r2 : t)
| Star (r : t).

Fixpoint nullable (r : t) : bool :=
  match r with
  | Never | Class _ => false
  | Empty | Star _ => true
  | Seq r1 r2 => nullable r1 && nullable r2
  | Alt r1 r2 => nullable r1 || nullable r2
  end.

(** What is left to match after the character [c]. *)
Fixpoint derive (c : ascii) (r : t) : t :=
  match r with
  | Never | Empty => Never
  | Class accepts => if accepts c then Empty else Never
  | Seq r1 r2 =>
      if nullable r1
      then Alt (Seq (derive c r1) r2) (derive c r2)
      else Seq (derive c r1) r2
  | Alt r1 r2 => Alt (derive c r1) (derive c r2)
  | Star r1 => Seq (derive c r1) (Star r1)
  end.

Fixpoint test (r : t) (s : string) : bool :=
  match s with
  | EmptyString => nullable r
  | String c s' => test (derive c r) s'
  end.

Definition plus (r : t) : t := Seq r (Star r).
Definition optional (r : t) : t := Alt Empty r.

(** Character classes. *)
Definition range (lo hi c : ascii) : bool :=
  (N_of_ascii lo <=? N_of_ascii c)%N && (N_of_ascii c <=? N_of_ascii hi)%N.
Definition char (x c : ascii) : bool := Ascii.eqb x c.
Definition lower : ascii -> bool := range "a" "z".
Definition upper : ascii -> bool := range "A" "Z".
Definition digit : ascii -> bool := range "0" "9".

End RegExp.

(* ================================================================== *)
(** * Game metadata ([types/metadata]) *)
(* ================================================================== *)

Module Metadata.

Record InvalidMetadataError := {
  field : string;
  reason : string;
}.

(** The [message] of the error. *)
Definition metadataMessage (error : InvalidMetadataError) : string :=
  "Invalid metadata." ++ field error ++ ": " ++ reason error.

Definition invalid (field reason : string)
  : Try InvalidMetadataError unit :=
  Raises {| field := field; reason := reason |}.

Definition VALID_CATEGORIES : list string :=
  ["focus"; "memory"; "speed"; "regulation"; "planning"].

Definition VALID_CAPABILITIES : list string :=
  ["audio"; "haptics"; "timers"; "sensors"; "animations"].

(** [/^[a-z][a-z0-9-]*[a-z0-9]$/]. *)
Definition idPattern : RegExp.t :=
  RegExp.Seq (RegExp.Class RegExp.lower)
    (RegExp.Seq
       (RegExp.Star
          (RegExp.Class (fun c => RegExp.lower c || RegExp.digit c
                                  || RegExp.char "-" c)))
       (RegExp.Class (fun c => RegExp.lower c || RegExp.digit c))).

(** [/^\d+\.\d+\.\d+(-[a-zA-Z0-9.]+)?$/]. *)
Definition versionPattern : RegExp.t :=
  let digits := RegExp.plus (RegExp.Class RegExp.digit) in
  let dot := RegExp.Class (RegExp.char ".") in
  RegExp.Seq digits
    (RegExp.Seq dot
       (RegExp.Seq digits
          (RegExp.Seq dot
             (RegExp.Seq digits
                (RegExp.optional
                   (RegExp.Seq (RegExp.Class (RegExp.char "-"))
                      (RegExp.plus
                         (RegExp.Class
                            (fun c => RegExp.lower c || RegExp.upper c
                                      || RegExp.digit c
                                      || RegExp.char "." c))))))))).

(** The blocks of [validateMetadata], in order. *)
Definition checkId (m : Fields) : Try InvalidMetadataError unit :=
  match prop m "id" with
  | JsString id =>
      if bool_decide (String.length id = 0%nat)
      then invalid "id" "Must be a non-empty string"
      else if negb (RegExp.test idPattern id)
              && bool_decide (1 < String.length id)%nat
      then invalid "id"
             ("Must be lowercase alphanumeric with hyphens, "
                ++ "starting with a letter")
      else Returns ()
  | _ => invalid "id" "Must be a non-empty string"
  end.

Definition checkName (m : Fields) : Try InvalidMetadataError unit :=
  match prop m "name" with
  | JsString name =>
      if bool_decide (String.length name = 0%nat)
      then invalid "name" "Must be a non-empty string"
      else Returns ()
  | _ => invalid "name" "Must be a non-empty string"
  end.

Definition checkVersion (m : Fields) : Try InvalidMetadataError unit :=
  match prop m "version" with
  | JsString version =>
      if negb (RegExp.test versionPattern version)
      then invalid "version"
             "Must be valid semver format (e.g., 1.0.0 or 1.0.0-beta.1)"
      else Returns ()
  | _ => invalid "version" "Must be a string"
  end.

(** The two [for] loops over an array whose members must be drawn from a
    list of names. *)
Fixpoint checkMembers (field kind : string) (names : list string)
    (members : list JsValue) : Try InvalidMetadataError unit :=
  match members with
  | [] => Returns ()
  | member :: rest =>
      if negb (includes names member)
      then invalid field
             ("Invalid " ++ kind ++ ": " ++ templateText member
                ++ ". Valid: " ++ join names)
      else checkMembers field kind names rest
  end.

Definition checkCategories (m : Fields) : Try InvalidMetadataError unit :=
  match prop m "categories" with
  | JsArray categories =>
      if bool_decide (List.length categories = 0%nat)
      then invalid "categories" "Must be a non-empty array"
      else checkMembers "categories" "category" VALID_CATEGORIES categories
  | _ => invalid "categories" "Must be a non-empty array"
  end.

Definition checkDuration (m : Fields) : Try InvalidMetadataError unit :=
  match prop m "recommendedSessionDurationMs" with
  | JsNumber n =>
      if negb (JsNumber.isInteger n) || JsNumber.leb n (JsNumber.ofZ 0)
      then invalid "recommendedSessionDurationMs"
             "Must be a positive integer (milliseconds)"
      else Returns ()
  | _ => invalid "recommendedSessionDurationMs"
           "Must be a positive integer (milliseconds)"
  end.

Definition checkCapabilities (m : Fields) : Try InvalidMetadataError unit :=
  match prop m "capabilities" with
  | JsArray capabilities =>
      checkMembers "capabilities" "capability" VALID_CAPABILITIES
        capabilities
  | _ => invalid "capabilities" "Must be an array"
  end.

Definition checkSchemaVersion (m : Fields) : Try InvalidMetadataError unit :=
  match prop m "stateSchemaVersion" with
  | JsNumber n =>
      if negb (JsNumber.isInteger n) || JsNumber.ltb n (JsNumber.ofZ 1)
      then invalid "stateSchemaVersion" "Must be a positive integer >= 1"
      else Returns ()
  | _ => invalid "stateSchemaVersion" "Must be a positive integer >= 1"
  end.

(** The named properties of a value that passed [typeof === 'object']:
    an array has none of the names read here. *)
Definition validateMetadata (metadata : JsValue)
  : Try InvalidMetadataError unit :=
  match metadata with
  | JsObject _ | JsArray _ =>
      let m := match metadata with JsObject m => m | _ => ∅ end in
      checkId m;; checkName m;; checkVersion m;; checkCategories m;;
      checkDuration m;; checkCapabilities m;; checkSchemaVersion m
  | _ => invalid "root" "Metadata must be an object"
  end.

End Metadata.

(* ================================================================== *)
(** * Game registration ([core/create-game]) *)
(* ================================================================== *)

Module CreateGame.

Definition SDK_VERSION : string := "0.1.0".

(** [typeof value]. *)
Definition typeOf (value : JsValue) : string :=
  match value with
  | JsUndefined => "undefined"
  | JsNull | JsArray _ | JsObject _ => "object"
  | JsBoolean _ => "boolean"
  | JsNumber _ => "number"
  | JsBigInt _ => "bigint"
  | JsString _ => "string"
  end.

(** What a configuration gives as [render]: a component, known by its
    identity, or a value that is not a function. *)
Inductive Render :=
| Component (component : nat)
| NotAFunction (value : JsValue).

Record GameConfig := {
  metadata : JsValue;
  capabilities : list Capability;
  render : Render;
}.

Record GameRegistration := {
  registeredMetadata : Fields;
  registeredCapabilities : list Capability;
  registeredRender : nat;
  sdkVersion : string;
}.

(** The [details] of a [GameRegistrationError]. *)
Inductive Details :=
| MetadataMessage (message : string)
| Declared (declared : list Capability)
| DeclaredAndMetadata (declared : list Capability) (metadata : list JsValue)
| Provided (typeName : string).

Record GameRegistrationError := {
  reason : string;
  details : Details;
}.

Definition fail {A} (reason : string) (details : Details)
  : Try GameRegistrationError A :=
  Raises {| reason := reason; details := details |}.

(** [metadataSet.has(cap)]. *)
Definition has (metadata : list JsValue) (cap : Capability) : bool :=
  existsb (fun member => isStringLiteral member (capabilityName cap)) metadata.

(** The [for] loop over the declared capabilities. *)
Fixpoint checkDeclared (declared remaining : list Capability)
    (metadata : list JsValue) : Try GameRegistrationError unit :=
  match remaining with
  | [] => Returns ()
  | cap :: rest =>
      if negb (has metadata cap)
      then fail ("Capability '" ++ capabilityName cap
                   ++ "' declared but not in metadata.capabilities")
             (DeclaredAndMetadata declared metadata)
      else checkDeclared declared rest metadata
  end.

Definition validateCapabilities (declared : list Capability)
    (metadata : list JsValue) : Try GameRegistrationError unit :=
  let declaredSet : gset Capability := list_to_set declared in
  if bool_decide (size declaredSet ≠ List.length declared)
  then fail "Duplicate capabilities declared" (Declared declared)
  else checkDeclared declared declared metadata.

(** [config.metadata.capabilities], read after the metadata was found
    valid. *)
Definition metadataCapabilities (metadata : JsValue) : list JsValue :=
  match metadata with
  | JsObject m =>
      match prop m "capabilities" with
      | JsArray capabilities => capabilities
      | _ => []
      end
  | _ => []
  end.

Definition createGame (config : GameConfig)
  : Try GameRegistrationError GameRegistration :=
  match Metadata.validateMetadata (metadata config) with
  | Raises error => fail "Invalid metadata"
                      (MetadataMessage (Metadata.metadataMessage error))
  | Returns _ =>
      validateCapabilities (capabilities config)
        (metadataCapabilities (metadata config));;
      match render config with
      | NotAFunction value =>
          fail "render must be a React component" (Provided (typeOf value))
      | Component component =>
          Returns {| registeredMetadata :=
                       match metadata config with
                       | JsObject m => m
                       | _ => ∅
                       end;
                     registeredCapabilities := capabilities config;
                     registeredRender := component;
                     sdkVersion := SDK_VERSION |}
      end
  end.

End CreateGame.

(* ================================================================== *)
(** * State migration ([state]) *)
(* ================================================================== *)

Module StateMigrator.
Section Migrator.

(** The saved states; the source does not look into them. *)
Context {State : Type}.

(** A migration is game code: it may throw. *)
Definition Migration := State -> Result State.

(** The [while (version < toVersion)] loop, for the [steps] iterations it
    makes on integer versions. *)
Fixpoint migrateLoop (migrations : gmap Z Migration) (steps : nat)
    (current : State) (version : Z) : Result State :=
  match steps with
  | O => Ok current
  | S steps' =>
      let nextVersion := version + 1 in
      match migrations !! nextVersion with
      | None =>
          Throw (SdkError ("Missing migration from version "
                             ++ pretty version ++ " to "
                             ++ pretty nextVersion))
      | Some migration =>
          current ← migration current;
          migrateLoop migrations steps' current nextVersion
      end
  end.

(** The function [createStateMigrator] returns. *)
Definition createStateMigrator (migrations : gmap Z Migration)
    (state : State) (fromVersion toVersion : Z) : Result State :=
  migrateLoop migrations (Z.to_nat (toVersion - fromVersion)) state
    fromVersion.

End Migrator.
End StateMigrator.

(* ================================================================== *)
(** * Event inspector ([dev/event-inspector]) *)
(* ================================================================== *)

Module EventInspector.

(** [{ valid: true, errors: [], warnings: [] }], the validation recorded
    for an event the emitter delivered. *)
Definition passed : ValidationResult :=
  {| valid := true; event := None; errors := []; warnings := [] |}.

(** [validation.valid]. *)
Definition isValid (validation : ValidationResult) : bool := valid validation.

Record CapturedEvent := {
  event : option EmittedEvent.t;
  rawEvent : JsValue;
  validation : ValidationResult;
  capturedAt : Z;
  index : Z;
}.

(** Listeners are known by their identity, as those of the session
    driver are; they do not call back into the inspector. *)
Definition Listener := nat.
Definition ListenerBehaviour := Listener -> CapturedEvent -> Result unit.

(** The closure variables of [createEventInspector], and the record of the
    notifications made so far. *)
Record Inspector := {
  history : list CapturedEvent;
  listeners : list Listener;
  eventIndex : Z;
  notifications : list (Listener * CapturedEvent);
}.

Definition createEventInspector : Inspector :=
  {| history := []; listeners := []; eventIndex := 0; notifications := [] |}.

(** [history.push(captured)], with [index: eventIndex++]. *)
Definition push (make : Z -> CapturedEvent) : Eff Inspector CapturedEvent :=
  fun s =>
    let captured := make (eventIndex s) in
    ({| history := history s ++ [captured]; listeners := listeners s;
        eventIndex := eventIndex s + 1; notifications := notifications s |},
     Ok captured).

Definition noteNotification (listener : Listener) (captured : CapturedEvent)
    (s : Inspector) : Inspector :=
  {| history := history s; listeners := listeners s;
     eventIndex := eventIndex s;
     notifications := notifications s ++ [(listener, captured)] |}.

(** The loop over the listeners: a throwing listener is ignored. *)
Fixpoint notify (behaviour : ListenerBehaviour) (ls : list Listener)
    (captured : CapturedEvent) : Eff Inspector unit :=
  match ls with
  | [] => mret ()
  | listener :: rest =>
      tryCatchEff
        (modify (noteNotification listener captured);;
         lift (behaviour listener captured))
        (fun _ => mret ());;
      notify behaviour rest captured
  end.

(** [new Date(timestamp).toISOString()], for what it throws: the
    [RangeError] of a time value no date has. *)
Definition toISOString (timestamp : Z) : Result unit :=
  if 8640000000000000 <? Z.abs timestamp
  then Throw (HostError "RangeError: Invalid time value")
  else Ok ().

(** [dateNow] is the reading of the clock in [new Date()].  The console
    calls are modelled for the property reads in their arguments. *)
Definition capture (behaviour : ListenerBehaviour) (dateNow : Z)
    (emitted : EmittedEvent.t) : Eff Inspector unit :=
  captured ← push (fun index =>
                     {| event := Some emitted;
                        rawEvent := EmittedEvent.event emitted;
                        validation := passed;
                        capturedAt := dateNow;
                        index := index |});
  ls ← gets listeners;
  notify behaviour ls captured;;
  lift (getProp (EmittedEvent.event emitted) "type");;
  lift (toISOString (EmittedEvent.timestamp emitted)).

Definition captureRaw (behaviour : ListenerBehaviour) (dateNow : Z)
    (raw : JsValue) : Eff Inspector unit :=
  result ← lift (validateEvent raw development);
  captured ← push (fun index =>
                     {| event := None;
                        rawEvent := raw;
                        validation := result;
                        capturedAt := dateNow;
                        index := index |});
  ls ← gets listeners;
  notify behaviour ls captured;;
  lift (getProp raw "type");;
  mret ().

Record EventFilter := {
  types : option (list string);
  validOnly : option bool;
  invalidOnly : option bool;
}.

(** The callback of [history.filter]. *)
Definition selects (filter : EventFilter) (captured : CapturedEvent)
  : Result bool :=
  typeSelected ←
    match types filter with
    | Some (first :: others) =>
        type ← getProp (rawEvent captured) "type";
        mret (includes (first :: others) type)
    | _ => mret true
    end;
  if negb typeSelected then mret false
  else if bool_decide (validOnly filter = Some true)
          && negb (isValid (validation captured))
  then mret false
  else if bool_decide (invalidOnly filter = Some true)
          && isValid (validation captured)
  then mret false
  else mret true.

(** [Array.prototype.filter] with a callback that may throw. *)
Fixpoint filterHistory (select : CapturedEvent -> Result bool)
    (entries : list CapturedEvent) : Result (list CapturedEvent) :=
  match entries with
  | [] => mret []
  | captured :: rest =>
      selected ← select captured;
      kept ← filterHistory select rest;
      mret (if selected : bool then captured :: kept else kept)
  end.

Definition getHistory (filter : option EventFilter)
  : Eff Inspector (list CapturedEvent) :=
  entries ← gets history;
  match filter with
  | None => mret entries
  | Some filter => lift (filterHistory (selects filter) entries)
  end.

(** The names under which a plain object such as [byType] finds a member
    of [Object.prototype] when it has no property of its own. *)
Definition objectPrototype : list string :=
  ["constructor"; "__defineGetter__"; "__defineSetter__"; "hasOwnProperty";
   "__lookupGetter__"; "__lookupSetter__"; "isPrototypeOf";
   "propertyIsEnumerable"; "toString"; "valueOf"; "__proto__";
   "toLocaleString"].

(** What [byType] holds under a key: a count, or, under the name of an
    inherited member, a string, the text of that member followed by so
    many ones. *)
Inductive Tallied :=
| Counted (n : Z)
| Spelled (ones : nat).

(** [byType[type] = (byType[type] ?? 0) + 1] on the own properties of
    [byType].  A key read for the first time finds the inherited member,
    if there is one of that name, and [+] then joins strings.  Under
    [__proto__] the assignment goes to the setter of [Object.prototype],
    which takes no string: nothing is stored. *)
Definition bump (counts : gmap string Tallied) (key : string)
  : gmap string Tallied :=
  match counts !! key with
  | Some (Counted n) => <[key := Counted (n + 1)]> counts
  | Some (Spelled ones) => <[key := Spelled (S ones)]> counts
  | None =>
      if bool_decide (key = "__proto__") then counts
      else if bool_decide (key ∈ objectPrototype)
      then <[key := Spelled 1]> counts
      else <[key := Counted 1]> counts
  end.

(** The counters of the loop in [getStats]. *)
Record Tally := {
  validCount : Z;
  invalidCount : Z;
  counts : gmap string Tallied;
}.

Definition tallyOne (tally : Tally) (captured : CapturedEvent)
  : Result Tally :=
  type ← getProp (rawEvent captured) "type";
  let key := templateText type in
  mret {| validCount :=
            if isValid (validation captured)
            then validCount tally + 1 else validCount tally;
          invalidCount :=
            if isValid (validation captured)
            then invalidCount tally else invalidCount tally + 1;
          counts := bump (counts tally) key |}.

Fixpoint tallyAll (tally : Tally) (entries : list CapturedEvent)
  : Result Tally :=
  match entries with
  | [] => mret tally
  | captured :: rest =>
      tally ← tallyOne tally captured;
      tallyAll tally rest
  end.

Record InspectorStats := {
  total : Z;
  valid : Z;
  invalid : Z;
  byType : gmap string Tallied;
}.

Definition getStats : Eff Inspector InspectorStats :=
  entries ← gets history;
  tally ← lift (tallyAll {| validCount := 0; invalidCount := 0;
                            counts := ∅ |} entries);
  mret {| total := Z.of_nat (List.length entries);
          valid := validCount tally;
          invalid := invalidCount tally;
          byType := counts tally |}.

Definition clear : Eff Inspector unit :=
  modify (fun s =>
    {| history := []; listeners := listeners s; eventIndex := 0;
       notifications := notifications s |}).

Definition setListeners (ls : list Listener) (s : Inspector) : Inspector :=
  {| history := history s; listeners := ls; eventIndex := eventIndex s;
     notifications := notifications s |}.

(** [listeners.push(listener)]: the same listener can be there twice. *)
Definition subscribe (listener : Listener) : Eff Inspector unit :=
  modify (fun s => setListeners (listeners s ++ [listener]) s).

(** [listeners.splice(listeners.indexOf(listener), 1)]. *)
Fixpoint removeFirst (listener : Listener) (ls : list Listener)
  : list Listener :=
  match ls with
  | [] => []
  | l :: rest =>
      if bool_decide (l = listener) then rest
      else l :: removeFirst listener rest
  end.

(** The function [subscribe] returns. *)
Definition unsubscribe (listener : Listener) : Eff Inspector unit :=
  modify (fun s => setListeners (removeFirst listener (listeners s)) s).

(** The calls a host can make on an inspector. *)
Inductive Call :=
| Capture (dateNow : Z) (emitted : EmittedEvent.t)
| CaptureRaw (dateNow : Z) (raw : JsValue)
| GetHistory (filter : option EventFilter)
| GetStats
| Clear
| Subscribe (listener : Listener)
| Unsubscribe (listener : Listener).

Definition perform (behaviour : ListenerBehaviour) (c : Call)
  : Eff Inspector unit :=
  match c with
  | Capture dateNow emitted => capture behaviour dateNow emitted
  | CaptureRaw dateNow raw => captureRaw behaviour dateNow raw
  | GetHistory filter => getHistory filter;; mret ()
  | GetStats => getStats;; mret ()
  | Clear => clear
  | Subscribe listener => subscribe listener
  | Unsubscribe listener => unsubscribe listener
  end.

(** A host that carries on after a call throws. *)
Fixpoint run (behaviour : ListenerBehaviour) (calls : list Call)
    (s : Inspector) : Inspector :=
  match calls with
  | [] => s
  | c :: rest => run behaviour rest (perform behaviour c s).1
  end.

End EventInspector.

(* ================================================================== *)
(** * Vocabulary of the statements *)
(* ================================================================== *)

(** The analytics fields of [PERFORMANCE_REPORTED] and [USER_SIGNAL]. *)
Inductive AnalyticsField :=
| accuracy | successRate | reactionTimeMs | errorCount | hintsUsed
| streakLength | signalValue.

Definition fieldName (f : AnalyticsField) : string :=
  match f with
  | accuracy => "accuracy"
  | successRate => "successRate"
  | reactionTimeMs => "reactionTimeMs"
  | errorCount => "errorCount"
  | hintsUsed => "hintsUsed"
  | streakLength => "streakLength"
  | signalValue => "value"
  end.

Definition fieldKind (f : AnalyticsField) : EventType :=
  match f with
  | signalValue => USER_SIGNAL
  | _ => PERFORMANCE_REPORTED
  end.

(** The fields whose range is the unit interval; the others are only
    bounded below, by zero. *)
Definition unitRange (f : AnalyticsField) : bool :=
  match f with
  | accuracy | successRate | signalValue => true
  | _ => false
  end.

Definition performanceFields : list AnalyticsField :=
  [accuracy; successRate; reactionTimeMs; errorCount; hintsUsed; streakLength].

Definition outOfRange (f : AnalyticsField) (n : number) : Prop :=
  JsNumber.ltb n (JsNumber.ofZ 0) = true
  \/ (unitRange f = true /\ JsNumber.gtb n (JsNumber.ofZ 1) = true).

Definition nearestBound (n : number) : number :=
  if JsNumber.ltb n (JsNumber.ofZ 0) then JsNumber.ofZ 0 else JsNumber.ofZ 1.

(** A value the clamping helpers take for a number. *)
Definition isFiniteNumber (v : JsValue) : bool :=
  match v with
  | JsNumber n => JsNumber.isFinite n
  | _ => false
  end.

Definition absentOrFinite (v : JsValue) : Prop :=
  v = JsUndefined \/ isFiniteNumber v = true.

(** What else an event must satisfy for its kind's validator to accept it. *)
Definition restValid (f : AnalyticsField) (e : Fields) : Prop :=
  match f with
  | signalValue => includes signalTypes (prop e "signalType") = true
  | _ => Forall (fun g => absentOrFinite (prop e (fieldName g)))
                performanceFields
  end.

(** The value a cleaning validator stores for a finite field. *)
Definition clampOf (f : AnalyticsField) (n : number) : number :=
  if unitRange f
  then JsNumber.max (JsNumber.ofZ 0) (JsNumber.min (JsNumber.ofZ 1) n)
  else JsNumber.max (JsNumber.ofZ 0) n.

(** The block of [validatePerformanceReported] that handles field [f]. *)
Definition cleanStep (e : Fields) (acc : Cleaning) (f : AnalyticsField)
  : Cleaning :=
  if unitRange f
  then clampUnitField (fieldName f) e acc
  else clampCountField (fieldName f) e acc.

(** The inputs on which development mode throws: objects within the size
    ceiling whose string [type] is not a recognized tag. *)
Definition unknownKind (event : JsValue) : Prop :=
  exists e tag,
    event = JsObject e
    /\ e !! "type" = Some (JsString tag)
    /\ estimateSize event <= MAX_EVENT_SIZE
    /\ tag ∉ recognizedTags.

(** The window a call at [now] is counted in: a fresh one when the current
    one has expired. *)
Definition windowAt (now : Z) (s : Emitter) : Emitter :=
  if RATE_LIMIT_WINDOW_MS <=? now - rateLimitWindowStart s
  then resetWindow now s
  else s.

(** Whether the rate limiter lets a call at [now] through. *)
Definition admitted (now : Z) (s : Emitter) : bool :=
  negb (MAX_EVENTS_PER_SECOND <=? eventsInWindow (windowAt now s)).

(** What [emit] does once the rate limiter has let the call through. *)
Definition process (config : EventEmitterConfig) (env : EmitEnv)
    (event : JsValue) : Eff Emitter unit :=
  skipped ← match mode config with
            | production =>
                type ← lift (getProp event "type");
                mret (isStringLiteral type "DEV_LOG")
            | development => mret false
            end;
  if skipped : bool then mret ()
  else
    validated ← tryCatchEff
                  (result ← lift (validateEvent event (mode config));
                   mret (Some result))
                  (fun error => modify countDropped;; mret None);
    match validated with
    | None => mret ()
    | Some result =>
        if negb (valid result) then modify countDropped
        else
          let sessionId := getSessionId env in
          timestamp ← lift (createTimestamp (timestampNow env));
          let emittedEvent :=
            {| EmittedEvent.event := eventOr result event;
               EmittedEvent.timestamp := timestamp;
               EmittedEvent.sessionId := sessionId;
               EmittedEvent.gameId := gameId config;
               EmittedEvent.sdkVersion := sdkVersion config |} in
          deliver 0 (handlers config) emittedEvent;;
          modify countEvent
    end.

(** The enriched event [emit] builds for a validated event. *)
Definition enrich (config : EventEmitterConfig) (env : EmitEnv)
    (result : ValidationResult) (event : JsValue) : EmittedEvent.t :=
  {| EmittedEvent.event := eventOr result event;
     EmittedEvent.timestamp := timestampNow env;
     EmittedEvent.sessionId := getSessionId env;
     EmittedEvent.gameId := gameId config;
     EmittedEvent.sdkVersion := sdkVersion config |}.

(** The handler invocations of one fan-out, in order. *)
Fixpoint fanOut (index : nat) (handlers : list EventHandler)
    (emittedEvent : EmittedEvent.t) : list HandlerCall :=
  match handlers with
  | [] => []
  | handler :: rest =>
      {| callee := index; argument := emittedEvent;
         outcome := handler emittedEvent |}
      :: fanOut (S index) rest emittedEvent
  end.

(** The emitter after the given handler invocations. *)
Definition appendCalls (calls : list HandlerCall) (s : Emitter) : Emitter :=
  {| eventCount := eventCount s; droppedCount := droppedCount s;
     rateLimitWindowStart := rateLimitWindowStart s;
     eventsInWindow := eventsInWindow s;
     handlerCalls := handlerCalls s ++ calls |}.

(** A run of calls to [emit] by a caller that carries on whatever each
    call does. *)
Fixpoint emitAll (config : EventEmitterConfig)
    (calls : list (EmitEnv * JsValue)) (s : Emitter) : Emitter :=
  match calls with
  | [] => s
  | (env, event) :: rest => emitAll config rest (emit config env event s).1
  end.

(** For each call of a run that the rate limiter let through: the start of
    the window it was counted in, and the time of the call. *)
Fixpoint admittedCalls (config : EventEmitterConfig)
    (calls : list (EmitEnv * JsValue)) (s : Emitter) : list (Z * Z) :=
  match calls with
  | [] => []
  | (env, event) :: rest =>
      (if admitted (now env) s
       then [(rateLimitWindowStart (windowAt (now env) s), now env)]
       else [])
      ++ admittedCalls config rest (emit config env event s).1
  end.

(** Whether [emit] discards the event as a production-mode [DEV_LOG]. *)
Definition skips (config : EventEmitterConfig) (e : Fields) : bool :=
  match mode config with
  | production => isStringLiteral (prop e "type") "DEV_LOG"
  | development => false
  end.

(** ** Example inputs *)

(** Two handlers and two configurations. *)
Definition failingHandler : EventHandler :=
  fun _ => Throw (HostError "handler failed").
Definition quietHandler : EventHandler := fun _ => Ok ().

Definition devConfig : EventEmitterConfig :=
  {| gameId := "game"; sdkVersion := "1.0.0"; mode := development;
     handlers := [failingHandler; quietHandler] |}.

Definition prodConfig : EventEmitterConfig :=
  {| gameId := "game"; sdkVersion := "1.0.0"; mode := production;
     handlers := [quietHandler] |}.

(** A call at wall-clock time [t] during session [s1]. *)
Definition envAt (t : Z) : EmitEnv :=
  {| now := t; getSessionId := Some "s1"; timestampNow := t |}.

(** A valid [ERROR_MADE] event and a valid [DEV_LOG] event. *)
Definition errorMade : list (string * JsValue) :=
  [("type", JsString "ERROR_MADE"); ("errorType", JsString "timeout")].

Definition devLog : list (string * JsValue) :=
  [("type", JsString "DEV_LOG"); ("message", JsString "hello")].


(** An admitted call, as [admittedCalls] lists it, counted in window [w]. *)
Definition inWindow (w : Z) (c : Z * Z) : Prop := c.1 = w.

#[global] Instance inWindow_dec (w : Z) (c : Z * Z) : Decision (inWindow w c).
Proof. unfold inWindow. apply _. Defined.


(** The clock reading a [startSession] call sees is a valid timestamp. *)
Definition validStart (c : Session.Call) : Prop :=
  match c with
  | Session.StartSession _ nowMs => 0 <= nowMs
  | _ => True
  end.

(** Listeners that do not call the driver: each returns or throws at
    once. *)
Definition quiet (behaviour : Session.ListenerBehaviour) : Prop :=
  forall seen listener ctx,
    behaviour seen listener ctx = Session.Return
    \/ exists err, behaviour seen listener ctx = Session.Raise err.

(** The states a driver has announced: [IN_SESSION] when it has started a
    session at a valid clock reading, then [ENDED] when it has ended the
    session with a valid duration. *)
Definition announcedStart (s : Session.Driver) : list SessionState :=
  match Session.startTime s with
  | Some started => if started <? 0 then [] else [IN_SESSION]
  | None => []
  end.

Definition announcedEnd (s : Session.Driver) : list SessionState :=
  match Session.sessionDurationMs s with
  | Some duration => if duration <? 0 then [] else [ENDED]
  | None => []
  end.

Definition announced (s : Session.Driver) : list SessionState :=
  match Session.currentState s with
  | INITIAL => []
  | IN_SESSION => announcedStart s
  | ENDED => announcedStart s ++ announcedEnd s
  end.

(** The driver after the listeners subscribed have each been handed the
    snapshot [ctx], in order. *)
Definition notes (ctx : GameContext) (ls : list Session.Listener)
    (s : Session.Driver) : Session.Driver :=
  foldl (fun s l => Session.note l ctx s) s ls.

(** What every driver satisfies that was reached with listeners that do
    not call it: no listener is subscribed twice, a driver that has left
    [INITIAL] holds its session data, and each listener was handed a part
    of what was announced. *)
Definition orderly (s : Session.Driver) : Prop :=
  NoDup (Session.members s)
  /\ (Session.currentState s <> INITIAL ->
      is_Some (Session.sessionId s) /\ is_Some (Session.startTime s))
  /\ (Session.currentState s = ENDED ->
      is_Some (Session.sessionDurationMs s))
  /\ forall listener, Session.observed listener s `sublist_of` announced s.

(** The session, if one was started, was started at a valid clock
    reading. *)
Definition startedValid (s : Session.Driver) : Prop :=
  forall started, Session.startTime s = Some started -> 0 <= started.

(** A listener that is subscribed and was handed all that was
    announced. *)
Definition informed (listener : Session.Listener) (s : Session.Driver)
  : Prop :=
  listener ∈ Session.members s
  /\ Session.observed listener s = announced s.

(** Listeners that return at once. *)
Definition silent : Session.ListenerBehaviour :=
  fun _ _ _ => Session.Return.

(** Listener 0 ends the session from inside its callback as soon as it is
    told that the session has started; the others return at once. *)
Definition impatient : Session.ListenerBehaviour :=
  fun _ listener ctx =>
    match listener, ctx with
    | O, InSessionContext _ _ =>
        Session.Invoke (Session.EndSession "done" 200)
          (fun _ => Session.Return)
    | _, _ => Session.Return
    end.






(** What the permission check the guard consults does. *)
Definition permission {Api : Type}
    (config : CapabilityGuard.CapabilityGuardConfig Api)
    (capability : Capability)
  : Result (option CapabilityGuard.PermissionResult) :=
  default CapabilityGuard.defaultPermissionChecker
    (CapabilityGuard.checkPermission config) capability.

(** The blob of a [SAVE_GAME_STATE] event: a string of 70000 letters. *)
Definition largeBlob : JsValue :=
  JsString (string_of_list_ascii (replicate (Z.to_nat 70000) "a"%char)).

(** The properties of that event. *)
Definition largeSave : list (string * JsValue) :=
  [("type", JsString "SAVE_GAME_STATE"); ("stateBlob", largeBlob);
   ("schemaVersion", int 1)].

(** Nesting depth of a value. *)
Fixpoint depth (v : JsValue) : nat :=
  match v with
  | JsArray elements =>
      S (foldr (fun x acc => Nat.max (depth x) acc) 0%nat elements)
  | JsObject properties =>
      S (map_fold (fun _ x acc => Nat.max (depth x) acc) 0%nat properties)
  | _ => 0%nat
  end.

(** The serialized size of a value, when it has one, is not negative. *)
Definition sizeNonneg (v : JsValue) : Prop :=
  forall n, JSON.stringifySize v = JSON.Bytes n -> 0 <= n.

(** The steps of the two folds of [JSON.stringifySize]. *)
Definition elementStep (x : JsValue) (acc : option Z) : option Z :=
  match acc, JSON.stringifySize x with
  | Some total, JSON.Bytes n => Some (total + n)
  | Some total, JSON.Undefined => Some (total + 4)
  | _, _ => None
  end.

Definition memberStep (key : string) (x : JsValue) (acc : option (Z * Z))
  : option (Z * Z) :=
  match acc, JSON.stringifySize x with
  | Some (count, total), JSON.Bytes n =>
      Some (count + 1, total + JSON.quoteSize key + 1 + n)
  | Some kept, JSON.Undefined => Some kept
  | _, _ => None
  end.

(** Events of the repository's test suite ([Date.now()] read as
    1700000000000). *)
Definition sessionStartedEvent (sid : string) : list (string * JsValue) :=
  [("type", JsString "SESSION_STARTED"); ("sessionId", JsString sid);
   ("timestamp", int 1700000000000);
   ("userTimeZone", JsString "America/New_York")].

Definition levelCompletedEvent : list (string * JsValue) :=
  [("type", JsString "LEVEL_COMPLETED"); ("sessionId", JsString "session-123");
   ("levelId", JsString "level-1"); ("timestamp", int 1700000000000);
   ("durationMs", int 30000); ("attemptNumber", int 1);
   ("difficulty", int 5); ("accuracy", JsNumber (Finite 85 (-2)));
   ("errorCount", int 2)].

Definition unknownEvent : list (string * JsValue) :=
  [("type", JsString "UNKNOWN_EVENT_TYPE");
   ("sessionId", JsString "session-123"); ("timestamp", int 1700000000000)].

Definition gateOptions : EventGate.GatedEmitOptions :=
  {| EventGate.onEventDropped := true;
     EventGate.allowDevLogAfterEnd := None |}.


(** A guard for a game that declared [audio] and [haptics], on a platform
    that denies [haptics], whose real factory fails on [audio] and whose
    APIs are plain labels. *)
Definition guardConfig : CapabilityGuard.CapabilityGuardConfig string :=
  {| CapabilityGuard.declaredCapabilities := [audio; haptics];
     CapabilityGuard.checkPermission :=
       Some (fun c =>
               match c with
               | haptics =>
                   Ok (Some {| CapabilityGuard.granted := false;
                               CapabilityGuard.reason :=
                                 Some "user_disabled" |})
               | _ =>
                   Ok (Some {| CapabilityGuard.granted := true;
                               CapabilityGuard.reason := None |})
               end);
     CapabilityGuard.apiFactory :=
       fun c =>
         match c with
         | audio => Throw (HostError "no audio device")
         | _ => Ok ("real " ++ capabilityName c)
         end;
     CapabilityGuard.noOpApiFactory :=
       fun c => Ok ("no-op " ++ capabilityName c) |}.

(** A permission check that throws, and the guard of [guardConfig] with
    another check. *)
Definition failingCheck : @CapabilityGuard.RuntimePermissionChecker :=
  fun _ => Throw (HostError "permission service unavailable").

Definition checkedBy (check : @CapabilityGuard.RuntimePermissionChecker)
  : CapabilityGuard.CapabilityGuardConfig string :=
  {| CapabilityGuard.declaredCapabilities :=
       CapabilityGuard.declaredCapabilities guardConfig;
     CapabilityGuard.checkPermission := Some check;
     CapabilityGuard.apiFactory := CapabilityGuard.apiFactory guardConfig;
     CapabilityGuard.noOpApiFactory :=
       CapabilityGuard.noOpApiFactory guardConfig |}.

(** ** Vocabulary of the further properties *)

(** The kinds whose validator rewrites fields; every other validator
    returns the event it was given. *)
Definition cleans (t : EventType) : bool :=
  match t with
  | PERFORMANCE_REPORTED | USER_SIGNAL => true
  | _ => false
  end.

(** The two shapes of a [ValidationResult]. *)
Definition wellFormed (result : ValidationResult) : Prop :=
  (valid result = true /\ errors result = []
   /\ exists cleaned, event result = Some (JsObject cleaned))
  \/ (valid result = false /\ errors result <> [] /\ event result = None).

(** The warnings [validatePerformanceReported] can give. *)
Definition performanceWarnings : list string :=
  ["accuracy clamped to 0"; "accuracy clamped to 1";
   "successRate clamped to 0"; "successRate clamped to 1"].

(** A value a cleaning step leaves as it is. *)
Definition settled (f : AnalyticsField) (v : JsValue) : Prop :=
  v = JsUndefined \/ exists m d, v = JsNumber (Finite m d)
                                 /\ clampOf f (Finite m d) = Finite m d.


(** The number [n] is the integer [z]. *)
Definition isInt (n : number) (z : Z) : Prop :=
  JsNumber.eqb n (JsNumber.ofZ z) = true.

(** The order of the lifecycle. *)
Definition rank (s : SessionState) : nat :=
  match s with
  | INITIAL => 0
  | IN_SESSION => 1
  | ENDED => 2
  end.

(** What holds of every driver that can be reached, whatever its
    listeners do: the session data is there from the state it is set in,
    and no listener is subscribed twice. *)
Definition reachable (s : Session.Driver) : Prop :=
  (Session.currentState s = INITIAL ->
   Session.sessionId s = None /\ Session.startTime s = None
   /\ Session.sessionDurationMs s = None)
  /\ (Session.currentState s = IN_SESSION ->
      Session.sessionDurationMs s = None)
  /\ NoDup (Session.members s).

(** A field that is set stays as it is. *)
Definition keeps {A : Type} (before after : option A) : Prop :=
  forall a, before = Some a -> after = Some a.

(** One driver comes after another: the state has not moved backwards
    and the session data that was set is still there. *)
Definition follows (before after : Session.Driver) : Prop :=
  (rank (Session.currentState before)
   <= rank (Session.currentState after))%nat
  /\ keeps (Session.sessionId before) (Session.sessionId after)
  /\ keeps (Session.startTime before) (Session.startTime after)
  /\ keeps (Session.sessionDurationMs before)
       (Session.sessionDurationMs after).




(** The record of a listener called with a snapshot. *)
Definition told (ctx : GameContext) (listener : Session.Listener)
  : Session.Notification :=
  {| Session.recipient := listener; Session.handed := ctx |}.


(** A driver in which session [s1] began at 100 and ended at 250. *)
Definition endedDriver : Session.Driver :=
  default Session.createSessionDriver
    (Session.run silent 5
       [Session.Subscribe 0%nat; Session.StartSession "s1" 100;
        Session.EndSession "completed" 250]
       Session.createSessionDriver).

(** What one call of [emit] can do to the counters and to the handlers:
    deliver, to every handler; drop; or neither. *)
Inductive EmitOutcome (config : EventEmitterConfig) (env : EmitEnv)
    (s s' : Emitter) : Prop :=
| Delivered (emittedEvent : EmittedEvent.t) :
    eventCount s' = eventCount s + 1 ->
    droppedCount s' = droppedCount s ->
    handlerCalls s'
    = (handlerCalls s ++ fanOut 0 (handlers config) emittedEvent)%list ->
    EmitOutcome config env s s'
| Dropped :
    eventCount s' = eventCount s ->
    droppedCount s' = droppedCount s + 1 ->
    handlerCalls s' = handlerCalls s ->
    EmitOutcome config env s s'
| Uncounted :
    eventCount s' = eventCount s ->
    droppedCount s' = droppedCount s ->
    handlerCalls s' = handlerCalls s ->
    mode config = production \/ timestampNow env < 0 ->
    EmitOutcome config env s s'.

(** Two migrations on counters: the first doubles, the second adds
    three. *)
Definition counterMigrations : gmap Z (@StateMigrator.Migration Z) :=
  {[ 2 := fun n => Ok (2 * n); 3 := fun n => Ok (n + 3) ]}.

(** The capability is listed, by name, in the metadata. *)
Definition listed (metadata : list JsValue) (cap : Capability) : Prop :=
  JsString (capabilityName cap) ∈ metadata.

(** A valid metadata object, as in the documentation of [createGame]. *)
Definition memoryMatch : list (string * JsValue) :=
  [("id", JsString "memory-match"); ("name", JsString "Memory Match");
   ("version", JsString "1.0.0");
   ("categories", JsArray [JsString "memory"]);
   ("recommendedSessionDurationMs", int 300000);
   ("capabilities", JsArray [JsString "audio"; JsString "haptics"]);
   ("stateSchemaVersion", int 1)].

(** The positions [0, 1, ..., n - 1]. *)
Definition positions (n : nat) : list Z := map Z.of_nat (seq 0 n).

(** The history is numbered by position, and the next index is its
    length. *)
Definition numbered (s : EventInspector.Inspector) : Prop :=
  map EventInspector.index (EventInspector.history s)
  = positions (List.length (EventInspector.history s))
  /\ EventInspector.eventIndex s
     = Z.of_nat (List.length (EventInspector.history s)).



(** One notification for each listener, in order. *)
Definition broadcast (ls : list EventInspector.Listener)
    (captured : EventInspector.CapturedEvent)
  : list (EventInspector.Listener * EventInspector.CapturedEvent) :=
  map (fun l => (l, captured)) ls.

(** The inspector after an entry was recorded and handed to the
    listeners. *)
Definition recorded (captured : EventInspector.CapturedEvent)
    (s : EventInspector.Inspector) : EventInspector.Inspector :=
  {| EventInspector.history := EventInspector.history s ++ [captured];
     EventInspector.listeners := EventInspector.listeners s;
     EventInspector.eventIndex := EventInspector.eventIndex s + 1;
     EventInspector.notifications :=
       EventInspector.notifications s
         ++ broadcast (EventInspector.listeners s) captured |}.

(** The entry [captureRaw] makes. *)
Definition rawEntry (dateNow : Z) (raw : JsValue) (result : ValidationResult)
    (position : Z) : EventInspector.CapturedEvent :=
  {| EventInspector.event := None;
     EventInspector.rawEvent := raw;
     EventInspector.validation := result;
     EventInspector.capturedAt := dateNow;
     EventInspector.index := position |}.

(** How many entries satisfy a test. *)
Definition count (test : EventInspector.CapturedEvent -> bool)
    (entries : list EventInspector.CapturedEvent) : Z :=
  Z.of_nat (List.length (List.filter test entries)).


(** Whether an entry was found valid. *)
Definition foundValid (captured : EventInspector.CapturedEvent) : bool :=
  EventInspector.isValid (EventInspector.validation captured).

(* ================================================================== *)
(** * Properties: numbers and clamping *)
(* ================================================================== *)

Section Numbers.
Import JsNumber.

Lemma pow10_pos (k : Z) : 0 <= k -> 0 < 10 ^ k.
Proof. intros Hk. apply Z.pow_pos_nonneg; lia. Qed.

(** A finite number is below zero exactly when its mantissa is negative. *)
Lemma ltb_zero (m e : Z) : ltb (Finite m e) (ofZ 0) = true <-> m < 0.
Proof.
  unfold ltb, ofZ, compare, compareFinite, scaled.
  assert (Hp : 0 < 10 ^ (e - Z.min e 0)) by (apply pow10_pos; lia).
  rewrite Z.mul_0_l.
  destruct (Z.compare_spec (m * 10 ^ (e - Z.min e 0)) 0) as [H|H|H];
    split; intros; try discriminate; try reflexivity; nia.
Qed.

(** A finite number above one has a positive mantissa. *)
Lemma gtb_one_pos (m e : Z) : gtb (Finite m e) (ofZ 1) = true -> 0 < m.
Proof.
  unfold gtb, ltb, ofZ, compare, compareFinite, scaled.
  assert (Hp : 0 < 10 ^ (e - Z.min 0 e)) by (apply pow10_pos; lia).
  assert (Hq : 0 < 10 ^ (0 - Z.min 0 e)) by (apply pow10_pos; lia).
  destruct (Z.compare_spec (1 * 10 ^ (0 - Z.min 0 e))
              (m * 10 ^ (e - Z.min 0 e))) as [H|H|H];
    intros; try discriminate; nia.
Qed.

Lemma compare_antisym (m1 e1 m2 e2 : Z) :
  compareFinite m2 e2 m1 e1 = CompOpp (compareFinite m1 e1 m2 e2).
Proof.
  unfold compareFinite. rewrite (Z.min_comm e2 e1). apply Z.compare_antisym.
Qed.

(** Clamping into the unit interval a number below zero, or above one. *)
Lemma clamp_unit_below (m e : Z) :
  m < 0 ->
  max (ofZ 0) (min (ofZ 1) (Finite m e)) = ofZ 0
  /\ eqb (ofZ 0) (Finite m e) = false.
Proof.
  intros Hm.
  assert (Hlt : ltb (Finite m e) (ofZ 0) = true) by (apply ltb_zero; lia).
  unfold ltb in Hlt. cbn [compare ofZ] in Hlt.
  destruct (compareFinite m e 0 0) eqn:Hc; try discriminate.
  assert (Hone : compareFinite 1 0 m e = Gt).
  { unfold compareFinite, scaled in *.
    assert (0 < 10 ^ (e - Z.min 0 e)) by (apply pow10_pos; lia).
    assert (0 < 10 ^ (0 - Z.min 0 e)) by (apply pow10_pos; lia).
    apply Z.compare_gt_iff. nia. }
  unfold min, max, eqb, ofZ. cbn [compare]. rewrite Hone. cbn [compare].
  rewrite (compare_antisym m e 0 0), Hc. cbn. done.
Qed.

Lemma clamp_unit_above (m e : Z) :
  gtb (Finite m e) (ofZ 1) = true ->
  max (ofZ 0) (min (ofZ 1) (Finite m e)) = ofZ 1
  /\ eqb (ofZ 1) (Finite m e) = false.
Proof.
  intros Hgt. unfold gtb, ltb in Hgt. cbn [compare ofZ] in Hgt.
  destruct (compareFinite 1 0 m e) eqn:Hc; try discriminate.
  unfold min, max, eqb, ofZ. cbn [compare]. rewrite Hc. done.
Qed.

Lemma clamp_nonneg_below (m e : Z) :
  m < 0 -> max (ofZ 0) (Finite m e) = ofZ 0.
Proof.
  intros Hm.
  assert (Hlt : ltb (Finite m e) (ofZ 0) = true) by (apply ltb_zero; lia).
  unfold ltb in Hlt. cbn [compare ofZ] in Hlt.
  destruct (compareFinite m e 0 0) eqn:Hc; try discriminate.
  unfold max, ofZ. cbn [compare].
  rewrite (compare_antisym m e 0 0), Hc. done.
Qed.

End Numbers.

(* ================================================================== *)
(** * Properties: serialized size *)
(* ================================================================== *)

Lemma depth_element (elements : list JsValue) (x : JsValue) :
  x ∈ elements -> (depth x < depth (JsArray elements))%nat.
Proof.
  intros Hin. cbn [depth]. apply Nat.lt_succ_r.
  induction elements as [|y rest IH]; [by apply elem_of_nil in Hin|].
  cbn [foldr]. apply elem_of_cons in Hin as [->|Hin]; [lia|].
  specialize (IH Hin). lia.
Qed.

Lemma depth_member (properties : Fields) (key : string) (x : JsValue) :
  properties !! key = Some x -> (depth x < depth (JsObject properties))%nat.
Proof.
  intros Hx. cbn [depth]. apply Nat.lt_succ_r. revert key x Hx.
  apply (map_fold_weak_ind
           (fun r (m : Fields) =>
              forall key x, m !! key = Some x -> (depth x <= r)%nat)).
  - intros key x Hx. by rewrite lookup_empty in Hx.
  - intros i y m r Hfresh IH key x Hx.
    destruct (decide (i = key)) as [->|Hne].
    + rewrite lookup_insert_eq in Hx. injection Hx as ->. lia.
    + rewrite lookup_insert_ne in Hx by done. specialize (IH key x Hx). lia.
Qed.

Lemma JsValue_depth_ind (P : JsValue -> Prop) :
  (forall v, (forall w, (depth w < depth v)%nat -> P w) -> P v) ->
  forall v, P v.
Proof.
  intros Hstep v. remember (depth v) as n eqn:Hn. revert v Hn.
  induction n as [n IH] using lt_wf_ind. intros v ->.
  apply Hstep. intros w Hw. by apply (IH (depth w)).
Qed.

Lemma quotedSize_nonneg (s : string) : 0 <= JSON.quotedSize s.
Proof.
  induction s as [|c s IH]; [done|]. cbn [JSON.quotedSize].
  assert (0 < JSON.quotedCharSize c); [|lia].
  unfold JSON.quotedCharSize.
  repeat (destruct (_ || _) || destruct (_ <? _)); lia.
Qed.

Lemma stringifySize_array (elements : list JsValue) :
  JSON.stringifySize (JsArray elements) =
  match foldr elementStep (Some 0) elements with
  | Some total =>
      JSON.Bytes (2 + total + JSON.commas (Z.of_nat (List.length elements)))
  | None => JSON.Throws
  end.
Proof. reflexivity. Qed.

Lemma stringifySize_object (properties : Fields) :
  JSON.stringifySize (JsObject properties) =
  match map_fold memberStep (Some (0, 0)) properties with
  | Some (count, total) => JSON.Bytes (2 + total + JSON.commas count)
  | None => JSON.Throws
  end.
Proof. reflexivity. Qed.

Lemma commas_nonneg (count : Z) : 0 <= JSON.commas count.
Proof. unfold JSON.commas. lia. Qed.

Lemma quoteSize_nonneg (s : string) : 0 <= JSON.quoteSize s.
Proof. pose proof (quotedSize_nonneg s). unfold JSON.quoteSize. lia. Qed.

Lemma elements_nonneg (elements : list JsValue) (total : Z) :
  Forall sizeNonneg elements ->
  foldr elementStep (Some 0) elements = Some total -> 0 <= total.
Proof.
  intros Hall. revert total.
  induction Hall as [|x rest Hx Hrest IH]; intros total; cbn [foldr].
  { by intros [= <-]. }
  unfold elementStep at 1.
  destruct (foldr elementStep (Some 0) rest) as [sub|]; [|done].
  specialize (IH sub eq_refl).
  destruct (JSON.stringifySize x) as [| |n] eqn:Hsize; [done| |].
  - intros [= <-]. lia.
  - intros [= <-]. specialize (Hx n Hsize). lia.
Qed.

(** The fold over the members of an object whose members have sizes that
    are not negative: the byte count is not negative and bounds the size
    of each member, and a member that cannot be serialized makes the fold
    fail. *)
Lemma members_bound (properties : Fields) :
  map_Forall (fun _ x => sizeNonneg x) properties ->
  let acc := map_fold memberStep (Some (0, 0)) properties in
  (forall count total, acc = Some (count, total) -> 0 <= count /\ 0 <= total)
  /\ (forall key x, properties !! key = Some x ->
      match JSON.stringifySize x with
      | JSON.Throws => acc = None
      | JSON.Undefined => True
      | JSON.Bytes n => forall count total, acc = Some (count, total) -> n <= total
      end).
Proof.
  cbn zeta.
  apply (map_fold_weak_ind
    (fun acc (m : Fields) =>
       map_Forall (fun _ x => sizeNonneg x) m ->
       (forall count total, acc = Some (count, total) -> 0 <= count /\ 0 <= total)
       /\ (forall key x, m !! key = Some x ->
           match JSON.stringifySize x with
           | JSON.Throws => acc = None
           | JSON.Undefined => True
           | JSON.Bytes n =>
               forall count total, acc = Some (count, total) -> n <= total
           end))).
  { intros _. split; [by intros ? ? [= <- <-]|].
    intros key x Hx. by rewrite lookup_empty in Hx. }
  intros i y m acc Hfresh IH Hall.
  apply map_Forall_insert in Hall as [Hy Hall]; [|done].
  destruct (IH Hall) as [Hacc Hmem]. clear IH.
  pose proof (quoteSize_nonneg i) as Hq.
  split.
  - intros count total. unfold memberStep.
    destruct acc as [[c t]|]; [|done]. destruct (Hacc c t eq_refl).
    destruct (JSON.stringifySize y) as [| |n] eqn:Hsize; [done| |].
    + intros [= <- <-]. done.
    + intros [= <- <-]. specialize (Hy n Hsize). lia.
  - intros key x Hx. destruct (decide (i = key)) as [->|Hne].
    + rewrite lookup_insert_eq in Hx. injection Hx as ->.
      unfold memberStep. destruct (JSON.stringifySize x) as [| |n] eqn:Hsize.
      * by destruct acc as [[c t]|].
      * done.
      * intros count total. destruct acc as [[c t]|]; [|done].
        destruct (Hacc c t eq_refl). intros [= <- <-]. lia.
    + rewrite lookup_insert_ne in Hx by done. specialize (Hmem key x Hx).
      unfold memberStep.
      destruct (JSON.stringifySize x) as [| |n]; [by rewrite Hmem|done|].
      intros count total. destruct acc as [[c t]|]; [|done].
      destruct (Hacc c t eq_refl). specialize (Hmem c t eq_refl).
      destruct (JSON.stringifySize y) as [| |n'] eqn:Hsize; [done| |].
      * by intros [= <- <-].
      * intros [= <- <-]. specialize (Hy n' Hsize). lia.
Qed.

Lemma stringifySize_nonneg (v : JsValue) : sizeNonneg v.
Proof.
  induction v as [v IH] using JsValue_depth_ind. unfold sizeNonneg.
  destruct v as [| |b|n|z|s|elements|properties]; intros size;
    try (cbn [JSON.stringifySize]; intros Hsize; try discriminate;
         injection Hsize as <-).
  - lia.
  - destruct b; lia.
  - destruct (JsNumber.isFinite n); lia.
  - apply quoteSize_nonneg.
  - rewrite stringifySize_array.
    destruct (foldr elementStep (Some 0) elements) as [total|] eqn:Hfold;
      [|done].
    intros [= <-]. pose proof (commas_nonneg (Z.of_nat (List.length elements))).
    assert (0 <= total); [|lia].
    apply (elements_nonneg elements); [|done].
    apply Forall_forall. intros x Hx. apply IH. by apply depth_element.
  - rewrite stringifySize_object.
    destruct (members_bound properties) as [Hacc _].
    { intros key x Hx. apply IH. by apply (depth_member _ key). }
    cbn zeta in Hacc.
    destruct (map_fold memberStep (Some (0, 0)) properties) as [[count total]|];
      [|done].
    intros [= <-]. destruct (Hacc count total eq_refl).
    pose proof (commas_nonneg count). lia.
Qed.

(** A property that is too large for an event makes the event too large. *)
Lemma estimateSize_member (e : Fields) (key : string) (x : JsValue) :
  e !! key = Some x ->
  MAX_EVENT_SIZE < estimateSize x ->
  MAX_EVENT_SIZE < estimateSize (JsObject e).
Proof.
  intros Hx Hlarge. unfold estimateSize in *. rewrite stringifySize_object.
  destruct (members_bound e) as [Hacc Hmem].
  { intros k y _. apply stringifySize_nonneg. }
  cbn zeta in Hacc, Hmem. specialize (Hmem key x Hx).
  destruct (map_fold memberStep (Some (0, 0)) e) as [[count total]|]; [|lia].
  destruct (Hacc count total eq_refl).
  pose proof (commas_nonneg count).
  destruct (JSON.stringifySize x) as [| |n];
    [done | unfold MAX_EVENT_SIZE in *; lia |].
  specialize (Hmem count total eq_refl). lia.
Qed.

(* ================================================================== *)
(** * Properties: the validation engine *)
(* ================================================================== *)

Lemma prop_lookup (e : Fields) (key : string) (v : JsValue) :
  e !! key = Some v -> prop e key = v.
Proof. unfold prop. intros ->. reflexivity. Qed.

Lemma matchCase_tag (t : EventType) : matchCase (eventTypeTag t) = Some t.
Proof. destruct t; reflexivity. Qed.

Lemma matchCase_Some (tag : string) (t : EventType) :
  matchCase tag = Some t -> eventTypeTag t = tag.
Proof.
  unfold matchCase. intros H. apply find_some in H as [_ H].
  by apply bool_decide_eq_true in H.
Qed.

Lemma matchCase_None (tag : string) :
  matchCase tag = None <-> tag ∉ recognizedTags.
Proof.
  split.
  - intros Hnone Hin. unfold recognizedTags in Hin.
    apply list_elem_of_fmap in Hin as (t & -> & _).
    rewrite matchCase_tag in Hnone. discriminate.
  - intros Hnot. destruct (matchCase tag) as [t|] eqn:Hm; [|done].
    exfalso. apply Hnot. apply matchCase_Some in Hm as <-.
    unfold recognizedTags. apply list_elem_of_fmap. exists t. split; [done|].
    destruct t; unfold allEventTypes; repeat (constructor; try done).
Qed.

Lemma conclude_nil (warnings : list string) (ev : Fields) :
  conclude [] warnings ev = accepted ev warnings.
Proof. reflexivity. Qed.

Lemma conclude_errors (errors warnings : list string) (ev : Fields) :
  errors <> [] -> conclude errors warnings ev = rejected errors warnings.
Proof.
  intros H. unfold conclude. rewrite bool_decide_eq_true_2; [done|].
  destruct errors; [done | simpl; lia].
Qed.

(** An event of a recognized kind within the size ceiling reaches the
    validator of its kind. *)
Lemma validateEvent_dispatch (e : Fields) (t : EventType)
    (mode : ValidationMode) :
  e !! "type" = Some (JsString (eventTypeTag t)) ->
  estimateSize (JsObject e) <= MAX_EVENT_SIZE ->
  validateEvent (JsObject e) mode = Ok (dispatch t e).
Proof.
  intros Htype Hsize. unfold validateEvent. rewrite Htype.
  destruct (Z.ltb_spec MAX_EVENT_SIZE (estimateSize (JsObject e))); [lia|].
  by rewrite matchCase_tag.
Qed.

(** ** The cleaning steps of [validatePerformanceReported] *)

Lemma validatePerformanceReported_fold (e : Fields) :
  validatePerformanceReported e =
  let acc := foldl (cleanStep e)
               {| cErrors := []; cWarnings := []; cleanedEvent := e |}
               performanceFields in
  conclude (cErrors acc) (cWarnings acc) (cleanedEvent acc).
Proof.
  unfold validatePerformanceReported, performanceFields, cleanStep.
  cbn [foldl unitRange fieldName]. reflexivity.
Qed.

Lemma cleanStep_absent (e : Fields) (acc : Cleaning) (f : AnalyticsField) :
  prop e (fieldName f) = JsUndefined -> cleanStep e acc f = acc.
Proof.
  intros H. unfold cleanStep, clampUnitField, clampCountField.
  rewrite H. by destruct (unitRange f).
Qed.

Lemma cleanStep_finite (e : Fields) (acc : Cleaning) (f : AnalyticsField)
    (m d : Z) :
  prop e (fieldName f) = JsNumber (Finite m d) ->
  cErrors (cleanStep e acc f) = cErrors acc
  /\ cleanedEvent (cleanStep e acc f)
     = <[fieldName f := JsNumber (clampOf f (Finite m d))]> (cleanedEvent acc)
  /\ (cWarnings acc <> [] -> cWarnings (cleanStep e acc f) <> [])
  /\ (unitRange f = true ->
      JsNumber.eqb (clampOf f (Finite m d)) (Finite m d) = false ->
      cWarnings (cleanStep e acc f) <> []).
Proof.
  intros H. unfold cleanStep, clampOf, clampUnitField, clampCountField.
  rewrite H. destruct (unitRange f); cbn.
  - repeat split; try done.
    + intros Hne. destruct (negb _); [|done]. by destruct (cWarnings acc).
    + intros _ ->. cbn. by destruct (cWarnings acc).
  - repeat split; done.
Qed.

Lemma cleanStep_nonnumeric (e : Fields) (acc : Cleaning) (f : AnalyticsField) :
  isDefined (prop e (fieldName f)) = true ->
  isFiniteNumber (prop e (fieldName f)) = false ->
  cErrors (cleanStep e acc f)
  = (cErrors acc ++ [(fieldName f ++ " must be a number")%string])%list.
Proof.
  intros Hdef Hnum. unfold cleanStep, clampUnitField, clampCountField.
  rewrite Hdef. unfold clampOptional, clampNonNegative.
  destruct (prop e (fieldName f)) as [| | |n| | | |];
    try by destruct (unitRange f).
  cbn in Hnum. rewrite Hnum. by destruct (unitRange f).
Qed.

(** Errors are only ever added. *)
Lemma cleanStep_errors_grow (e : Fields) (acc : Cleaning) (f : AnalyticsField) :
  cErrors acc `prefix_of` cErrors (cleanStep e acc f).
Proof.
  unfold cleanStep, clampUnitField, clampCountField.
  destruct (unitRange f), (isDefined _); try done.
  - destruct (clampOptional _ _ _) as [[? ?]|]; cbn; [done|].
    by apply prefix_app_r.
  - destruct (clampNonNegative _) as [[? ?]|]; cbn; [done|].
    by apply prefix_app_r.
Qed.

Lemma cleanFold_errors_grow (e : Fields) (fields : list AnalyticsField)
    (acc : Cleaning) :
  cErrors acc `prefix_of` cErrors (foldl (cleanStep e) acc fields).
Proof.
  revert acc. induction fields as [|f fields IH]; intros acc; cbn; [done|].
  etrans; [apply cleanStep_errors_grow | apply IH].
Qed.

Lemma absentOrFinite_cases (v : JsValue) :
  absentOrFinite v -> v = JsUndefined \/ exists m d, v = JsNumber (Finite m d).
Proof.
  intros [->|H]; [by left | right].
  destruct v as [| | |[| |m d]| | | |]; try discriminate. eauto.
Qed.

(** Running the steps over fields that are all absent or finite: no error
    is recorded, a property no step names is left alone, a finite field
    holds its clamped value, and a clamped unit-range field leaves a
    warning. *)
Lemma cleanFold_spec (e : Fields) (fields : list AnalyticsField)
    (acc : Cleaning) :
  NoDup (map fieldName fields) ->
  Forall (fun g => absentOrFinite (prop e (fieldName g))) fields ->
  let final := foldl (cleanStep e) acc fields in
  cErrors final = cErrors acc
  /\ (forall key, key ∉ map fieldName fields ->
      cleanedEvent final !! key = cleanedEvent acc !! key)
  /\ (cWarnings acc <> [] -> cWarnings final <> [])
  /\ (forall f m d, f ∈ fields ->
      prop e (fieldName f) = JsNumber (Finite m d) ->
      cleanedEvent final !! fieldName f
      = Some (JsNumber (clampOf f (Finite m d)))
      /\ (unitRange f = true ->
          JsNumber.eqb (clampOf f (Finite m d)) (Finite m d) = false ->
          cWarnings final <> [])).
Proof.
  revert acc. induction fields as [|g fields IH]; intros acc Hnd Hall; cbn.
  { split; [done|]. split; [done|]. split; [done|].
    intros f m d Hin. by apply elem_of_nil in Hin. }
  cbn in Hnd. apply NoDup_cons in Hnd as [Hfresh Hnd].
  apply Forall_cons in Hall as [Hg Hall].
  destruct (IH (cleanStep e acc g) Hnd Hall) as (Herr & Hkeep & Hwarn & Hval).
  apply absentOrFinite_cases in Hg as [Habs | (mg & dg & Hfin)].
  - rewrite (cleanStep_absent e acc g Habs) in *.
    split; [done|]. split; [|split; [done|]].
    + intros key Hkey. apply not_elem_of_cons in Hkey as [_ Hkey].
      by apply Hkeep.
    + intros f m d Hin Hf. apply elem_of_cons in Hin as [->|Hin].
      * rewrite Habs in Hf. discriminate.
      * by apply Hval.
  - destruct (cleanStep_finite e acc g mg dg Hfin)
      as (Hserr & Hsev & Hsw & Hsc).
    split; [by rewrite Herr|]. split; [|split].
    + intros key Hkey. apply not_elem_of_cons in Hkey as [Hne Hkey].
      rewrite Hkeep by done. rewrite Hsev. by apply lookup_insert_ne.
    + intros Hne. by apply Hwarn, Hsw.
    + intros f m d Hin Hf. apply elem_of_cons in Hin as [->|Hin].
      * rewrite Hfin in Hf. injection Hf as <- <-. split.
        -- rewrite Hkeep by done. rewrite Hsev. apply lookup_insert_eq.
        -- intros Hunit Hclamped. by apply Hwarn, Hsc.
      * by apply (Hval f m d).
Qed.

Lemma clampOf_outOfRange (f : AnalyticsField) (m d : Z) :
  outOfRange f (Finite m d) ->
  clampOf f (Finite m d) = nearestBound (Finite m d)
  /\ JsNumber.eqb (clampOf f (Finite m d)) (Finite m d) = false.
Proof.
  unfold outOfRange, clampOf, nearestBound.
  intros [Hlow | [Hunit Hhigh]].
  - rewrite Hlow. apply ltb_zero in Hlow.
    destruct (clamp_unit_below m d Hlow) as [Hc Hne].
    destruct (unitRange f).
    + by rewrite Hc.
    + by rewrite clamp_nonneg_below.
  - rewrite Hunit.
    destruct (clamp_unit_above m d Hhigh) as [Hc Hne].
    apply gtb_one_pos in Hhigh.
    destruct (JsNumber.ltb (Finite m d) (JsNumber.ofZ 0)) eqn:Hlow.
    + apply ltb_zero in Hlow. lia.
    + by rewrite Hc.
Qed.

Lemma performanceFields_NoDup : NoDup (map fieldName performanceFields).
Proof. apply (bool_decide_unpack _). by vm_compute. Qed.

(** C5, as amended.  For every analytics field of [PERFORMANCE_REPORTED]
    and [USER_SIGNAL], validating an event that is otherwise acceptable for
    its kind and whose field holds a finite out-of-range number yields
    [valid: true] with that field clamped to the nearest bound in the
    cleaned event; for [accuracy], [successRate] and [value] the warnings
    list is not empty. *)
Theorem clamp_dont_reject (f : AnalyticsField) (e : Fields)
    (mode : ValidationMode) (m d : Z) :
  e !! "type" = Some (JsString (eventTypeTag (fieldKind f))) ->
  estimateSize (JsObject e) <= MAX_EVENT_SIZE ->
  e !! fieldName f = Some (JsNumber (Finite m d)) ->
  outOfRange f (Finite m d) ->
  restValid f e ->
  exists cleaned warnings,
    validateEvent (JsObject e) mode = Ok (accepted cleaned warnings)
    /\ cleaned !! fieldName f = Some (JsNumber (nearestBound (Finite m d)))
    /\ (unitRange f = true -> warnings <> []).
Proof.
  intros Htype Hsize Hfield Hout Hrest.
  rewrite (validateEvent_dispatch e (fieldKind f) mode Htype Hsize).
  apply prop_lookup in Hfield.
  destruct (clampOf_outOfRange f m d Hout) as [Hclamp Hchanged].
  assert (Hperf : f ∈ performanceFields ->
    exists cleaned warnings,
      Ok (validatePerformanceReported e) = Ok (accepted cleaned warnings)
      /\ cleaned !! fieldName f = Some (JsNumber (nearestBound (Finite m d)))
      /\ (unitRange f = true -> warnings <> [])).
  { intros Hin.
    assert (Hall : Forall (fun g => absentOrFinite (prop e (fieldName g)))
                     performanceFields).
    { destruct f; try exact Hrest. exfalso. unfold performanceFields in Hin.
      repeat (apply elem_of_cons in Hin as [Hin|Hin]; [discriminate|]).
      by apply elem_of_nil in Hin. }
    rewrite validatePerformanceReported_fold.
    destruct (cleanFold_spec e performanceFields
                {| cErrors := []; cWarnings := []; cleanedEvent := e |}
                performanceFields_NoDup Hall) as (Herr & _ & _ & Hval).
    destruct (Hval f m d Hin Hfield) as [Hlook Hwarn].
    cbn zeta. rewrite Herr. cbn [cErrors]. rewrite conclude_nil.
    eexists _, _. split; [reflexivity|]. split.
    - by rewrite Hlook, Hclamp.
    - intros Hunit. by apply Hwarn. }
  destruct f; cbn [fieldKind dispatch];
    try (apply Hperf; unfold performanceFields; repeat (constructor; try done)).
  clear Hperf.
  change (includes signalTypes (prop e "signalType") = true) in Hrest.
  change (prop e "value" = JsNumber (Finite m d)) in Hfield.
  unfold validateUserSignal.
  rewrite Hrest. cbn [check]. rewrite Hfield.
  cbn [isDefined clampOptional JsNumber.isFinite].
  unfold clampOf in Hclamp, Hchanged. cbn [unitRange] in Hclamp, Hchanged.
  rewrite Hchanged, Hclamp. cbn [negb]. rewrite conclude_nil.
  eexists _, _. split; [reflexivity|]. split; [apply lookup_insert_eq | done].
Qed.

(** One instance: [accuracy: 1.5] in development mode. *)
Lemma clamp_dont_reject_witness :
  exists cleaned warnings,
    validateEvent
      (obj [("type", JsString "PERFORMANCE_REPORTED");
            ("accuracy", JsNumber (Finite 15 (-1)))]) development
    = Ok (accepted cleaned warnings)
    /\ cleaned !! "accuracy" = Some (JsNumber (JsNumber.ofZ 1))
    /\ (true = true -> warnings <> []).
Proof.
  apply (clamp_dont_reject accuracy
           (list_to_map [("type", JsString "PERFORMANCE_REPORTED");
                         ("accuracy", JsNumber (Finite 15 (-1)))])
           development 15 (-1)).
  - reflexivity.
  - by vm_compute.
  - reflexivity.
  - right. split; reflexivity.
  - repeat (constructor; [first [by left | by right] |]). constructor.
Defined.

(** C5 as stated fails: [Infinity] is a number outside the unit interval,
    and an event reporting it as its accuracy is rejected. *)
Lemma clamp_dont_reject_counterexample :
  JsNumber.gtb (Infinity false) (JsNumber.ofZ 1) = true
  /\ validateEvent
       (obj [("type", JsString "PERFORMANCE_REPORTED");
             ("accuracy", JsNumber (Infinity false))]) production
     = Ok {| valid := false; event := None;
             errors := ["accuracy must be a number"]; warnings := [] |}.
Proof. split; reflexivity. Qed.

(** The four count fields are clamped without a warning: the [clamped]
    flag [clampNonNegative] returns is not read. *)
Remark count_fields_clamp_silently :
  exists cleaned,
    validateEvent
      (obj [("type", JsString "PERFORMANCE_REPORTED");
            ("reactionTimeMs", int (-5))]) development
    = Ok (accepted cleaned [])
    /\ cleaned !! "reactionTimeMs" = Some (int 0).
Proof. eexists. split; [vm_compute; reflexivity | reflexivity]. Qed.

Lemma cleanFold_nonnumeric (e : Fields) (fields : list AnalyticsField)
    (acc : Cleaning) (f : AnalyticsField) :
  f ∈ fields ->
  isDefined (prop e (fieldName f)) = true ->
  isFiniteNumber (prop e (fieldName f)) = false ->
  (fieldName f ++ " must be a number")%string
    ∈ cErrors (foldl (cleanStep e) acc fields).
Proof.
  intros Hin Hdef Hnum. revert acc.
  induction fields as [|g fields IH]; intros acc;
    [by apply elem_of_nil in Hin|].
  cbn. apply elem_of_cons in Hin as [<-|Hin]; [|by apply IH].
  eapply elem_of_prefix; [|apply cleanFold_errors_grow].
  rewrite (cleanStep_nonnumeric e acc f Hdef Hnum).
  apply elem_of_app. right. by apply list_elem_of_singleton.
Qed.

(** C6, as amended.  A [USER_SIGNAL] whose [value] is present but is not a
    finite number has the field dropped from the cleaned event, with a
    warning, and is not rejected for that; a [PERFORMANCE_REPORTED] event
    one of whose analytics fields is present but is not a finite number is
    rejected, with the error "<field> must be a number". *)
Theorem nonnumeric_analytics (f : AnalyticsField) (e : Fields)
    (mode : ValidationMode) :
  e !! "type" = Some (JsString (eventTypeTag (fieldKind f))) ->
  estimateSize (JsObject e) <= MAX_EVENT_SIZE ->
  isDefined (prop e (fieldName f)) = true ->
  isFiniteNumber (prop e (fieldName f)) = false ->
  match f with
  | signalValue =>
      includes signalTypes (prop e "signalType") = true ->
      validateEvent (JsObject e) mode
      = Ok (accepted (delete "value" e)
              ["value was not a valid number, omitted"])
  | _ =>
      exists errors warnings,
        validateEvent (JsObject e) mode = Ok (rejected errors warnings)
        /\ (fieldName f ++ " must be a number")%string ∈ errors
  end.
Proof.
  intros Htype Hsize Hdef Hnum.
  rewrite (validateEvent_dispatch e (fieldKind f) mode Htype Hsize).
  assert (Hperf : f ∈ performanceFields ->
    exists errors warnings,
      Ok (validatePerformanceReported e) = Ok (rejected errors warnings)
      /\ (fieldName f ++ " must be a number")%string ∈ errors).
  { intros Hin. rewrite validatePerformanceReported_fold. cbn zeta.
    pose proof (cleanFold_nonnumeric e performanceFields
                  {| cErrors := []; cWarnings := []; cleanedEvent := e |}
                  f Hin Hdef Hnum) as Herr.
    eexists _, _. split; [|exact Herr].
    rewrite conclude_errors; [done|].
    intros Hnil. rewrite Hnil in Herr. by apply elem_of_nil in Herr. }
  destruct f; cbn [fieldKind dispatch];
    try (apply Hperf; unfold performanceFields; repeat (constructor; try done)).
  clear Hperf. intros Hsignal.
  change (isDefined (prop e "value") = true) in Hdef.
  change (isFiniteNumber (prop e "value") = false) in Hnum.
  unfold validateUserSignal. rewrite Hsignal, Hdef. cbn [check].
  assert (Hnone : clampOptional (prop e "value") (JsNumber.ofZ 0)
                    (JsNumber.ofZ 1) = None).
  { unfold clampOptional. destruct (prop e "value"); try done.
    cbn in Hnum. by rewrite Hnum. }
  rewrite Hnone. by rewrite conclude_nil.
Qed.

(** One instance: a [USER_SIGNAL] whose [value] is a string. *)
Lemma nonnumeric_analytics_witness :
  validateEvent
    (obj [("type", JsString "USER_SIGNAL");
          ("signalType", JsString "felt_hard");
          ("value", JsString "a lot")]) production
  = Ok (accepted
          (list_to_map [("type", JsString "USER_SIGNAL");
                        ("signalType", JsString "felt_hard")])
          ["value was not a valid number, omitted"]).
Proof.
  exact (nonnumeric_analytics signalValue
           (list_to_map [("type", JsString "USER_SIGNAL");
                         ("signalType", JsString "felt_hard");
                         ("value", JsString "a lot")])
           production eq_refl ltac:(by vm_compute) eq_refl eq_refl eq_refl).
Defined.

(** C6 as stated fails: a [PERFORMANCE_REPORTED] event whose [accuracy] is
    a string is rejected, not cleaned. *)
Lemma nonnumeric_analytics_counterexample :
  validateEvent
    (obj [("type", JsString "PERFORMANCE_REPORTED");
          ("accuracy", JsString "high")]) production
  = Ok {| valid := false; event := None;
          errors := ["accuracy must be a number"]; warnings := [] |}.
Proof. reflexivity. Qed.

Lemma validateEvent_unknown (e : Fields) (tag : string)
    (mode : ValidationMode) :
  e !! "type" = Some (JsString tag) ->
  estimateSize (JsObject e) <= MAX_EVENT_SIZE ->
  tag ∉ recognizedTags ->
  validateEvent (JsObject e) mode =
  match mode with
  | development => Throw (UnknownEventTypeError tag)
  | production => Ok (rejected ["Unknown event type: " ++ tag] [])
  end.
Proof.
  intros Htype Hsize Hnot. unfold validateEvent. rewrite Htype.
  destruct (Z.ltb_spec MAX_EVENT_SIZE (estimateSize (JsObject e))); [lia|].
  apply matchCase_None in Hnot. rewrite Hnot. by destruct mode.
Qed.

Lemma validateEvent_throw_inv (event : JsValue) (mode : ValidationMode)
    (err : JsError) :
  validateEvent event mode = Throw err ->
  mode = development /\ unknownKind event.
Proof.
  unfold validateEvent, unknownKind.
  destruct event as [| | | | | | |e]; try discriminate.
  destruct (e !! "type") as [[| | | | |tag| |]|] eqn:Htype; try discriminate.
  destruct (Z.ltb_spec MAX_EVENT_SIZE (estimateSize (JsObject e))) as [|Hsize];
    [discriminate|].
  destruct (matchCase tag) eqn:Hcase; [discriminate|].
  destruct mode; [discriminate|]. intros _. split; [done|].
  exists e, tag. repeat split; try done. by apply matchCase_None.
Qed.

(** On values whose properties are plain data, [validateEvent] throws
    exactly in development mode on an object within the size ceiling
    whose string [type] is not a recognized tag; on that input production
    mode returns [valid: false]; on every other such value, in either
    mode, it returns a result.  (The reads of [event.type] are not
    guarded: what a getter of the input throws is outside this
    statement.) *)
Theorem validateEvent_throws_iff (event : JsValue) (mode : ValidationMode) :
  (threw (validateEvent event mode)
   <-> mode = development /\ unknownKind event)
  /\ (unknownKind event ->
      exists result,
        validateEvent event production = Ok result /\ valid result = false)
  /\ (~ (mode = development /\ unknownKind event) ->
      returned (validateEvent event mode)).
Proof.
  split; [split|split].
  - intros [err Herr]. by apply validateEvent_throw_inv in Herr.
  - intros [-> (e & tag & -> & Htype & Hsize & Hnot)].
    rewrite (validateEvent_unknown e tag development Htype Hsize Hnot).
    by eexists.
  - intros (e & tag & -> & Htype & Hsize & Hnot).
    rewrite (validateEvent_unknown e tag production Htype Hsize Hnot).
    by eexists.
  - intros Hnot. destruct (validateEvent event mode) as [result|err] eqn:Hrun.
    + by exists result.
    + exfalso. apply Hnot. by apply validateEvent_throw_inv in Hrun.
Qed.

(* ================================================================== *)
(** * Properties: the emitter *)
(* ================================================================== *)

Lemma checkRateLimit_spec (now : Z) (s : Emitter) :
  checkRateLimit now s =
  if admitted now s
  then (countInWindow (windowAt now s), Ok true)
  else (windowAt now s, Ok false).
Proof.
  unfold checkRateLimit, admitted, windowAt, mbind, Eff_bind, gets, modify,
    mret, Eff_ret.
  destruct (RATE_LIMIT_WINDOW_MS <=? now - rateLimitWindowStart s);
    destruct (MAX_EVENTS_PER_SECOND <=? _); reflexivity.
Qed.

Lemma emit_unfold (config : EventEmitterConfig) (env : EmitEnv)
    (event : JsValue) (s : Emitter) :
  emit config env event s =
  if admitted (now env) s
  then process config env event (countInWindow (windowAt (now env) s))
  else (countDropped (windowAt (now env) s),
        match mode config with
        | development => _ ← getProp event "type"; Ok ()
        | production => Ok ()
        end).
Proof.
  unfold emit. unfold mbind at 1. unfold Eff_bind at 1.
  rewrite checkRateLimit_spec.
  destruct (admitted (now env) s); cbn [negb]; [reflexivity|].
  unfold mbind, Eff_bind, modify, lift, mret, Eff_ret.
  destruct (mode config); [reflexivity|].
  by destruct (getProp event "type").
Qed.

(** A call the limiter refuses arrived in an unexpired window. *)
Lemma refused_same_window (now : Z) (s : Emitter) :
  admitted now s = false -> windowAt now s = s.
Proof.
  unfold admitted, windowAt.
  destruct (RATE_LIMIT_WINDOW_MS <=? now - rateLimitWindowStart s); [|done].
  discriminate.
Qed.

Lemma deliver_spec (handlers : list EventHandler) (index : nat)
    (emittedEvent : EmittedEvent.t) (s : Emitter) :
  deliver index handlers emittedEvent s
  = (appendCalls (fanOut index handlers emittedEvent) s, Ok ()).
Proof.
  revert index s. induction handlers as [|handler rest IH]; intros index s.
  - cbn. unfold mret, Eff_ret, appendCalls. rewrite app_nil_r. by destruct s.
  - cbn [deliver fanOut]. unfold mbind at 1. unfold Eff_bind at 1.
    unfold tryCatchEff, mbind, Eff_bind, modify, lift, mret, Eff_ret.
    destruct (handler emittedEvent); rewrite IH;
      unfold appendCalls, recordCall; cbn; by rewrite <- app_assoc.
Qed.

Lemma createTimestamp_nonneg (ts : Z) : 0 <= ts -> createTimestamp ts = Ok ts.
Proof.
  intros H. unfold createTimestamp. by destruct (Z.ltb_spec ts 0); [lia|].
Qed.

(** What an admitted call does with an event that is an object, when the
    wall clock is not before the epoch. *)
Lemma process_object (config : EventEmitterConfig) (env : EmitEnv)
    (e : Fields) (s : Emitter) :
  0 <= timestampNow env ->
  process config env (JsObject e) s =
  if skips config e then (s, Ok ())
  else
    match validateEvent (JsObject e) (mode config) with
    | Throw _ => (countDropped s, Ok ())
    | Ok result =>
        if valid result
        then (countEvent
                (appendCalls
                   (fanOut 0 (handlers config)
                      (enrich config env result (JsObject e))) s), Ok ())
        else (countDropped s, Ok ())
    end.
Proof.
  intros Hclock. unfold process, skips, enrich.
  unfold mbind at 1. unfold Eff_bind at 1.
  assert (Hrest : forall s0,
    (validated ← tryCatchEff
                   (result ← lift (validateEvent (JsObject e) (mode config));
                    mret (Some result))
                   (fun error => modify countDropped;; mret None);
     match validated with
     | None => mret ()
     | Some result =>
         if negb (valid result) then modify countDropped
         else
           timestamp ← lift (createTimestamp (timestampNow env));
           deliver 0 (handlers config)
             {| EmittedEvent.event := eventOr result (JsObject e);
                EmittedEvent.timestamp := timestamp;
                EmittedEvent.sessionId := getSessionId env;
                EmittedEvent.gameId := gameId config;
                EmittedEvent.sdkVersion := sdkVersion config |};;
           modify countEvent
     end) s0
    = match validateEvent (JsObject e) (mode config) with
      | Throw _ => (countDropped s0, Ok ())
      | Ok result =>
          if valid result
          then (countEvent
                  (appendCalls
                     (fanOut 0 (handlers config)
                        {| EmittedEvent.event := eventOr result (JsObject e);
                           EmittedEvent.timestamp := timestampNow env;
                           EmittedEvent.sessionId := getSessionId env;
                           EmittedEvent.gameId := gameId config;
                           EmittedEvent.sdkVersion := sdkVersion config |}) s0),
                Ok ())
          else (countDropped s0, Ok ())
      end).
  { intros s0. unfold mbind at 1. unfold Eff_bind at 1.
    unfold tryCatchEff. unfold mbind at 1. unfold Eff_bind at 1.
    unfold lift at 1.
    destruct (validateEvent (JsObject e) (mode config)) as [result|err];
      [|reflexivity].
    cbn [mret Eff_ret]. destruct (valid result); cbn [negb]; [|reflexivity].
    rewrite (createTimestamp_nonneg _ Hclock).
    unfold mbind at 1. unfold Eff_bind at 1. unfold lift at 1.
    unfold mbind at 1. unfold Eff_bind at 1. by rewrite deliver_spec. }
  destruct (mode config).
  - cbn [getProp]. unfold mbind at 1. unfold Eff_bind at 1. unfold lift at 1.
    cbn [mret Eff_ret].
    destruct (isStringLiteral (prop e "type") "DEV_LOG"); [reflexivity|].
    apply Hrest.
  - cbn [mret Eff_ret]. apply Hrest.
Qed.

(** Past the rate limiter nothing touches the window. *)
Lemma process_window (config : EventEmitterConfig) (env : EmitEnv)
    (event : JsValue) (s : Emitter) :
  rateLimitWindowStart (process config env event s).1 = rateLimitWindowStart s
  /\ eventsInWindow (process config env event s).1 = eventsInWindow s.
Proof.
  unfold process, mbind, Eff_bind, tryCatchEff, lift, modify, mret, Eff_ret.
  destruct (mode config);
    [destruct (getProp event "type") as [type|]; [|done];
     destruct (isStringLiteral type "DEV_LOG"); [done|] |];
    (destruct (validateEvent event _) as [result|]; [|done];
     destruct (valid result); cbn [negb]; [|done];
     destruct (createTimestamp _); [|done];
     by rewrite deliver_spec).
Qed.

Lemma emit_window (config : EventEmitterConfig) (env : EmitEnv)
    (event : JsValue) (s : Emitter) :
  let s' := (emit config env event s).1 in
  let w := windowAt (now env) s in
  rateLimitWindowStart s' = rateLimitWindowStart w
  /\ eventsInWindow s'
     = if admitted (now env) s then eventsInWindow w + 1 else eventsInWindow w.
Proof.
  cbn zeta. rewrite emit_unfold. destruct (admitted (now env) s).
  - by destruct (process_window config env event
                   (countInWindow (windowAt (now env) s))) as [-> ->].
  - done.
Qed.

(** With the wall clock at or after the epoch, [emit] applied to any
    event object, in either mode, completes normally.  When the validation
    engine throws, no handler is invoked and the event is counted as
    dropped.  When the event is delivered, every registered handler is
    invoked once, in order, with the same enriched event, whatever each of
    them does. *)
Theorem emit_never_throws (config : EventEmitterConfig) (env : EmitEnv)
    (e : Fields) (s : Emitter) :
  0 <= timestampNow env ->
  let run := emit config env (JsObject e) s in
  run.2 = Ok ()
  /\ (threw (validateEvent (JsObject e) (mode config)) ->
      handlerCalls run.1 = handlerCalls s
      /\ eventCount run.1 = eventCount s
      /\ droppedCount run.1 = droppedCount s + 1)
  /\ (forall result,
      admitted (now env) s = true ->
      skips config e = false ->
      validateEvent (JsObject e) (mode config) = Ok result ->
      valid result = true ->
      handlerCalls run.1
      = (handlerCalls s
           ++ fanOut 0 (handlers config)
                (enrich config env result (JsObject e)))%list
      /\ eventCount run.1 = eventCount s + 1
      /\ droppedCount run.1 = droppedCount s).
Proof.
  intros Hclock. cbn zeta. rewrite emit_unfold.
  rewrite (process_object config env e _ Hclock).
  assert (Hw : handlerCalls (windowAt (now env) s) = handlerCalls s
               /\ eventCount (windowAt (now env) s) = eventCount s
               /\ droppedCount (windowAt (now env) s) = droppedCount s).
  { unfold windowAt. by destruct (_ <=? _). }
  destruct Hw as (Hcalls & Hcount & Hdropped).
  split; [|split].
  - destruct (admitted (now env) s).
    + destruct (skips config e); [done|].
      destruct (validateEvent _ _) as [result|]; [|done].
      by destruct (valid result).
    + by destruct (mode config).
  - intros [err Herr]. rewrite Herr.
    pose proof (validateEvent_throw_inv _ _ _ Herr) as [Hdev _].
    unfold skips. rewrite Hdev.
    destruct (admitted (now env) s); cbn; by rewrite Hcalls, Hcount, Hdropped.
  - intros result -> -> -> ->. cbn. by rewrite Hcalls, Hcount, Hdropped.
Qed.

(** One instance: the first handler throws, the second still runs, and the
    call completes normally. *)
Lemma emit_never_throws_witness :
  0 <= timestampNow (envAt 5)
  /\ (emit devConfig (envAt 5) (obj errorMade) (createEventEmitter 0)).2 = Ok ()
  /\ map outcome
       (handlerCalls
          (emit devConfig (envAt 5) (obj errorMade) (createEventEmitter 0)).1)
     = [Throw (HostError "handler failed"); Ok ()].
Proof.
  split; [by vm_compute|]. split.
  - apply (emit_never_throws devConfig (envAt 5) (list_to_map errorMade)
             (createEventEmitter 0)).
    by vm_compute.
  - reflexivity.
Defined.

(** C1 fails on the code.  [emit] is documented never to throw, and it
    wraps the validator and each handler in a [try]; but it reads
    [event.type] and calls [createTimestamp()] outside every [try].  A
    valid event emitted while [Date.now()] is negative makes [emit] throw
    in either mode, and so does [null] emitted in production mode. *)
Theorem emit_can_throw :
  (emit prodConfig (envAt (-1)) (obj errorMade) (createEventEmitter (-1))).2
  = Throw (InvalidTimestampError (-1))
  /\ (emit devConfig (envAt (-1)) (obj errorMade) (createEventEmitter (-1))).2
     = Throw (InvalidTimestampError (-1))
  /\ (emit prodConfig (envAt 5) JsNull (createEventEmitter 0)).2
     = Throw TypeError.
Proof. repeat split; reflexivity. Qed.

(** ** The rate limiter *)

(** The three things the limiter can do with a call. *)
Lemma limiter_cases (now : Z) (s : Emitter) :
  0 <= eventsInWindow s <= MAX_EVENTS_PER_SECOND ->
  (RATE_LIMIT_WINDOW_MS <= now - rateLimitWindowStart s
   /\ admitted now s = true
   /\ rateLimitWindowStart (windowAt now s) = now
   /\ eventsInWindow (windowAt now s) = 0)
  \/ (now - rateLimitWindowStart s < RATE_LIMIT_WINDOW_MS
      /\ eventsInWindow s < MAX_EVENTS_PER_SECOND
      /\ admitted now s = true /\ windowAt now s = s)
  \/ (now - rateLimitWindowStart s < RATE_LIMIT_WINDOW_MS
      /\ eventsInWindow s = MAX_EVENTS_PER_SECOND
      /\ admitted now s = false /\ windowAt now s = s).
Proof.
  intros Hinv. unfold admitted, windowAt.
  destruct (Z.leb_spec RATE_LIMIT_WINDOW_MS (now - rateLimitWindowStart s)).
  - left. by repeat split.
  - right.
    destruct (Z.leb_spec MAX_EVENTS_PER_SECOND (eventsInWindow s)).
    + right. repeat split; try done. lia.
    + left. by repeat split.
Qed.




Lemma emit_refused (config : EventEmitterConfig) (env : EmitEnv)
    (event : JsValue) (s : Emitter) :
  admitted (now env) s = false ->
  (emit config env event s).1 = countDropped s.
Proof.
  intros H. rewrite emit_unfold, H. cbn [fst].
  by rewrite (refused_same_window _ _ H).
Qed.



(** ** The budget is spent before anything else *)

Lemma emitAll_fills_window (config : EventEmitterConfig)
    (calls : list (EmitEnv * JsValue)) (s : Emitter) :
  0 <= eventsInWindow s ->
  eventsInWindow s + Z.of_nat (List.length calls) <= MAX_EVENTS_PER_SECOND ->
  Forall (fun c => now c.1 - rateLimitWindowStart s < RATE_LIMIT_WINDOW_MS)
         calls ->
  eventsInWindow (emitAll config calls s)
  = eventsInWindow s + Z.of_nat (List.length calls)
  /\ rateLimitWindowStart (emitAll config calls s) = rateLimitWindowStart s.
Proof.
  revert s. induction calls as [|[env event] rest IH]; intros s Hlow Hroom Hall.
  { cbn. lia. }
  apply Forall_cons in Hall as [Hnow Hall]. cbn [fst] in Hnow.
  cbn [emitAll List.length] in *.
  destruct (emit_window config env event s) as [Hstart Hcount].
  cbn zeta in Hstart, Hcount.
  destruct (limiter_cases (now env) s ltac:(lia))
    as [(Hreset & _) | [(_ & _ & Hadm & Hwin) | (_ & Hfull & _)]]; try lia.
  rewrite Hadm, Hwin in *.
  destruct (IH (emit config env event s).1) as [Hc Hs].
  - lia.
  - lia.
  - by rewrite Hstart.
  - rewrite Hc, Hs, Hcount, Hstart. lia.
Qed.

(** C10.  Whatever the event and whatever becomes of it, a call the limiter
    lets through takes one slot of the window's budget.  So after fifty
    calls in a fresh window, delivered or not, the next call in that
    window is refused: it is counted as dropped and nothing else
    changes. *)
Theorem emit_consumes_budget (config : EventEmitterConfig)
    (calls : list (EmitEnv * JsValue)) (env : EmitEnv) (event : JsValue)
    (s : Emitter) :
  eventsInWindow s = 0 ->
  List.length calls = 50%nat ->
  Forall (fun c => now c.1 - rateLimitWindowStart s < RATE_LIMIT_WINDOW_MS)
         calls ->
  now env - rateLimitWindowStart s < RATE_LIMIT_WINDOW_MS ->
  let full := emitAll config calls s in
  (forall env' event' s',
     admitted (now env') s' = true ->
     eventsInWindow (emit config env' event' s').1
     = eventsInWindow (windowAt (now env') s') + 1)
  /\ eventsInWindow full = MAX_EVENTS_PER_SECOND
  /\ admitted (now env) full = false
  /\ (emit config env event full).1 = countDropped full.
Proof.
  intros Hfresh Hlen Hall Hnow. cbn zeta.
  destruct (emitAll_fills_window config calls s) as [Hcount Hstart];
    [lia | rewrite Hfresh, Hlen; by cbn | done |].
  rewrite Hfresh, Hlen in Hcount. cbn in Hcount.
  assert (Hrefused : admitted (now env) (emitAll config calls s) = false).
  { unfold admitted, windowAt. rewrite Hstart.
    destruct (Z.leb_spec RATE_LIMIT_WINDOW_MS (now env - rateLimitWindowStart s));
      [lia|].
    by rewrite Hcount. }
  split; [|split; [|split]].
  - intros env' event' s' Hadm.
    destruct (emit_window config env' event' s') as [_ Hc]. cbn zeta in Hc.
    by rewrite Hc, Hadm.
  - done.
  - done.
  - by apply emit_refused.
Qed.

(** One instance: fifty [DEV_LOG] events in production mode, none of them
    delivered, make the limiter refuse a valid event that follows. *)
Lemma emit_consumes_budget_witness :
  let full :=
    emitAll prodConfig (replicate 50 (envAt 10, obj devLog))
      (createEventEmitter 0) in
  eventCount full = 0
  /\ droppedCount full = 0
  /\ eventsInWindow full = MAX_EVENTS_PER_SECOND
  /\ admitted 20 full = false
  /\ (emit prodConfig (envAt 20) (obj errorMade) full).1 = countDropped full.
Proof.
  cbn zeta. split; [by vm_compute|]. split; [by vm_compute|].
  apply (emit_consumes_budget prodConfig (replicate 50 (envAt 10, obj devLog))
           (envAt 20) (obj errorMade) (createEventEmitter 0)).
  - reflexivity.
  - reflexivity.
  - apply Forall_replicate. by vm_compute.
  - by vm_compute.
Defined.

(* ================================================================== *)
(** * Properties: the session driver *)
(* ================================================================== *)

Section SessionProperties.
Import Session.

Variable behaviour : ListenerBehaviour.

Lemma createContextSnapshot_state (s : Driver) :
  (createContextSnapshot s).1 = s.
Proof.
  unfold createContextSnapshot, mbind, Eff_bind, lift, mret, Eff_ret.
  destruct (currentState s); [done| |].
  - destruct (sessionId s), (startTime s); try done.
    by destruct (createTimestamp _).
  - destruct (sessionId s), (sessionDurationMs s); try done.
    by destruct (createDuration _).
Qed.

Lemma createContextSnapshot_shape (s : Driver) (ctx : GameContext) :
  (createContextSnapshot s).2 = Ok ctx -> state ctx = currentState s.
Proof.
  unfold createContextSnapshot, mbind, Eff_bind, lift, mret, Eff_ret.
  destruct (currentState s).
  - by intros [= <-].
  - destruct (sessionId s), (startTime s); try done.
    destruct (createTimestamp _); [|done]. by intros [= <-].
  - destruct (sessionId s), (sessionDurationMs s); try done.
    destruct (createDuration _); [|done]. by intros [= <-].
Qed.

(** ** The guards of the three transitions *)

Lemma startSession_throws (fuel : nat) (sid : string) (nowMs : Z)
    (s : Driver) :
  currentState s <> INITIAL ->
  perform behaviour (S fuel) (StartSession sid nowMs) s
  = Some (s, Throw (SdkError
                      ("[SDK] Cannot start session: already in state "
                         ++ stateName (currentState s)))).
Proof.
  intros H. cbn [perform].
  unfold startSession, mbind, Run_bind, once, gets, lift.
  by rewrite bool_decide_eq_true_2.
Qed.

Lemma endSession_throws (fuel : nat) (reason : string) (nowMs : Z)
    (s : Driver) :
  currentState s <> IN_SESSION ->
  perform behaviour (S fuel) (EndSession reason nowMs) s
  = Some (s, Throw (SdkError
                      ("[SDK] Cannot end session: not in session (state: "
                         ++ stateName (currentState s) ++ ")"))).
Proof.
  intros H. cbn [perform].
  unfold endSession, mbind, Run_bind, once, gets, lift.
  by rewrite bool_decide_eq_true_2.
Qed.

Lemma abortSession_throws (fuel : nat) (reason : string) (nowMs : Z)
    (s : Driver) :
  currentState s <> IN_SESSION ->
  perform behaviour (S fuel) (AbortSession reason nowMs) s
  = Some (s, Throw (SdkError
                      ("[SDK] Cannot abort session: not in session (state: "
                         ++ stateName (currentState s) ++ ")"))).
Proof.
  intros H. cbn [perform].
  unfold abortSession, mbind, Run_bind, once, gets, lift.
  by rewrite bool_decide_eq_true_2.
Qed.

Lemma perform_getContext (fuel : nat) (s : Driver) :
  perform behaviour (S fuel) GetContext s
  = Some (s, match (getContext s).2 with
             | Ok context => Ok (Snapshot context)
             | Throw err => Throw err
             end).
Proof.
  cbn [perform]. unfold mbind, Run_bind, once, getContext.
  pose proof (createContextSnapshot_state s) as Hstate.
  destruct (createContextSnapshot s) as [s0 [ctx|err]]; cbn in Hstate;
    by subst s0.
Qed.

(** ** Listeners that do not call the driver *)

Lemma notes_cons (ctx : GameContext) (l : Listener) (ls : list Listener)
    (s : Driver) :
  notes ctx (l :: ls) s = notes ctx ls (note l ctx s).
Proof. done. Qed.

Lemma notes_fields (ctx : GameContext) (ls : list Listener) (s : Driver) :
  currentState (notes ctx ls s) = currentState s
  /\ sessionId (notes ctx ls s) = sessionId s
  /\ startTime (notes ctx ls s) = startTime s
  /\ sessionDurationMs (notes ctx ls s) = sessionDurationMs s
  /\ listeners (notes ctx ls s) = listeners s
  /\ notifications (notes ctx ls s)
     = (notifications s
          ++ map (fun l => {| recipient := l; handed := ctx |}) ls)%list.
Proof.
  revert s. induction ls as [|l ls IH]; intros s.
  - cbn. by rewrite app_nil_r.
  - rewrite notes_cons. destruct (IH (note l ctx s)) as (-> & -> & -> & -> & -> & ->).
    cbn [note currentState sessionId startTime sessionDurationMs listeners
           notifications map].
    by rewrite <- app_assoc.
Qed.

Section Quiet.

Hypothesis Hquiet : quiet behaviour.
Variable call : Call -> Run Answer.

Lemma runScript_quiet (seen : list Notification) (l : Listener)
    (ctx : GameContext) (s : Driver) :
  exists outcome,
    runScript call (behaviour seen l ctx) s = Some (s, outcome).
Proof.
  destruct (Hquiet seen l ctx) as [-> | [err ->]]; cbn; by eexists.
Qed.

Lemma visit_quiet (steps index : nat) (ctx : GameContext) (s : Driver) :
  (List.length (listeners s) <= index + steps)%nat ->
  visit behaviour call steps index ctx s
  = Some (notes ctx (omap id (drop index (listeners s))) s, Ok ()).
Proof.
  revert index s. induction steps as [|steps IH]; intros index s Hlen.
  - cbn [visit]. rewrite lookup_ge_None_2 by lia.
    by rewrite drop_ge by lia.
  - cbn [visit].
    destruct (listeners s !! index) as [entry|] eqn:Hentry.
    + rewrite (drop_S _ _ _ Hentry). destruct entry as [l|].
      * unfold mbind at 1. unfold Run_bind at 1. unfold tryCatchRun.
        unfold mbind at 1. unfold Run_bind at 1. unfold once, modify.
        destruct (runScript_quiet (notifications s) l ctx (note l ctx s))
          as [outcome ->].
        destruct outcome; unfold mret, Run_ret;
          rewrite IH by (cbn [note listeners]; lia); done.
      * rewrite IH by lia. done.
    + apply lookup_ge_None in Hentry. by rewrite drop_ge by lia.
Qed.

Lemma notifyListeners_quiet (steps : nat) (s : Driver) :
  (List.length (listeners s) <= steps)%nat ->
  notifyListeners behaviour call steps s
  = match createContextSnapshot s with
    | (_, Ok ctx) => Some (notes ctx (members s) s, Ok ())
    | (_, Throw err) => Some (s, Throw err)
    end.
Proof.
  intros Hlen. unfold notifyListeners, mbind, Run_bind, once.
  pose proof (createContextSnapshot_state s) as Hsame.
  destruct (createContextSnapshot s) as [s0 [ctx|err]]; cbn in Hsame; subst s0;
    [|done].
  by rewrite visit_quiet by lia.
Qed.

Lemma start_quiet (fuel : nat) (sid : string) (nowMs : Z) (s : Driver) :
  currentState s = INITIAL ->
  (List.length (listeners s) <= fuel)%nat ->
  startSession behaviour call fuel sid nowMs s
  = if nowMs <? 0
    then Some (beginSession sid nowMs s, Throw (InvalidTimestampError nowMs))
    else Some (notes (InSessionContext sid nowMs) (members s)
                 (beginSession sid nowMs s), Ok ()).
Proof.
  intros Hinit Hlen. unfold startSession, mbind, Run_bind, once, gets, modify.
  rewrite Hinit. rewrite bool_decide_eq_false_2 by (intros H; by apply H).
  rewrite notifyListeners_quiet by done.
  unfold createContextSnapshot, mbind, Eff_bind, lift, mret, Eff_ret.
  cbn [beginSession currentState sessionId startTime].
  unfold createTimestamp. by destruct (nowMs <? 0).
Qed.

Lemma finish_quiet (fuel : nat) (sid : string) (started nowMs : Z)
    (s : Driver) :
  sessionId s = Some sid ->
  startTime s = Some started ->
  (List.length (listeners s) <= fuel)%nat ->
  let duration := JsNumber.nearestDouble (nowMs - started) in
  notifyListeners behaviour call fuel (finishSession nowMs s)
  = if duration <? 0
    then Some (finishSession nowMs s, Throw (InvalidDurationError duration))
    else Some (notes (SessionEndedContext sid duration) (members s)
                 (finishSession nowMs s), Ok ()).
Proof.
  intros Hsid Hstart Hlen. cbn zeta.
  rewrite notifyListeners_quiet by done.
  unfold createContextSnapshot, mbind, Eff_bind, lift, mret, Eff_ret.
  cbn [finishSession currentState sessionId sessionDurationMs].
  rewrite Hsid, Hstart. unfold default, from_option, id.
  unfold createDuration. by destruct (_ <? 0).
Qed.

End Quiet.

Lemma endSession_spec (call : Call -> Run Answer) (fuel : nat)
    (reason : string) (nowMs : Z) (s : Driver) :
  currentState s = IN_SESSION ->
  endSession behaviour call fuel reason nowMs s
  = notifyListeners behaviour call fuel (finishSession nowMs s).
Proof.
  intros Hin. unfold endSession, mbind, Run_bind, once, gets, modify.
  rewrite Hin. by rewrite bool_decide_eq_false_2 by (intros H; by apply H).
Qed.

Lemma abortSession_spec (call : Call -> Run Answer) (fuel : nat)
    (reason : string) (nowMs : Z) (s : Driver) :
  currentState s = IN_SESSION ->
  abortSession behaviour call fuel reason nowMs s
  = notifyListeners behaviour call fuel (finishSession nowMs s).
Proof.
  intros Hin. unfold abortSession, mbind, Run_bind, once, gets, modify.
  rewrite Hin. by rewrite bool_decide_eq_false_2 by (intros H; by apply H).
Qed.

(** ** What the listeners were handed *)

Lemma observed_handed (l : Listener) (ctx : GameContext)
    (ls : list Listener) :
  NoDup ls ->
  map (fun n => state (handed n))
    (filter (fun n => recipient n = l)
       (map (fun x => {| recipient := x; handed := ctx |}) ls))
  = if bool_decide (l ∈ ls) then [state ctx] else [].
Proof.
  induction ls as [|x ls IH]; intros Hnd; [done|].
  apply NoDup_cons in Hnd as [Hx Hnd]. cbn [map].
  destruct (decide (x = l)) as [->|Hne].
  - rewrite filter_cons_True by done. cbn [map].
    rewrite IH by done. rewrite bool_decide_eq_false_2 by done.
    rewrite bool_decide_eq_true_2 by (apply elem_of_cons; by left). done.
  - rewrite filter_cons_False by done. rewrite IH by done.
    rewrite (bool_decide_ext (l ∈ x :: ls) (l ∈ ls)); [done|].
    rewrite elem_of_cons.
    split; [intros [Heq|Hin]; [by subst | done] | intros Hin; by right].
Qed.

Lemma observed_notes (l : Listener) (ctx : GameContext)
    (ls : list Listener) (s : Driver) :
  NoDup ls ->
  observed l (notes ctx ls s)
  = (observed l s ++ if bool_decide (l ∈ ls) then [state ctx] else [])%list.
Proof.
  intros Hnd. unfold observed.
  destruct (notes_fields ctx ls s) as (_ & _ & _ & _ & _ & ->).
  by rewrite filter_app, map_app, observed_handed.
Qed.

Lemma members_notes (ctx : GameContext) (ls : list Listener) (s : Driver) :
  members (notes ctx ls s) = members s.
Proof.
  unfold members. by destruct (notes_fields ctx ls s) as (_ & _ & _ & _ & -> & _).
Qed.

Lemma members_subscribe (l : Listener) (s : Driver) :
  members (subscribe l s).1
  = if bool_decide (l ∈ members s) then members s
    else (members s ++ [l])%list.
Proof.
  unfold subscribe, modify, members. cbn [fst].
  assert (Some l ∈ listeners s <-> l ∈ omap id (listeners s)) as Hiff.
  { rewrite list_elem_of_omap. split.
    - intros H. by exists (Some l).
    - intros ([x|] & Hx & Hid); cbn in Hid; [|done]. by injection Hid as ->. }
  destruct (bool_decide_reflect (Some l ∈ listeners s)) as [Hin|Hout].
  - by rewrite bool_decide_eq_true_2 by by apply Hiff.
  - rewrite bool_decide_eq_false_2 by (intros H; by apply Hout, Hiff).
    cbn [setListeners listeners]. by rewrite omap_app.
Qed.

Lemma members_unsubscribe (l : Listener) (s : Driver) :
  members (unsubscribe l s).1 = filter (fun x => x ≠ l) (members s).
Proof.
  unfold unsubscribe, modify, members. cbn [fst setListeners listeners].
  induction (listeners s) as [|[x|] entries IH]; [done| |].
  - cbn [map]. destruct (decide (x = l)) as [->|Hne].
    + rewrite bool_decide_eq_true_2 by done.
      change (omap id (None :: ?t)) with (omap id t).
      change (omap id (Some l :: ?t)) with (l :: omap id t).
      rewrite filter_cons_False by (intros H; by apply H). apply IH.
    + rewrite bool_decide_eq_false_2 by congruence.
      change (omap id (Some x :: ?t)) with (x :: omap id t).
      rewrite filter_cons_True by done. by rewrite <- IH.
  - cbn [map]. rewrite bool_decide_eq_false_2 by done.
    change (omap id (None :: ?t)) with (omap id t). apply IH.
Qed.

(** ** Drivers whose listeners do not call them *)

Section Orderly.

Hypothesis Hquiet : quiet behaviour.

Lemma start_orderly (fuel : nat) (sid : string) (nowMs : Z) (s : Driver) :
  currentState s = INITIAL -> orderly s ->
  (List.length (listeners s) <= fuel)%nat ->
  exists s',
    perform behaviour (S fuel) (StartSession sid nowMs) s
    = Some (s', if nowMs <? 0 then Throw (InvalidTimestampError nowMs)
                else Ok Nothing)
    /\ orderly s'
    /\ listeners s' = listeners s
    /\ currentState s' = IN_SESSION
    /\ sessionId s' = Some sid
    /\ startTime s' = Some nowMs
    /\ forall l, informed l s -> informed l s'.
Proof.
  intros Hinit (Hnd & Hdata & Hdur & Hobs) Hlen. cbn [perform].
  unfold mbind at 1. unfold Run_bind at 1.
  rewrite (start_quiet Hquiet _ fuel sid nowMs s Hinit Hlen).
  assert (forall l, observed l s = []) as Hnone.
  { intros l. specialize (Hobs l). unfold announced in Hobs.
    rewrite Hinit in Hobs. by apply sublist_nil_r in Hobs. }
  destruct (Z.ltb_spec nowMs 0) as [Hneg|Hpos].
  - exists (beginSession sid nowMs s). split; [done|].
    assert (announced (beginSession sid nowMs s) = []) as Hann.
    { unfold announced, announcedStart. cbn [beginSession currentState startTime].
      by destruct (Z.ltb_spec nowMs 0); [|lia]. }
    split; [|repeat (split; [done|])].
    + split; [done|]. split; [by eauto|]. split; [done|].
      intros l. rewrite Hann. change (observed l (beginSession sid nowMs s))
        with (observed l s). by rewrite Hnone.
    + intros l [Hin _]. split; [done|]. rewrite Hann. apply Hnone.
  - set (ctx := InSessionContext sid nowMs).
    set (s0 := beginSession sid nowMs s).
    exists (notes ctx (members s) s0).
    destruct (notes_fields ctx (members s) s0) as (H1 & H2 & H3 & H4 & H5 & H6).
    assert (announced (notes ctx (members s) s0) = [IN_SESSION]) as Hann.
    { unfold announced, announcedStart. rewrite H1, H3. cbn.
      by destruct (Z.ltb_spec nowMs 0); [lia|]. }
    assert (forall l, observed l (notes ctx (members s) s0)
                      = if bool_decide (l ∈ members s) then [IN_SESSION]
                        else []) as Hnow.
    { intros l. rewrite observed_notes by done.
      change (observed l s0) with (observed l s). by rewrite Hnone. }
    split; [done|]. split; [|repeat (split; [done|])].
    + split; [by rewrite members_notes|].
      split; [rewrite H2, H3; by eauto|]. split; [by rewrite H1|].
      intros l. rewrite Hann, Hnow. destruct (bool_decide _); [done|].
      apply sublist_nil_l.
    + intros l [Hin _]. split; [by rewrite members_notes|].
      rewrite Hann, Hnow. by rewrite bool_decide_eq_true_2.
Qed.

Lemma finish_orderly (fuel : nat) (nowMs : Z) (s : Driver) :
  currentState s = IN_SESSION -> orderly s ->
  (List.length (listeners s) <= fuel)%nat ->
  exists s' outcome,
    notifyListeners behaviour (perform behaviour fuel) fuel
      (finishSession nowMs s) = Some (s', outcome)
    /\ orderly s'
    /\ listeners s' = listeners s
    /\ currentState s' = ENDED
    /\ sessionId s' = sessionId s
    /\ startTime s' = startTime s
    /\ forall l, informed l s -> informed l s'.
Proof.
  intros Hin (Hnd & Hdata & Hdur & Hobs) Hlen.
  destruct Hdata as [[sid Hsid] [started Hstart]]; [by rewrite Hin|].
  rewrite (finish_quiet Hquiet _ fuel sid started nowMs s Hsid Hstart Hlen).
  set (duration := JsNumber.nearestDouble (nowMs - started)).
  set (s0 := finishSession nowMs s).
  assert (announced s = announcedStart s) as Hbefore
    by (unfold announced; by rewrite Hin).
  assert (announcedStart s0 = announcedStart s) as Hstarted by done.
  assert (sessionDurationMs s0 = Some duration) as Hd.
  { unfold s0, finishSession. cbn [sessionDurationMs]. by rewrite Hstart. }
  assert (sessionId s0 = Some sid) as Hsid0 by done.
  assert (startTime s0 = Some started) as Hstart0 by done.
  destruct (Z.ltb_spec duration 0) as [Hneg|Hpos].
  - exists s0, (Throw (InvalidDurationError duration)). split; [done|].
    assert (announced s0 = announced s) as Hann.
    { unfold announced at 1. cbn [s0 finishSession currentState].
      rewrite Hstarted, Hbefore. unfold announcedEnd. rewrite Hd.
      destruct (Z.ltb_spec duration 0); [|lia]. by rewrite app_nil_r. }
    split; [|repeat (split; [done|])].
    + split; [done|]. split; [by rewrite Hsid0, Hstart0; eauto|].
      split; [by rewrite Hd; eauto|].
      intros l. rewrite Hann. apply Hobs.
    + intros l [Hl Hsame]. split; [done|]. by rewrite Hann.
  - set (ctx := SessionEndedContext sid duration).
    exists (notes ctx (members s) s0), (Ok ()).
    destruct (notes_fields ctx (members s) s0) as (H1 & H2 & H3 & H4 & H5 & H6).
    assert (announced (notes ctx (members s) s0)
            = (announced s ++ [ENDED])%list) as Hann.
    { unfold announced at 1. rewrite H1. cbn [s0 finishSession currentState].
      unfold announcedStart, announcedEnd. rewrite H3, H4, Hd.
      destruct (Z.ltb_spec duration 0); [lia|].
      by rewrite Hbefore. }
    assert (forall l, observed l (notes ctx (members s) s0)
                      = (observed l s
                           ++ if bool_decide (l ∈ members s) then [ENDED]
                              else [])%list) as Hnow.
    { intros l. by rewrite observed_notes by done. }
    split; [done|]. split; [|repeat (split; [done|])].
    + split; [by rewrite members_notes|].
      split; [rewrite H2, H3, Hsid0, Hstart0; by eauto|].
      split; [rewrite H4, Hd; by eauto|].
      intros l. rewrite Hann, Hnow. apply sublist_app; [apply Hobs|].
      destruct (bool_decide _); [done | apply sublist_nil_l].
    + intros l [Hl Hsame]. split; [by rewrite members_notes|].
      rewrite Hann, Hnow, Hsame. by rewrite bool_decide_eq_true_2.
Qed.

Lemma perform_orderly (fuel : nat) (c : Call) (s : Driver) :
  orderly s ->
  (List.length (listeners s) <= fuel)%nat ->
  exists s' answer,
    perform behaviour (S fuel) c s = Some (s', answer)
    /\ orderly s'
    /\ (List.length (listeners s') <= S (List.length (listeners s)))%nat
    /\ (validStart c -> startedValid s -> startedValid s')
    /\ forall l, c <> Unsubscribe l -> informed l s -> informed l s'.
Proof.
  intros Hord Hlen.
  assert (Hsame : forall answer,
            perform behaviour (S fuel) c s = Some (s, answer) ->
            exists s' answer',
              perform behaviour (S fuel) c s = Some (s', answer')
              /\ orderly s'
              /\ (List.length (listeners s') <= S (List.length (listeners s)))%nat
              /\ (validStart c -> startedValid s -> startedValid s')
              /\ forall l, c <> Unsubscribe l -> informed l s -> informed l s').
  { intros answer Hrun. exists s, answer.
    split; [done|]. split; [done|]. split; [lia|]. by split. }
  assert (Hfinish : forall nowMs (m : Run unit),
            currentState s = IN_SESSION ->
            m s = notifyListeners behaviour (perform behaviour fuel) fuel
                    (finishSession nowMs s) ->
            exists s' answer,
              (m ≫= λ _ : (), mret Nothing) s = Some (s', answer)
              /\ orderly s'
              /\ (List.length (listeners s') <= S (List.length (listeners s)))%nat
              /\ (startedValid s -> startedValid s')
              /\ forall l, informed l s -> informed l s').
  { intros nowMs m Hin Hm.
    destruct (finish_orderly fuel nowMs s Hin Hord Hlen)
      as (s' & outcome & Hrun & Hord' & Hls & _ & _ & Hstart & Hinf).
    unfold mbind, Run_bind. rewrite Hm, Hrun.
    exists s', (match outcome with Ok _ => Ok Nothing | Throw err => Throw err end).
    split; [by destruct outcome|]. split; [done|].
    split; [rewrite Hls; lia|]. split; [|done].
    unfold startedValid. by rewrite Hstart. }
  destruct c as [sid nowMs|reason nowMs|reason nowMs|l|l| |].
  - destruct (decide (currentState s = INITIAL)) as [Hinit|Hother].
    + destruct (start_orderly fuel sid nowMs s Hinit Hord Hlen)
        as (s' & Hrun & Hord' & Hls & _ & _ & Hstart & Hinf).
      exists s'. eexists. split; [exact Hrun|]. split; [done|].
      split; [rewrite Hls; lia|]. split; [|intros l _; apply Hinf].
      intros Hvalid _ started. rewrite Hstart. by intros [= <-].
    + eapply Hsame. by apply startSession_throws.
  - destruct (decide (currentState s = IN_SESSION)) as [Hin|Hother].
    + cbn [perform].
      destruct (Hfinish nowMs
                  (endSession behaviour (perform behaviour fuel) fuel reason
                     nowMs) Hin)
        as (s' & answer & H1 & H2 & H3 & H4 & H5);
        [by apply endSession_spec|].
      exists s', answer. split; [done|]. split; [done|]. split; [done|].
      split; [by intros _ | intros l _; apply H5].
    + eapply Hsame. by apply endSession_throws.
  - destruct (decide (currentState s = IN_SESSION)) as [Hin|Hother].
    + cbn [perform].
      destruct (Hfinish nowMs
                  (abortSession behaviour (perform behaviour fuel) fuel reason
                     nowMs) Hin)
        as (s' & answer & H1 & H2 & H3 & H4 & H5);
        [by apply abortSession_spec|].
      exists s', answer. split; [done|]. split; [done|]. split; [done|].
      split; [by intros _ | intros l _; apply H5].
    + eapply Hsame. by apply abortSession_throws.
  - exists (subscribe l s).1, (Ok Nothing). split; [done|].
    destruct Hord as (Hnd & Hdata & Hdur & Hobs).
    assert (currentState (subscribe l s).1 = currentState s
            /\ sessionId (subscribe l s).1 = sessionId s
            /\ startTime (subscribe l s).1 = startTime s
            /\ sessionDurationMs (subscribe l s).1 = sessionDurationMs s
            /\ notifications (subscribe l s).1 = notifications s)
      as (H1 & H2 & H3 & H4 & H5).
    { unfold subscribe, modify. cbn [fst]. by destruct (bool_decide _). }
    assert (announced (subscribe l s).1 = announced s) as Hann.
    { unfold announced, announcedStart, announcedEnd. by rewrite H1, H3, H4. }
    assert (forall x, observed x (subscribe l s).1 = observed x s) as Hobs'.
    { intros x. unfold observed. by rewrite H5. }
    split; [|split; [|split]].
    + split; [|split; [|split]].
      * rewrite members_subscribe.
        destruct (bool_decide_reflect (l ∈ members s)) as [|Hfresh]; [done|].
        apply NoDup_app. split; [done|]. split; [|apply NoDup_singleton].
        intros x Hx Hxl. by apply list_elem_of_singleton in Hxl as ->.
      * by rewrite H1, H2, H3.
      * by rewrite H1, H4.
      * intros x. rewrite Hann, Hobs'. apply Hobs.
    + unfold subscribe, modify. cbn [fst].
      destruct (bool_decide _); [lia|].
      cbn [setListeners listeners]. rewrite length_app. cbn. lia.
    + unfold startedValid. by rewrite H3.
    + intros x _ [Hx Hsame']. split.
      * rewrite members_subscribe. destruct (bool_decide _); [done|].
        apply elem_of_app. by left.
      * by rewrite Hann, Hobs'.
  - exists (unsubscribe l s).1, (Ok Nothing). split; [done|].
    destruct Hord as (Hnd & Hdata & Hdur & Hobs).
    split; [|split; [|split]].
    + split; [|done]. rewrite members_unsubscribe. by apply NoDup_filter.
    + unfold unsubscribe, modify. cbn [fst setListeners listeners].
      rewrite length_map. lia.
    + done.
    + intros x Hne [Hx Hsame']. split; [|done].
      rewrite members_unsubscribe. apply list_elem_of_filter.
      split; [|done]. intros ->. by apply Hne.
  - eapply Hsame. apply perform_getContext.
  - by eapply Hsame.
Qed.


End Orderly.

Lemma orderly_initial : orderly createSessionDriver.
Proof.
  split; [apply NoDup_nil_2|]. split; [done|]. split; [done|].
  intros l. apply sublist_nil_l.
Qed.



End SessionProperties.

Lemma quiet_silent : quiet silent.
Proof. intros seen listener ctx. by left. Qed.



(** The state is changed before the snapshot is built: when the clock
    reading at [startSession] is not a valid timestamp the call throws
    with the driver already in session, and the listeners later see
    [ENDED] without having seen [IN_SESSION]. *)
Remark start_with_invalid_clock :
  let driver :=
    Session.run silent 5
      [Session.Subscribe 0%nat; Session.StartSession "s1" (-1);
       Session.EndSession "completed" 5]
      Session.createSessionDriver in
  Session.currentState <$> driver = Some ENDED
  /\ Session.observed 0%nat <$> driver = Some [ENDED].
Proof. split; reflexivity. Qed.

(** The snapshot is built once, before the loop over the listeners.  When
    a listener ends the session from inside its callback, the listeners
    after it are handed [ENDED] by the inner call and then the stale
    [IN_SESSION] by the outer one, and [startSession] returns with the
    session over. *)
Remark listener_ends_session :
  let driver :=
    Session.run impatient 5
      [Session.Subscribe 0%nat; Session.Subscribe 1%nat;
       Session.StartSession "s1" 100]
      Session.createSessionDriver in
  Session.observed 0%nat <$> driver = Some [IN_SESSION; ENDED]
  /\ Session.observed 1%nat <$> driver = Some [ENDED; IN_SESSION]
  /\ Session.currentState <$> driver = Some ENDED.
Proof. repeat split; reflexivity. Qed.

(* ================================================================== *)
(** * Properties: the lifecycle gate *)
(* ================================================================== *)

Section GateProperties.
Import EventGate.

Lemma isStringLiteral_true (v : JsValue) (literal : string) :
  isStringLiteral v literal = true <-> v = JsString literal.
Proof.
  destruct v; cbn; try (split; intros; discriminate).
  rewrite bool_decide_eq_true. split; [by intros -> | by intros [= ->]].
Qed.





End GateProperties.


(* ================================================================== *)
(** * Properties: the capability guard *)
(* ================================================================== *)

Section GuardProperties.
Import CapabilityGuard.
Context {Api : Type}.

(** When the permission check returns a result, [getCapability] throws
    [CapabilityNotDeclaredError] exactly when the capability is not in
    the declared set.  For a declared capability that the check denies,
    or whose real factory throws, it returns the API built by the no-op
    factory, marked unavailable, with a reason.  For a declared
    capability it throws only if the no-op factory throws. *)
Lemma capability_fallback (config : CapabilityGuardConfig Api)
    (capability : Capability) (p : PermissionResult) :
  permission config capability = Ok (Some p) ->
  ((exists c, getCapability config capability
              = Throw (CapabilityNotDeclaredError c))
   <-> capability ∉ declaredCapabilities config)
  /\ (forall noOp,
      capability ∈ declaredCapabilities config ->
      granted p = false \/ threw (apiFactory config capability) ->
      noOpApiFactory config capability = Ok noOp ->
      getCapability config capability
      = Ok {| isAvailable := false; api := noOp;
              unavailableReason :=
                Some (default "internal_error" (reason p)) |})
  /\ (capability ∈ declaredCapabilities config ->
      threw (getCapability config capability) ->
      threw (noOpApiFactory config capability)).
Proof.
  unfold getCapability, permission. intros Hp.
  destruct (decide (capability ∈ declaredCapabilities config)) as [Hin|Hout].
  - rewrite bool_decide_eq_false_2
      by (intros Hnot; apply Hnot; by apply elem_of_list_to_set).
    rewrite Hp. cbn [mbind Result_bind readResult].
    split; [split|split].
    + intros [c Hthrow]. exfalso. revert Hthrow.
      unfold mbind, Result_bind, tryCatch, mret, Result_ret.
      destruct (granted p); [destruct (apiFactory config capability)|];
        try discriminate;
        by destruct (noOpApiFactory config capability).
    + done.
    + intros noOp _ Hfallback HnoOp.
      unfold mbind, Result_bind, tryCatch, mret, Result_ret.
      rewrite HnoOp. destruct Hfallback as [-> | [err ->]]; [done|].
      by destruct (granted p).
    + intros _ [err Hthrow]. revert Hthrow.
      unfold mbind, Result_bind, tryCatch, mret, Result_ret.
      destruct (noOpApiFactory config capability) as [noOp|err']; [|by eexists].
      destruct (granted p); [destruct (apiFactory config capability)|];
        discriminate.
  - rewrite bool_decide_eq_true_2
      by (intros Hin; apply Hout; by apply elem_of_list_to_set in Hin).
    split; [split|split];
      first [done | by eexists | intros; by destruct Hout].
Qed.

(** What the permission check throws, [getCapability] throws, for a
    declared capability; and it throws a [TypeError] when the check
    returns [null] or [undefined]. *)
Lemma checker_failure_propagates (config : CapabilityGuardConfig Api)
    (capability : Capability) :
  capability ∈ declaredCapabilities config ->
  (forall err,
     permission config capability = Throw err ->
     getCapability config capability = Throw err)
  /\ (permission config capability = Ok None ->
      getCapability config capability = Throw TypeError).
Proof.
  intros Hin. unfold getCapability, permission.
  rewrite bool_decide_eq_false_2
    by (intros Hnot; apply Hnot; by apply elem_of_list_to_set).
  split; [intros err Hp | intros Hp]; by rewrite Hp.
Qed.

End GuardProperties.

(** C9 fails on the code.  The two factories are called inside a [try]; the
    permission check is not.  For a declared capability whose check
    throws, or returns [null], [getCapability] throws although the no-op
    factory does not. *)
Theorem checker_failure_escapes :
  audio ∈ CapabilityGuard.declaredCapabilities (checkedBy failingCheck)
  /\ CapabilityGuard.noOpApiFactory (checkedBy failingCheck) audio
     = Ok "no-op audio"
  /\ CapabilityGuard.getCapability (checkedBy failingCheck) audio
     = Throw (HostError "permission service unavailable")
  /\ CapabilityGuard.getCapability (checkedBy (fun _ => Ok None)) audio
     = Throw TypeError.
Proof.
  split; [apply elem_of_cons; by left|]. repeat split; reflexivity.
Qed.

(* ================================================================== *)
(** * The state-save ceiling *)
(* ================================================================== *)

(** C7 fails on the code.  The blob of [largeSave] takes 70002 bytes, far
    below the 1 MB ceiling of the kind, and the validator of the kind
    accepts the event; [validateEvent] rejects it all the same, because
    the 64 KB ceiling on the whole event is checked first. *)
Theorem save_state_under_ceiling_rejected :
  estimateSize largeBlob = 70002
  /\ estimateSize largeBlob <= MAX_STATE_BLOB_SIZE
  /\ valid (validateSaveGameState (list_to_map largeSave)) = true
  /\ validateEvent (obj largeSave) production
     = Ok {| valid := false; event := None;
             errors := ["Event exceeds size limit (70059 > 65536)"];
             warnings := [] |}.
Proof.
  split; [by vm_compute|]. split; [by vm_compute|].
  split; by vm_compute.
Qed.

(** Through [validateEvent], the ceiling on the state blob is never what
    rejects an event: a blob over the event ceiling, which is far below
    its own, has the whole event rejected before the kind is looked at. *)
Proposition blob_ceiling_unreachable (e : Fields) (tag : string)
    (stateBlob : JsValue) (mode : ValidationMode) :
  e !! "type" = Some (JsString tag) ->
  e !! "stateBlob" = Some stateBlob ->
  MAX_EVENT_SIZE < estimateSize stateBlob ->
  validateEvent (JsObject e) mode
  = Ok (rejected
          ["Event exceeds size limit (" ++ pretty (estimateSize (JsObject e))
             ++ " > " ++ pretty MAX_EVENT_SIZE ++ ")"] []).
Proof.
  intros Htype Hblob Hlarge. unfold validateEvent. rewrite Htype.
  pose proof (estimateSize_member e "stateBlob" stateBlob Hblob Hlarge).
  by destruct (Z.ltb_spec MAX_EVENT_SIZE (estimateSize (JsObject e))); [|lia].
Qed.

(* ================================================================== *)
(** * The repository's tests, replayed on the model *)
(* ================================================================== *)

Example validates_session_started :
  exists result,
    validateEvent (obj (sessionStartedEvent "session-123")) development
    = Ok result
    /\ valid result = true /\ errors result = [].
Proof. eexists. split; [vm_compute; reflexivity|]. by split. Qed.

Example validates_level_completed :
  exists result,
    validateEvent (obj levelCompletedEvent) development = Ok result
    /\ valid result = true /\ errors result = [].
Proof. eexists. split; [vm_compute; reflexivity|]. by split. Qed.

Example rejects_null :
  validateEvent JsNull development
  = Ok (rejected ["Event must be an object"] []).
Proof. reflexivity. Qed.

Example rejects_event_without_type :
  validateEvent (obj [("sessionId", JsString "session-123")]) development
  = Ok (rejected ["Event must have a string type field"] []).
Proof. reflexivity. Qed.

Example rejects_empty_session_id :
  validateEvent (obj (sessionStartedEvent "")) development
  = Ok (rejected ["sessionId must be a non-empty string"] []).
Proof. by vm_compute. Qed.

Example unknown_type_throws_in_development :
  validateEvent (obj unknownEvent) development
  = Throw (UnknownEventTypeError "UNKNOWN_EVENT_TYPE").
Proof. by vm_compute. Qed.

Example unknown_type_is_invalid_in_production :
  validateEvent (obj unknownEvent) production
  = Ok (rejected ["Unknown event type: UNKNOWN_EVENT_TYPE"] []).
Proof. by vm_compute. Qed.

Example gate_drops_session_started_in_initial :
  EventGate.createGatedEmit gateOptions InitialContext
    (list_to_map (sessionStartedEvent "session-123"))
  = [EventGate.OnEventDropped (obj (sessionStartedEvent "session-123"))
       ("Event 'SESSION_STARTED' emitted before session started. "
          ++ "Platform must transition to IN_SESSION first.")
       EventGate.BEFORE_SESSION].
Proof. by vm_compute. Qed.

Example gate_drops_mismatched_session :
  EventGate.createGatedEmit gateOptions
    (InSessionContext "correct-session" 1700000000000)
    (list_to_map (sessionStartedEvent "wrong-session"))
  = [EventGate.OnEventDropped (obj (sessionStartedEvent "wrong-session"))
       ("sessionId mismatch: event.sessionId='wrong-session' !== "
          ++ "context.sessionId='correct-session'")
       EventGate.SESSION_ID_MISMATCH].
Proof. by vm_compute. Qed.

Example gate_allows_matching_session :
  EventGate.createGatedEmit gateOptions
    (InSessionContext "session-123" 1700000000000)
    (list_to_map (sessionStartedEvent "session-123"))
  = [EventGate.PlatformEmit (obj (sessionStartedEvent "session-123"))].
Proof. by vm_compute. Qed.

Example gate_drops_dev_log_after_end :
  EventGate.createGatedEmit gateOptions
    (SessionEndedContext "session-123" 60000) (list_to_map devLog)
  = [EventGate.OnEventDropped (obj devLog)
       "Event 'DEV_LOG' emitted after session ended"
       EventGate.AFTER_SESSION_ENDED].
Proof. by vm_compute. Qed.

(** The three outcomes of the capability guard. *)
Example guard_undeclared_throws :
  CapabilityGuard.getCapability guardConfig sensors
  = Throw (CapabilityNotDeclaredError sensors).
Proof. by vm_compute. Qed.

Example guard_denied_falls_back :
  CapabilityGuard.getCapability guardConfig haptics
  = Ok {| CapabilityGuard.isAvailable := false;
          CapabilityGuard.api := "no-op haptics";
          CapabilityGuard.unavailableReason := Some "user_disabled" |}.
Proof. by vm_compute. Qed.

Example guard_failed_factory_falls_back :
  CapabilityGuard.getCapability guardConfig audio
  = Ok {| CapabilityGuard.isAvailable := false;
          CapabilityGuard.api := "no-op audio";
          CapabilityGuard.unavailableReason := Some "internal_error" |}.
Proof. by vm_compute. Qed.

(* ================================================================== *)
(** * Further properties of the validation engine *)
(* ================================================================== *)

Lemma conclude_valid (errors warnings : list string) (ev : Fields) :
  valid (conclude errors warnings ev) = true ->
  errors = [] /\ conclude errors warnings ev = accepted ev warnings.
Proof.
  unfold conclude. destruct errors as [|msg errors]; cbn; [done|].
  discriminate.
Qed.

Lemma conclude_wellFormed (errors warnings : list string) (ev : Fields) :
  wellFormed (conclude errors warnings ev).
Proof.
  unfold conclude, wellFormed. destruct errors as [|msg errors]; cbn.
  - left. eauto.
  - right. done.
Qed.

Lemma dispatch_conclude (t : EventType) (e : Fields) :
  exists errors warnings ev, dispatch t e = conclude errors warnings ev.
Proof.
  destruct t; cbn [dispatch]; try (eexists _, _, _; reflexivity).
  unfold validateUserSignal.
  destruct (if isDefined (prop e "value") then _ else _) as [warnings cleaned].
  eexists _, _, _; reflexivity.
Qed.

(** How a returned result came about. *)
Lemma validateEvent_inv (event : JsValue) (mode : ValidationMode)
    (result : ValidationResult) :
  validateEvent event mode = Ok result ->
  (exists msg, result = rejected [msg] [])
  \/ (exists e t,
        event = JsObject e
        /\ e !! "type" = Some (JsString (eventTypeTag t))
        /\ estimateSize event <= MAX_EVENT_SIZE
        /\ result = dispatch t e).
Proof.
  unfold validateEvent.
  destruct event as [| | | | | | |e]; try (intros [= <-]; left; eauto).
  destruct (e !! "type") as [[| | | | |tag| |]|] eqn:Htype;
    try (intros [= <-]; left; eauto).
  destruct (Z.ltb_spec MAX_EVENT_SIZE (estimateSize (JsObject e)));
    [intros [= <-]; left; eauto|].
  destruct (matchCase tag) as [t|] eqn:Hcase.
  - intros [= <-]. right. exists e, t.
    apply matchCase_Some in Hcase as ->. done.
  - destruct mode; [|done]. intros [= <-]. left. eauto.
Qed.

(** X1.  A result is either accepted, with no error and an event, or
    rejected, with an error and no event. *)
Theorem validation_result_shape (event : JsValue) (mode : ValidationMode)
    (result : ValidationResult) :
  validateEvent event mode = Ok result -> wellFormed result.
Proof.
  intros H. apply validateEvent_inv in H as [[msg ->]|(e & t & _ & _ & _ & ->)].
  - right. done.
  - destruct (dispatch_conclude t e) as (errs & warns & ev & ->).
    apply conclude_wellFormed.
Qed.

Lemma validation_result_shape_witness :
  wellFormed (accepted (list_to_map errorMade) []).
Proof.
  apply (validation_result_shape (obj errorMade) production).
  vm_compute. reflexivity.
Defined.

Lemma dispatch_pass_through (t : EventType) (e : Fields) :
  cleans t = false ->
  valid (dispatch t e) = true ->
  dispatch t e = accepted e [].
Proof.
  intros Hkind Hvalid.
  destruct t; try discriminate; cbn [dispatch] in *;
    match goal with
    | H : valid (?validator e) = true |- _ =>
        unfold validator in *; by apply conclude_valid in H as [_ ->]
    end.
Qed.

(** X2.  Only the validators of [PERFORMANCE_REPORTED] and [USER_SIGNAL]
    rewrite anything: an accepted event of any other kind comes back as it
    was given, with no warning. *)
Theorem other_kinds_pass_through (e : Fields) (t : EventType)
    (mode : ValidationMode) (result : ValidationResult) :
  e !! "type" = Some (JsString (eventTypeTag t)) ->
  cleans t = false ->
  validateEvent (JsObject e) mode = Ok result ->
  valid result = true ->
  result = accepted e [].
Proof.
  intros Htype Hkind Hres Hvalid.
  apply validateEvent_inv in Hres as [[msg ->]|(e' & t' & He & Ht & _ & ->)];
    [done|].
  injection He as <-. rewrite Htype in Ht. injection Ht as Ht.
  assert (t' = t) as ->.
  { pose proof (matchCase_tag t) as H1. rewrite Ht in H1.
    rewrite matchCase_tag in H1. by injection H1. }
  by apply dispatch_pass_through.
Qed.

Lemma other_kinds_pass_through_witness :
  validateEvent (obj levelCompletedEvent) development
  = Ok (accepted (list_to_map levelCompletedEvent) []).
Proof.
  assert (validateEvent (obj levelCompletedEvent) development
          = Ok (dispatch LEVEL_COMPLETED (list_to_map levelCompletedEvent)))
    as Hres by by vm_compute.
  rewrite Hres. apply (f_equal Ok).
  apply (other_kinds_pass_through (list_to_map levelCompletedEvent)
           LEVEL_COMPLETED development); [by vm_compute | done | done |].
  by vm_compute.
Defined.

(** ** Clamping twice *)

Lemma eqb_refl (m d : Z) : JsNumber.eqb (Finite m d) (Finite m d) = true.
Proof.
  unfold JsNumber.eqb, JsNumber.compare, JsNumber.compareFinite.
  by rewrite Z.compare_refl.
Qed.

Lemma min_one (m d : Z) :
  (JsNumber.compareFinite 1 0 m d = Gt
   /\ JsNumber.min (JsNumber.ofZ 1) (Finite m d) = Finite m d)
  \/ (JsNumber.compareFinite 1 0 m d <> Gt
      /\ JsNumber.min (JsNumber.ofZ 1) (Finite m d) = JsNumber.ofZ 1).
Proof.
  unfold JsNumber.min, JsNumber.ofZ. cbn [JsNumber.compare].
  destruct (JsNumber.compareFinite 1 0 m d); [right|right|left]; done.
Qed.

Lemma max_zero (m d : Z) :
  (JsNumber.compareFinite 0 0 m d = Lt
   /\ JsNumber.max (JsNumber.ofZ 0) (Finite m d) = Finite m d)
  \/ (JsNumber.compareFinite 0 0 m d <> Lt
      /\ JsNumber.max (JsNumber.ofZ 0) (Finite m d) = JsNumber.ofZ 0).
Proof.
  unfold JsNumber.max, JsNumber.ofZ. cbn [JsNumber.compare].
  destruct (JsNumber.compareFinite 0 0 m d); [right|left|right]; done.
Qed.

(** Clamping to the unit interval gives a bound or the number itself, and
    clamping again changes nothing. *)
Lemma clamp_unit_cases (m d : Z) :
  let c := JsNumber.max (JsNumber.ofZ 0)
             (JsNumber.min (JsNumber.ofZ 1) (Finite m d)) in
  (c = JsNumber.ofZ 0 \/ c = JsNumber.ofZ 1 \/ c = Finite m d)
  /\ JsNumber.max (JsNumber.ofZ 0) (JsNumber.min (JsNumber.ofZ 1) c) = c.
Proof.
  cbn zeta. destruct (min_one m d) as [[H1 Hmin]|[H1 Hmin]]; rewrite Hmin.
  - destruct (max_zero m d) as [[H2 Hmax]|[H2 Hmax]]; rewrite Hmax.
    + split; [by right; right|]. by rewrite Hmin, Hmax.
    + split; [by left|]. by vm_compute.
  - split; [right; left|]; by vm_compute.
Qed.

Lemma clamp_count_cases (m d : Z) :
  let c := JsNumber.max (JsNumber.ofZ 0) (Finite m d) in
  (c = JsNumber.ofZ 0 \/ c = Finite m d)
  /\ JsNumber.max (JsNumber.ofZ 0) c = c.
Proof.
  cbn zeta. destruct (max_zero m d) as [[H2 Hmax]|[H2 Hmax]]; rewrite Hmax.
  - split; [by right|]. done.
  - split; [by left|]. by vm_compute.
Qed.

Lemma clampOf_finite (f : AnalyticsField) (m d : Z) :
  exists m' d', clampOf f (Finite m d) = Finite m' d'
                /\ clampOf f (Finite m' d') = Finite m' d'.
Proof.
  unfold clampOf. destruct (unitRange f).
  - destruct (clamp_unit_cases m d) as [Hc Hi]. cbn zeta in *.
    destruct Hc as [Hc|[Hc|Hc]]; rewrite Hc in *; eauto.
  - destruct (clamp_count_cases m d) as [Hc Hi]. cbn zeta in *.
    destruct Hc as [Hc|Hc]; rewrite Hc in *; eauto.
Qed.

Lemma prop_number (e : Fields) (key : string) (n : number) :
  prop e key = JsNumber n -> e !! key = Some (JsNumber n).
Proof.
  unfold prop. destruct (e !! key) as [v|]; cbn; [by intros ->|done].
Qed.

(** A step on a settled field changes nothing, whatever was accumulated,
    as long as the event being cleaned is the one being read. *)
Lemma cleanStep_settled (c : Fields) (acc : Cleaning) (f : AnalyticsField) :
  cleanedEvent acc = c ->
  settled f (prop c (fieldName f)) ->
  cleanStep c acc f = acc.
Proof.
  intros Hc [Habs|(m & d & Hv & Hfix)]; [by apply cleanStep_absent|].
  unfold cleanStep, clampUnitField, clampCountField, clampOf in *.
  rewrite Hv. cbn [isDefined clampOptional clampNonNegative JsNumber.isFinite].
  destruct acc as [errs warns ev]. cbn in Hc. subst ev.
  cbn [cErrors cWarnings cleanedEvent].
  destruct (unitRange f); rewrite Hfix, ?eqb_refl; cbn [negb];
    by rewrite (insert_id c _ _ (prop_number _ _ _ Hv)).
Qed.

Lemma cleanFold_settled (c : Fields) (fields : list AnalyticsField)
    (acc : Cleaning) :
  cleanedEvent acc = c ->
  Forall (fun f => settled f (prop c (fieldName f))) fields ->
  foldl (cleanStep c) acc fields = acc.
Proof.
  intros Hc Hall. induction Hall as [|f fields Hf _ IH]; cbn; [done|].
  by rewrite (cleanStep_settled c acc f Hc Hf).
Qed.

(** A step touches no property but its own. *)
Lemma cleanStep_other (e : Fields) (acc : Cleaning) (g : AnalyticsField)
    (key : string) :
  key <> fieldName g ->
  prop (cleanedEvent (cleanStep e acc g)) key = prop (cleanedEvent acc) key.
Proof.
  intros Hne. unfold cleanStep, clampUnitField, clampCountField, prop.
  destruct (unitRange g), (isDefined _); try done.
  - destruct (clampOptional _ _ _) as [[? ?]|]; cbn; [|done].
    by rewrite lookup_insert_ne.
  - destruct (clampNonNegative _) as [[? ?]|]; cbn; [|done].
    by rewrite lookup_insert_ne.
Qed.

(** What the steps leave in each field they handle. *)
Lemma cleanFold_settles (e : Fields) (fields : list AnalyticsField)
    (acc : Cleaning) :
  NoDup (map fieldName fields) ->
  Forall (fun g => absentOrFinite (prop e (fieldName g))) fields ->
  Forall (fun g => prop e (fieldName g) = JsUndefined ->
                   prop (cleanedEvent acc) (fieldName g) = JsUndefined)
         fields ->
  Forall (fun g => settled g (prop (cleanedEvent
                                      (foldl (cleanStep e) acc fields))
                                (fieldName g))) fields.
Proof.
  intros Hnd Hall Hacc.
  destruct (cleanFold_spec e fields acc Hnd Hall) as (_ & _ & _ & Hval).
  cbn zeta in Hval.
  revert acc Hacc Hval.
  induction fields as [|g fields IH]; intros acc Hacc Hval; [done|].
  cbn in Hnd. apply NoDup_cons in Hnd as [Hfresh Hnd].
  apply Forall_cons in Hall as [Hg Hall].
  apply Forall_cons in Hacc as [Hgacc Hacc].
  apply Forall_cons. split.
  - apply absentOrFinite_cases in Hg as [Habs | (mg & dg & Hfin)].
    + left. cbn [foldl]. rewrite (cleanStep_absent e acc g Habs).
      destruct (cleanFold_spec e fields acc Hnd Hall) as (_ & Hkeep & _).
      unfold prop. rewrite (Hkeep (fieldName g) Hfresh). by apply Hgacc.
    + right. destruct (Hval g mg dg) as [Hlook _];
        [apply elem_of_cons; by left | done |].
      destruct (clampOf_finite g mg dg) as (m' & d' & Hc & Hfix).
      exists m', d'. split; [|done].
      unfold prop. rewrite Hlook. cbn. by rewrite Hc.
  - cbn [foldl]. apply IH; try done.
    + apply Forall_forall. intros h Hh Habs.
      rewrite Forall_forall in Hacc.
      rewrite (cleanStep_other e acc g (fieldName h)); [by apply Hacc|].
      intros Heq. apply Hfresh. rewrite <- Heq.
      by apply (list_elem_of_fmap_2 fieldName).
    + intros f m d Hin Hf. apply Hval; [apply elem_of_cons; by right|done].
Qed.

(** What [clampOptional] returns for the unit interval is finite, is
    returned unchanged when clamped again, and is a bound whenever the
    flag is set. *)
Lemma clampOptional_settled (v : JsValue) (value : number) (clamped : bool) :
  clampOptional v (JsNumber.ofZ 0) (JsNumber.ofZ 1) = Some (value, clamped) ->
  clampOptional (JsNumber value) (JsNumber.ofZ 0) (JsNumber.ofZ 1)
  = Some (value, false)
  /\ (clamped = true -> value = JsNumber.ofZ 0 \/ value = JsNumber.ofZ 1).
Proof.
  unfold clampOptional at 1.
  destruct v as [| | |[| |m d]| | | |]; try done.
  cbn [JsNumber.isFinite]. intros [= Hv Hf].
  destruct (clamp_unit_cases m d) as [Hc Hfix]. cbn zeta in *.
  rewrite Hv in *. clear Hv.
  assert (exists m' d', value = Finite m' d') as (m' & d' & Hfin).
  { destruct Hc as [Hc | [Hc | Hc]]; rewrite Hc; unfold JsNumber.ofZ; eauto. }
  subst value. split.
  - unfold clampOptional. cbn [JsNumber.isFinite].
    by rewrite Hfix, eqb_refl.
  - intros ->. destruct Hc as [Hc | [Hc | Hc]]; [by left | by right |].
    rewrite Hc, eqb_refl in Hf. discriminate.
Qed.

Lemma accepted_inj (ev ev' : Fields) (warnings warnings' : list string) :
  accepted ev warnings = accepted ev' warnings' ->
  ev = ev' /\ warnings = warnings'.
Proof. by intros [= -> ->]. Qed.

(** An accepted [PERFORMANCE_REPORTED] event had every analytics field
    absent or finite. *)
Lemma accepted_performance_fields (e : Fields) :
  cErrors (foldl (cleanStep e)
             {| cErrors := []; cWarnings := []; cleanedEvent := e |}
             performanceFields) = [] ->
  Forall (fun g => absentOrFinite (prop e (fieldName g))) performanceFields.
Proof.
  intros Hnone. apply Forall_forall. intros g Hg.
  destruct (isDefined (prop e (fieldName g))) eqn:Hdef.
  - destruct (isFiniteNumber (prop e (fieldName g))) eqn:Hnum;
      [by right|].
    pose proof (cleanFold_nonnumeric e performanceFields
                  {| cErrors := []; cWarnings := []; cleanedEvent := e |}
                  g Hg Hdef Hnum) as Hin.
    rewrite Hnone in Hin. by apply elem_of_nil in Hin.
  - left. by destruct (prop e (fieldName g)).
Qed.

Lemma validatePerformanceReported_settles (e cleaned : Fields)
    (warnings : list string) :
  validatePerformanceReported e = accepted cleaned warnings ->
  validatePerformanceReported cleaned = accepted cleaned [].
Proof.
  rewrite !validatePerformanceReported_fold. cbn zeta.
  set (acc := {| cErrors := []; cWarnings := []; cleanedEvent := e |}).
  intros Hacc.
  assert (valid (conclude (cErrors (foldl (cleanStep e) acc performanceFields))
                   (cWarnings (foldl (cleanStep e) acc performanceFields))
                   (cleanedEvent (foldl (cleanStep e) acc performanceFields)))
          = true) as Hvalid by by rewrite Hacc.
  apply conclude_valid in Hvalid as [Hnone Hconc].
  rewrite Hconc in Hacc. apply accepted_inj in Hacc as [Hclean _].
  pose proof (accepted_performance_fields e Hnone) as Hall.
  pose proof (cleanFold_settles e performanceFields acc
                performanceFields_NoDup Hall) as Hsettled.
  rewrite Hclean in Hsettled.
  rewrite (cleanFold_settled cleaned performanceFields
             {| cErrors := []; cWarnings := []; cleanedEvent := cleaned |});
    [done|done|].
  apply Hsettled. apply Forall_forall. by intros g _ Habs.
Qed.

Lemma validateUserSignal_settles (e cleaned : Fields)
    (warnings : list string) :
  validateUserSignal e = accepted cleaned warnings ->
  validateUserSignal cleaned = accepted cleaned [].
Proof.
  unfold validateUserSignal.
  assert (forall v, prop (<["value" := v]> e) "signalType"
                      = prop e "signalType"
                      /\ prop (delete "value" e) "signalType"
                         = prop e "signalType") as Hkeep.
  { intros v. unfold prop.
    rewrite lookup_insert_ne by done. by rewrite lookup_delete_ne. }
  destruct (isDefined (prop e "value")) eqn:Hdef.
  - destruct (clampOptional (prop e "value") (JsNumber.ofZ 0) (JsNumber.ofZ 1))
      as [[value clamped]|] eqn:Hclamp.
    + intros Hacc.
      assert (valid (conclude
                (check (includes signalTypes (prop e "signalType"))
                   ("signalType must be one of: " ++ join signalTypes) [])
                (if clamped
                 then ["value clamped to " ++ JsNumber.toString value]
                 else [])
                (<["value" := JsNumber value]> e)) = true) as Hvalid
        by by rewrite Hacc.
      apply conclude_valid in Hvalid as [Hnone Hconc].
      rewrite Hconc in Hacc. apply accepted_inj in Hacc as [<- _].
      destruct (Hkeep (JsNumber value)) as [-> _]. rewrite Hnone.
      apply clampOptional_settled in Hclamp as [Hagain _].
      unfold prop at 1 2. rewrite lookup_insert_eq.
      cbn [default from_option id isDefined]. rewrite Hagain.
      by rewrite insert_insert_eq.
    + intros Hacc.
      assert (valid (conclude
                (check (includes signalTypes (prop e "signalType"))
                   ("signalType must be one of: " ++ join signalTypes) [])
                ["value was not a valid number, omitted"]
                (delete "value" e)) = true) as Hvalid
        by by rewrite Hacc.
      apply conclude_valid in Hvalid as [Hnone Hconc].
      rewrite Hconc in Hacc. apply accepted_inj in Hacc as [<- _].
      destruct (Hkeep JsNull) as [_ ->]. rewrite Hnone.
      unfold prop at 1. rewrite lookup_delete_eq. done.
  - intros Hacc.
    assert (valid (conclude
              (check (includes signalTypes (prop e "signalType"))
                 ("signalType must be one of: " ++ join signalTypes) [])
              [] e) = true) as Hvalid by by rewrite Hacc.
    apply conclude_valid in Hvalid as [Hnone Hconc].
    rewrite Hconc in Hacc. apply accepted_inj in Hacc as [<- _].
    by rewrite Hdef, Hnone.
Qed.

(** Every per-kind validator accepts, unchanged and without a warning,
    what it returned. *)
Lemma dispatch_settles (t : EventType) (e cleaned : Fields)
    (warnings : list string) :
  dispatch t e = accepted cleaned warnings ->
  dispatch t cleaned = accepted cleaned [].
Proof.
  intros Hacc. destruct (cleans t) eqn:Hkind.
  - destruct t; try discriminate; cbn [dispatch] in *.
    + by eapply validatePerformanceReported_settles.
    + by eapply validateUserSignal_settles.
  - assert (valid (dispatch t e) = true) as Hvalid by by rewrite Hacc.
    rewrite (dispatch_pass_through t e Hkind Hvalid) in Hacc.
    apply accepted_inj in Hacc as [<- _].
    by apply dispatch_pass_through.
Qed.

(** Cleaning leaves the discriminant alone. *)
Lemma dispatch_keeps_type (t : EventType) (e cleaned : Fields)
    (warnings : list string) :
  dispatch t e = accepted cleaned warnings ->
  cleaned !! "type" = e !! "type".
Proof.
  intros Hacc. destruct (cleans t) eqn:Hkind.
  - destruct t; try discriminate; cbn [dispatch] in *.
    + rewrite validatePerformanceReported_fold in Hacc. cbn zeta in Hacc.
      set (acc := {| cErrors := []; cWarnings := []; cleanedEvent := e |})
        in *.
      assert (valid (conclude
                (cErrors (foldl (cleanStep e) acc performanceFields))
                (cWarnings (foldl (cleanStep e) acc performanceFields))
                (cleanedEvent (foldl (cleanStep e) acc performanceFields)))
              = true) as Hvalid by by rewrite Hacc.
      apply conclude_valid in Hvalid as [Hnone Hconc].
      rewrite Hconc in Hacc. apply accepted_inj in Hacc as [<- _].
      destruct (cleanFold_spec e performanceFields acc
                  performanceFields_NoDup
                  (accepted_performance_fields e Hnone)) as (_ & Hkeep & _).
      apply Hkeep. by vm_compute; intros H; repeat
        (apply elem_of_cons in H as [H|H]; [discriminate|]);
        apply elem_of_nil in H.
    + unfold validateUserSignal in Hacc.
      destruct (isDefined (prop e "value"));
        [destruct (clampOptional _ _ _) as [[value clamped]|]|];
        match type of Hacc with
        | conclude ?errs ?ws ?ev = _ =>
            assert (valid (conclude errs ws ev) = true) as Hvalid
              by (by rewrite Hacc);
            apply conclude_valid in Hvalid as [_ Hconc];
            rewrite Hconc in Hacc; apply accepted_inj in Hacc as [<- _]
        end;
        [by rewrite lookup_insert_ne | by rewrite lookup_delete_ne | done].
  - assert (valid (dispatch t e) = true) as Hvalid by by rewrite Hacc.
    rewrite (dispatch_pass_through t e Hkind Hvalid) in Hacc.
    by apply accepted_inj in Hacc as [<- _].
Qed.

(** X3.  Validation is idempotent on what it accepts: the cleaned event,
    validated again, is accepted as it is and without a warning. *)
Theorem cleaned_event_is_settled (e cleaned : Fields)
    (warnings : list string) (mode : ValidationMode) :
  validateEvent (JsObject e) mode = Ok (accepted cleaned warnings) ->
  estimateSize (JsObject cleaned) <= MAX_EVENT_SIZE ->
  validateEvent (JsObject cleaned) mode = Ok (accepted cleaned []).
Proof.
  intros Hres Hsize.
  apply validateEvent_inv in Hres as [[msg Hrej]|(e' & t & He & Ht & _ & Hd)];
    [discriminate|].
  injection He as <-. symmetry in Hd.
  rewrite (validateEvent_dispatch cleaned t mode); [| |done].
  - by rewrite (dispatch_settles t e cleaned warnings Hd).
  - by rewrite (dispatch_keeps_type t e cleaned warnings Hd).
Qed.

Lemma cleaned_event_is_settled_witness :
  validateEvent
    (obj [("type", JsString "PERFORMANCE_REPORTED");
          ("accuracy", JsNumber (Finite 15 (-1)));
          ("errorCount", int (-3))]) production
  = Ok (accepted
          (list_to_map [("type", JsString "PERFORMANCE_REPORTED");
                        ("accuracy", int 1); ("errorCount", int 0)])
          ["accuracy clamped to 1"])
  /\ validateEvent
       (obj [("type", JsString "PERFORMANCE_REPORTED");
             ("accuracy", int 1); ("errorCount", int 0)]) production
     = Ok (accepted
             (list_to_map [("type", JsString "PERFORMANCE_REPORTED");
                           ("accuracy", int 1); ("errorCount", int 0)])
             []).
Proof.
  assert (validateEvent
    (obj [("type", JsString "PERFORMANCE_REPORTED");
          ("accuracy", JsNumber (Finite 15 (-1)));
          ("errorCount", int (-3))]) production
  = Ok (accepted
          (list_to_map [("type", JsString "PERFORMANCE_REPORTED");
                        ("accuracy", int 1); ("errorCount", int 0)])
          ["accuracy clamped to 1"])) as Hfirst by by vm_compute.
  split; [exact Hfirst|].
  apply (cleaned_event_is_settled _ _ _ _ Hfirst). by vm_compute.
Defined.

(** ** Warnings *)

Lemma clampUnitField_warnings (name : string) (e : Fields) (acc : Cleaning) :
  cWarnings (clampUnitField name e acc) = cWarnings acc
  \/ cWarnings (clampUnitField name e acc)
     = (cWarnings acc ++ [(name ++ " clamped to 0")%string])%list
  \/ cWarnings (clampUnitField name e acc)
     = (cWarnings acc ++ [(name ++ " clamped to 1")%string])%list.
Proof.
  unfold clampUnitField. destruct (isDefined (prop e name)); [|by left].
  destruct (clampOptional (prop e name) (JsNumber.ofZ 0) (JsNumber.ofZ 1))
    as [[value clamped]|] eqn:Hclamp; [|by left].
  apply clampOptional_settled in Hclamp as [_ Hbound].
  destruct clamped; [|by left]. cbn [cWarnings].
  destruct (Hbound eq_refl) as [-> | ->]; [right; left | right; right];
    reflexivity.
Qed.

Lemma clampCountField_warnings (name : string) (e : Fields) (acc : Cleaning) :
  cWarnings (clampCountField name e acc) = cWarnings acc.
Proof.
  unfold clampCountField. destruct (isDefined (prop e name)); [|done].
  by destruct (clampNonNegative (prop e name)) as [[value clamped]|].
Qed.

Lemma conclude_warnings (errors ws : list string) (ev : Fields) :
  warnings (conclude errors ws ev) = ws.
Proof. unfold conclude. by destruct (bool_decide _). Qed.

Lemma validatePerformanceReported_warnings (e : Fields) :
  Forall (fun w => w ∈ performanceWarnings)
         (warnings (validatePerformanceReported e)).
Proof.
  unfold validatePerformanceReported. rewrite conclude_warnings.
  rewrite !clampCountField_warnings.
  set (acc0 := {| cErrors := []; cWarnings := []; cleanedEvent := e |}).
  destruct (clampUnitField_warnings "successRate" e
              (clampUnitField "accuracy" e acc0)) as [-> | [-> | ->]];
    destruct (clampUnitField_warnings "accuracy" e acc0)
      as [-> | [-> | ->]];
    cbn [cWarnings acc0 app];
    repeat (apply Forall_cons; split; [by vm_compute; set_solver|]);
    apply Forall_nil_2.
Qed.

(** X4.  A [PERFORMANCE_REPORTED] event only ever draws warnings about
    [accuracy] and [successRate]: the four count fields are clamped without
    a word. *)
Theorem performance_warnings (e : Fields) (mode : ValidationMode)
    (result : ValidationResult) :
  e !! "type" = Some (JsString "PERFORMANCE_REPORTED") ->
  validateEvent (JsObject e) mode = Ok result ->
  Forall (fun w => w ∈ performanceWarnings) (warnings result).
Proof.
  intros Htype Hres.
  apply validateEvent_inv in Hres as [[msg ->]|(e' & t & He & Ht & _ & ->)];
    [by apply Forall_nil_2|].
  injection He as <-. rewrite Htype in Ht. injection Ht as Ht.
  assert (t = PERFORMANCE_REPORTED) as ->.
  { pose proof (matchCase_tag t) as H1. rewrite <- Ht in H1.
    vm_compute in H1. by injection H1. }
  apply validatePerformanceReported_warnings.
Qed.

Lemma performance_warnings_witness :
  Forall (fun w => w ∈ performanceWarnings)
    (warnings
       (accepted
          (list_to_map [("type", JsString "PERFORMANCE_REPORTED");
                        ("accuracy", int 1); ("errorCount", int 0);
                        ("hintsUsed", int 0)])
          ["accuracy clamped to 1"])).
Proof.
  apply (performance_warnings
           (list_to_map [("type", JsString "PERFORMANCE_REPORTED");
                         ("accuracy", JsNumber (Finite 15 (-1)));
                         ("errorCount", int (-3)); ("hintsUsed", int (-1))])
           development); by vm_compute.
Defined.

(* ================================================================== *)
(** * Properties: the branded types *)
(* ================================================================== *)

Section BrandedProperties.

Import JsNumber.

Lemma compare_int_r (m e z : Z) :
  compareFinite m e z 0
  = if 0 <=? e then Z.compare (m * 10 ^ e) z
    else Z.compare m (z * 10 ^ (- e)).
Proof.
  unfold compareFinite, scaled. destruct (Z.leb_spec 0 e).
  - rewrite Z.min_r by done. by rewrite !Z.sub_0_r, Z.pow_0_r, Z.mul_1_r.
  - rewrite Z.min_l by lia.
    by rewrite Z.sub_diag, Z.pow_0_r, Z.mul_1_r, Z.sub_0_l.
Qed.

Lemma compare_int_l (z m e : Z) :
  compareFinite z 0 m e
  = if 0 <=? e then Z.compare z (m * 10 ^ e)
    else Z.compare (z * 10 ^ (- e)) m.
Proof.
  rewrite compare_antisym, compare_int_r.
  destruct (0 <=? e); symmetry; apply Z.compare_antisym.
Qed.




End BrandedProperties.


(** X6.  On an integer the creators of timestamps and durations throw
    exactly when it is negative, and a timestamp created without an
    argument is the clock reading, under the same condition. *)
Theorem integer_creators (z dateNow : Z) :
  Branded.createDuration (int z)
  = match createDuration z with
    | Ok d => Returns (JsNumber.ofZ d)
    | Throw _ => Raises (Branded.InvalidDurationError (int z))
    end
  /\ Branded.createTimestamp (int z) dateNow
     = match createTimestamp z with
       | Ok ts => Returns (JsNumber.ofZ ts)
       | Throw _ => Raises (Branded.InvalidTimestampError (int z))
       end
  /\ Branded.createTimestamp JsUndefined dateNow
     = match createTimestamp dateNow with
       | Ok ts => Returns (JsNumber.ofZ ts)
       | Throw _ => Raises (Branded.InvalidTimestampError (int dateNow))
       end.
Proof.
  assert (forall k, JsNumber.ltb (JsNumber.ofZ k) (JsNumber.ofZ 0) = (k <? 0))
    as Hneg.
  { intros k. destruct (Z.ltb_spec k 0) as [Hk|Hk].
    - by apply ltb_zero.
    - destruct (JsNumber.ltb (JsNumber.ofZ k) (JsNumber.ofZ 0)) eqn:Hlt;
        [|done].
      apply ltb_zero in Hlt. lia. }
  unfold Branded.createDuration, Branded.createTimestamp, Branded.orNow,
    createDuration, createTimestamp, int.
  cbn [JsNumber.isInteger JsNumber.ofZ Z.leb negb orb].
  change (Finite ?k 0) with (JsNumber.ofZ k). rewrite !Hneg.
  split; [|split].
  - by destruct (z <? 0).
  - by destruct (z <? 0).
  - by destruct (dateNow <? 0).
Qed.

(** X7.  A difficulty is valid exactly when it is, as a number, one of the
    integers from 1 to 10. *)
Theorem valid_difficulty_range (value : JsValue) :
  isValidDifficulty value = true
  <-> exists n z, value = JsNumber n /\ isInt n z /\ 1 <= z <= 10.
Proof.
  unfold isInt. split.
  - destruct value as [| | |[| |m e]| | | |]; try done.
    unfold isValidDifficulty, JsNumber.isInteger, JsNumber.geb, JsNumber.leb,
      JsNumber.eqb, JsNumber.ofZ.
    cbn [JsNumber.compare]. rewrite compare_int_l, compare_int_r.
    intros H. apply andb_true_iff in H as [H Hle].
    apply andb_true_iff in H as [Hint Hge].
    destruct (Z.leb_spec 0 e) as [He|He].
    + exists (Finite m e), (m * 10 ^ e). split; [done|].
      cbn [JsNumber.compare]. rewrite compare_int_r.
      destruct (Z.leb_spec 0 e); [|lia]. rewrite Z.compare_refl.
      split; [done|].
      destruct (Z.compare_spec 1 (m * 10 ^ e));
        destruct (Z.compare_spec (m * 10 ^ e) 10); try done; lia.
    + cbn [orb] in Hint. apply Z.eqb_eq in Hint.
      assert (0 < 10 ^ (- e)) as Hpos by (apply pow10_pos; lia).
      apply Z.mod_divide in Hint as [z Hz]; [|lia].
      exists (Finite m e), z. split; [done|].
      cbn [JsNumber.compare]. rewrite compare_int_r.
      destruct (Z.leb_spec 0 e); [lia|]. rewrite <- Hz, Z.compare_refl.
      split; [done|].
      destruct (Z.compare_spec (1 * 10 ^ (- e)) m);
        destruct (Z.compare_spec m (10 * 10 ^ (- e))); try done; nia.
  - intros (n & z & -> & Heq & Hz).
    destruct n as [|[]|m e]; try done.
    unfold isValidDifficulty, JsNumber.isInteger, JsNumber.geb, JsNumber.leb,
      JsNumber.eqb, JsNumber.ofZ in *.
    cbn [JsNumber.compare] in *.
    rewrite compare_int_l, compare_int_r. rewrite compare_int_r in Heq.
    destruct (Z.leb_spec 0 e) as [He|He].
    + destruct (Z.compare_spec (m * 10 ^ e) z) as [Hm| |]; try done.
      rewrite Hm. cbn [orb andb].
      destruct (Z.compare_spec 1 z); destruct (Z.compare_spec z 10);
        try done; lia.
    + destruct (Z.compare_spec m (z * 10 ^ (- e))) as [Hm| |]; try done.
      assert (0 < 10 ^ (- e)) as Hpos by (apply pow10_pos; lia).
      rewrite Hm, Z.mod_mul by lia. cbn [Z.eqb orb andb].
      destruct (Z.compare_spec (1 * 10 ^ (- e)) (z * 10 ^ (- e)));
        destruct (Z.compare_spec (z * 10 ^ (- e)) (10 * 10 ^ (- e)));
        try done; nia.
Qed.

(* ================================================================== *)
(** * Further properties of the session driver *)
(* ================================================================== *)

(** ** The subtraction of clock readings *)

Lemma log2_pow2_le (a spare : Z) :
  0 < spare -> spare = Z.log2 a - 52 -> 2 ^ 53 <= a /\ 2 ^ spare <= a.
Proof.
  intros Hpos Hspare.
  assert (0 < a) as Ha.
  { destruct (Z.lt_ge_cases 0 a) as [|Hle]; [done|].
    rewrite (Z.log2_nonpos a) in Hspare by done. lia. }
  pose proof (Z.log2_spec a Ha) as [Hlow _].
  split.
  - etrans; [|exact Hlow]. apply Z.pow_le_mono_r; lia.
  - etrans; [|exact Hlow]. apply Z.pow_le_mono_r; lia.
Qed.

Lemma nearestDouble_exact (z : Z) :
  Z.abs z < 2 ^ 53 -> JsNumber.nearestDouble z = z.
Proof.
  intros Hsmall. unfold JsNumber.nearestDouble.
  destruct (Z.leb_spec (Z.log2 (Z.abs z) - 52) 0) as [|Hspare]; [done|].
  destruct (log2_pow2_le (Z.abs z) _ Hspare eq_refl). lia.
Qed.

Lemma nearestDouble_sign (z : Z) :
  (z < 0 -> JsNumber.nearestDouble z < 0)
  /\ (0 <= z -> 0 <= JsNumber.nearestDouble z).
Proof.
  unfold JsNumber.nearestDouble.
  destruct (Z.leb_spec (Z.log2 (Z.abs z) - 52) 0) as [|Hspare]; [done|].
  destruct (log2_pow2_le (Z.abs z) _ Hspare eq_refl) as [_ Hunit].
  set (unit := 2 ^ (Z.log2 (Z.abs z) - 52)) in *.
  assert (0 < unit) as Hpos by (apply Z.pow_pos_nonneg; lia).
  assert (0 < Z.abs z / unit) as Hkept by (apply Z.div_str_pos; lia).
  set (kept := Z.abs z / unit) in *.
  destruct ((unit <? 2 * (Z.abs z mod unit))
            || (unit =? 2 * (Z.abs z mod unit)) && Z.odd kept);
    split; intros Hz.
  all: try (rewrite (Z.sgn_neg z) by done; nia).
  all: destruct (Z.eq_dec z 0) as [->|];
    [done | rewrite (Z.sgn_pos z) by lia; nia].
Qed.

Section DriverProperties.
Import Session.

Variable behaviour : ListenerBehaviour.

(** ** Transitions seen by listeners that do not call the driver *)

Lemma perform_start_quiet (fuel : nat) (sid : string) (nowMs : Z)
    (s : Driver) :
  quiet behaviour -> currentState s = INITIAL ->
  (List.length (listeners s) <= fuel)%nat -> 0 <= nowMs ->
  perform behaviour (S fuel) (StartSession sid nowMs) s
  = Some (notes (InSessionContext sid nowMs) (members s)
            (beginSession sid nowMs s), Ok Nothing).
Proof.
  intros Hquiet Hinit Hlen Hpos. cbn [perform]. unfold mbind, Run_bind.
  rewrite (start_quiet behaviour Hquiet _ fuel sid nowMs s Hinit Hlen).
  by destruct (Z.ltb_spec nowMs 0); [lia|].
Qed.

Lemma perform_end_quiet (fuel : nat) (sid reason : string)
    (started nowMs : Z) (s : Driver) :
  quiet behaviour -> currentState s = IN_SESSION ->
  sessionId s = Some sid -> startTime s = Some started ->
  (List.length (listeners s) <= fuel)%nat ->
  let duration := JsNumber.nearestDouble (nowMs - started) in
  let outcome :=
    if duration <? 0
    then Some (finishSession nowMs s, Throw (InvalidDurationError duration))
    else Some (notes (SessionEndedContext sid duration) (members s)
                 (finishSession nowMs s), Ok Nothing) in
  perform behaviour (S fuel) (EndSession reason nowMs) s = outcome
  /\ perform behaviour (S fuel) (AbortSession reason nowMs) s = outcome.
Proof.
  intros Hquiet Hin Hsid Hstart Hlen. cbn zeta. cbn [perform].
  unfold mbind, Run_bind.
  rewrite endSession_spec, abortSession_spec by done.
  rewrite (finish_quiet behaviour Hquiet _ fuel sid started nowMs s Hsid
             Hstart Hlen).
  by destruct (_ <? 0).
Qed.

Lemma getContext_in_session (sid : string) (started : Z) (s : Driver) :
  currentState s = IN_SESSION ->
  sessionId s = Some sid -> startTime s = Some started -> 0 <= started ->
  getContext s = (s, Ok (InSessionContext sid started)).
Proof.
  intros Hin Hsid Hstart Hpos.
  unfold getContext, createContextSnapshot, mbind, Eff_bind, lift, mret,
    Eff_ret.
  rewrite Hin, Hsid, Hstart. by rewrite (createTimestamp_nonneg _ Hpos).
Qed.

Lemma getContext_ended (sid : string) (duration : Z) (s : Driver) :
  currentState s = ENDED ->
  sessionId s = Some sid -> sessionDurationMs s = Some duration ->
  getContext s
  = (s, if duration <? 0 then Throw (InvalidDurationError duration)
        else Ok (SessionEndedContext sid duration)).
Proof.
  intros Hin Hsid Hdur.
  unfold getContext, createContextSnapshot, mbind, Eff_bind, lift, mret,
    Eff_ret.
  rewrite Hin, Hsid, Hdur. unfold createDuration.
  by destruct (duration <? 0).
Qed.

Lemma isSessionActive_spec (s : Driver) :
  isSessionActive s = (s, Ok (bool_decide (currentState s = IN_SESSION))).
Proof. done. Qed.

(** ** An ended driver *)

(** Once ended, a driver only changes its listeners, and calls none. *)
Lemma perform_ended (fuel : nat) (c : Call) (s : Driver) :
  currentState s = ENDED ->
  exists s' answer,
    perform behaviour (S fuel) c s = Some (s', answer)
    /\ currentState s' = ENDED /\ sessionId s' = sessionId s
    /\ startTime s' = startTime s
    /\ sessionDurationMs s' = sessionDurationMs s
    /\ notifications s' = notifications s.
Proof.
  intros Hend.
  destruct c as [sid nowMs|reason nowMs|reason nowMs|l|l| |].
  - rewrite startSession_throws by by rewrite Hend. by eexists _, _.
  - rewrite endSession_throws by by rewrite Hend. by eexists _, _.
  - rewrite abortSession_throws by by rewrite Hend. by eexists _, _.
  - exists (subscribe l s).1, (Ok Nothing). split; [done|].
    unfold subscribe, modify. cbn [fst]. by destruct (bool_decide _).
  - by exists (unsubscribe l s).1, (Ok Nothing).
  - rewrite perform_getContext. by eexists _, _.
  - by exists s, (Ok (Active (bool_decide (currentState s = IN_SESSION)))).
Qed.

Lemma run_ended (fuel : nat) (calls : list Call) (s : Driver) :
  currentState s = ENDED ->
  exists later,
    run behaviour (S fuel) calls s = Some later
    /\ currentState later = ENDED /\ sessionId later = sessionId s
    /\ startTime later = startTime s
    /\ sessionDurationMs later = sessionDurationMs s
    /\ notifications later = notifications s.
Proof.
  revert s. induction calls as [|c rest IH]; intros s Hend.
  { by exists s. }
  destruct (perform_ended fuel c s Hend)
    as (s1 & answer & Hrun & H1 & H2 & H3 & H4 & H5).
  destruct (IH s1 H1) as (later & Hrest & G1 & G2 & G3 & G4 & G5).
  exists later. cbn [run]. rewrite Hrun.
  by rewrite G2, G3, G4, G5, H2, H3, H4, H5.
Qed.

(** ** What every reachable driver satisfies *)

Lemma follows_refl (s : Driver) : follows s s.
Proof. split; [lia|]. by unfold keeps. Qed.

Lemma follows_trans (s1 s2 s3 : Driver) :
  follows s1 s2 -> follows s2 s3 -> follows s1 s3.
Proof.
  unfold follows, keeps. intros (H1 & H2 & H3 & H4) (G1 & G2 & G3 & G4).
  split; [lia|]. split; [|split]; eauto.
Qed.

Lemma reachable_initial : reachable createSessionDriver.
Proof. split; [done|]. split; [done|]. apply NoDup_nil_2. Qed.

Lemma reachable_note (l : Listener) (ctx : GameContext) (s : Driver) :
  reachable s -> reachable (note l ctx s) /\ follows s (note l ctx s).
Proof. intros Hs. split; [done|]. split; [cbn; lia|]. by unfold keeps. Qed.

Lemma reachable_subscribe (l : Listener) (s : Driver) :
  reachable s ->
  reachable (subscribe l s).1 /\ follows s (subscribe l s).1.
Proof.
  intros (Hinit & Hin & Hnd).
  assert (currentState (subscribe l s).1 = currentState s
          /\ sessionId (subscribe l s).1 = sessionId s
          /\ startTime (subscribe l s).1 = startTime s
          /\ sessionDurationMs (subscribe l s).1 = sessionDurationMs s)
    as (H1 & H2 & H3 & H4).
  { unfold subscribe, modify. cbn [fst]. by destruct (bool_decide _). }
  split.
  - unfold reachable. rewrite H1, H2, H3, H4. split; [done|]. split; [done|].
    rewrite members_subscribe.
    destruct (bool_decide_reflect (l ∈ members s)) as [|Hfresh]; [done|].
    apply NoDup_app. split; [done|]. split; [|apply NoDup_singleton].
    intros x Hx Hxl. by apply list_elem_of_singleton in Hxl as ->.
  - unfold follows, keeps. rewrite H1, H2, H3, H4. split; [lia | done].
Qed.

Lemma reachable_unsubscribe (l : Listener) (s : Driver) :
  reachable s ->
  reachable (unsubscribe l s).1 /\ follows s (unsubscribe l s).1.
Proof.
  intros (Hinit & Hin & Hnd). split.
  - split; [done|]. split; [done|].
    rewrite members_unsubscribe. by apply NoDup_filter.
  - split; [cbn; lia|]. by unfold keeps.
Qed.

Lemma reachable_begin (sid : string) (nowMs : Z) (s : Driver) :
  reachable s -> currentState s = INITIAL ->
  reachable (beginSession sid nowMs s)
  /\ follows s (beginSession sid nowMs s).
Proof.
  intros (Hinit & Hin & Hnd) Hstate.
  destruct (Hinit Hstate) as (Hsid & Hstart & Hdur).
  split; [by split|].
  unfold follows, keeps. rewrite Hstate, Hsid, Hstart. cbn. split; [lia|done].
Qed.

Lemma reachable_finish (nowMs : Z) (s : Driver) :
  reachable s -> currentState s = IN_SESSION ->
  reachable (finishSession nowMs s)
  /\ follows s (finishSession nowMs s).
Proof.
  intros (Hinit & Hin & Hnd) Hstate. split; [by split|].
  unfold follows, keeps. rewrite Hstate. cbn. rewrite (Hin Hstate).
  split; [lia|done].
Qed.

Section Nested.

Variable call : Call -> Run Answer.

Hypothesis Hcall :
  forall c s s' answer,
    reachable s -> call c s = Some (s', answer) ->
    reachable s' /\ follows s s'.

Lemma runScript_reachable (script : Script) (s s' : Driver)
    (outcome : Result unit) :
  reachable s -> runScript call script s = Some (s', outcome) ->
  reachable s' /\ follows s s'.
Proof.
  revert s. induction script as [|err|c next IH]; intros s Hs; cbn.
  - intros [= <- _]. split; [done | apply follows_refl].
  - intros [= <- _]. split; [done | apply follows_refl].
  - destruct (call c s) as [[s1 answer]|] eqn:Hc; [|done]. intros Hrun.
    destruct (Hcall c s s1 answer Hs Hc) as [Hs1 Hf1].
    destruct (IH answer s1 Hs1 Hrun) as [Hs' Hf']. split; [done|].
    by apply (follows_trans s s1 s').
Qed.

Lemma visit_reachable (steps index : nat) (ctx : GameContext) (s s' : Driver)
    (outcome : Result unit) :
  reachable s -> visit behaviour call steps index ctx s = Some (s', outcome) ->
  reachable s' /\ follows s s'.
Proof.
  revert index s. induction steps as [|steps IH]; intros index s Hs; cbn [visit].
  - destruct (listeners s !! index); [done|]. intros [= <- _].
    split; [done | apply follows_refl].
  - destruct (listeners s !! index) as [[l|]|].
    + unfold mbind at 1. unfold Run_bind at 1. unfold tryCatchRun.
      unfold mbind at 1. unfold Run_bind at 1. unfold once, modify.
      destruct (runScript call (behaviour (notifications s) l ctx)
                  (note l ctx s)) as [[s1 r]|] eqn:Hscript; [|done].
      destruct (reachable_note l ctx s Hs) as [Hn Hfn].
      destruct (runScript_reachable _ _ _ _ Hn Hscript) as [Hs1 Hf1].
      assert (visit behaviour call steps (S index) ctx s1
              = Some (s', outcome) ->
              reachable s' /\ follows s s') as Hnext.
      { intros Hrun. destruct (IH _ _ Hs1 Hrun) as [Hs' Hf'].
        split; [done|].
        apply (follows_trans s (note l ctx s) s'); [done|].
        by apply (follows_trans _ s1 s'). }
      destruct r; exact Hnext.
    + apply IH. done.
    + intros [= <- _]. split; [done | apply follows_refl].
Qed.

Lemma notifyListeners_reachable (steps : nat) (s s' : Driver)
    (outcome : Result unit) :
  reachable s -> notifyListeners behaviour call steps s = Some (s', outcome) ->
  reachable s' /\ follows s s'.
Proof.
  intros Hs. unfold notifyListeners, mbind, Run_bind, once.
  pose proof (createContextSnapshot_state s) as Hsame.
  destruct (createContextSnapshot s) as [s0 [ctx|err]]; cbn in Hsame; subst s0.
  - by apply visit_reachable.
  - intros [= <- _]. split; [done | apply follows_refl].
Qed.

End Nested.

Lemma perform_reachable (fuel : nat) (c : Call) (s s' : Driver)
    (answer : Result Answer) :
  reachable s -> perform behaviour fuel c s = Some (s', answer) ->
  reachable s' /\ follows s s'.
Proof.
  revert c s s' answer. induction fuel as [|fuel IH]; [done|].
  intros c s s' answer Hs.
  assert (Hsame : Some (s, answer) = Some (s', answer) ->
                  reachable s' /\ follows s s').
  { intros [= <-]. split; [done | apply follows_refl]. }
  assert (Hnotify : forall s0 (m : Run unit),
            reachable s0 -> follows s s0 ->
            m s = notifyListeners behaviour (perform behaviour fuel) fuel s0 ->
            (m ≫= λ _ : (), mret Nothing) s = Some (s', answer) ->
            reachable s' /\ follows s s').
  { intros s0 m Hs0 Hf0 Hm. unfold mbind, Run_bind. rewrite Hm.
    destruct (notifyListeners behaviour (perform behaviour fuel) fuel s0)
      as [[s1 r]|] eqn:Hrun; [|done].
    destruct (notifyListeners_reachable _ IH _ _ _ _ Hs0 Hrun) as [Hs1 Hf1].
    assert (Some (s1, answer) = Some (s', answer) ->
            reachable s' /\ follows s s') as Hdone.
    { intros [= <-]. split; [done|]. by apply (follows_trans s s0 s1). }
    destruct r; intros [= <- <-]; by apply Hdone. }
  destruct c as [sid nowMs|reason nowMs|reason nowMs|l|l| |].
  - destruct (decide (currentState s = INITIAL)) as [Hinit|Hother].
    + destruct (reachable_begin sid nowMs s Hs Hinit) as [Hb Hfb].
      cbn [perform]. apply (Hnotify _ _ Hb Hfb).
      unfold startSession, mbind, Run_bind, once, gets, modify.
      rewrite Hinit.
      by rewrite bool_decide_eq_false_2 by (intros H; by apply H).
    + rewrite startSession_throws by done. intros [= <- _].
      split; [done | apply follows_refl].
  - destruct (decide (currentState s = IN_SESSION)) as [Hin|Hother].
    + destruct (reachable_finish nowMs s Hs Hin) as [Hb Hfb].
      cbn [perform]. apply (Hnotify _ _ Hb Hfb). by apply endSession_spec.
    + rewrite endSession_throws by done. intros [= <- _].
      split; [done | apply follows_refl].
  - destruct (decide (currentState s = IN_SESSION)) as [Hin|Hother].
    + destruct (reachable_finish nowMs s Hs Hin) as [Hb Hfb].
      cbn [perform]. apply (Hnotify _ _ Hb Hfb). by apply abortSession_spec.
    + rewrite abortSession_throws by done. intros [= <- _].
      split; [done | apply follows_refl].
  - intros [= <- _]. by apply reachable_subscribe.
  - intros [= <- _]. by apply reachable_unsubscribe.
  - rewrite perform_getContext. intros [= <- _].
    split; [done | apply follows_refl].
  - intros [= <- _]. split; [done | apply follows_refl].
Qed.

Lemma run_reachable (fuel : nat) (calls : list Call) (s s' : Driver) :
  reachable s -> run behaviour fuel calls s = Some s' ->
  reachable s' /\ follows s s'.
Proof.
  revert s. induction calls as [|c rest IH]; intros s Hs; cbn [run].
  { intros [= <-]. split; [done | apply follows_refl]. }
  destruct (perform behaviour fuel c s) as [[s1 answer]|] eqn:Hc; [|done].
  intros Hrun. destruct (perform_reachable _ _ _ _ _ Hs Hc) as [Hs1 Hf1].
  destruct (IH s1 Hs1 Hrun) as [Hs' Hf']. split; [done|].
  by apply (follows_trans s s1 s').
Qed.

(** ** A listener that resubscribes itself *)



Lemma driven_session (sid reason : string) (started ended : Z)
    (s : Driver) (fuel : nat) :
  quiet behaviour -> currentState s = INITIAL ->
  (List.length (listeners s) <= fuel)%nat ->
  0 <= started -> started <= ended ->
  let elapsed := JsNumber.nearestDouble (ended - started) in
  exists s1 s2,
    perform behaviour (S fuel) (StartSession sid started) s
    = Some (s1, Ok Nothing)
    /\ getContext s1 = (s1, Ok (InSessionContext sid started))
    /\ currentState s1 = IN_SESSION
    /\ perform behaviour (S fuel) (EndSession reason ended) s1
       = Some (s2, Ok Nothing)
    /\ perform behaviour (S fuel) (AbortSession reason ended) s1
       = Some (s2, Ok Nothing)
    /\ getContext s2 = (s2, Ok (SessionEndedContext sid elapsed))
    /\ currentState s2 = ENDED
    /\ notifications s2
       = (notifications s
            ++ map (told (InSessionContext sid started)) (members s)
            ++ map (told (SessionEndedContext sid elapsed)) (members s))%list.
Proof.
  intros Hquiet Hinit Hlen Hpos Hle. cbn zeta.
  set (elapsed := JsNumber.nearestDouble (ended - started)).
  assert (0 <= elapsed) as Helapsed
    by (apply nearestDouble_sign; lia).
  set (ctx1 := InSessionContext sid started).
  set (s1 := notes ctx1 (members s) (beginSession sid started s)).
  destruct (notes_fields ctx1 (members s) (beginSession sid started s))
    as (H1 & H2 & H3 & H4 & H5 & H6). fold s1 in H1, H2, H3, H4, H5, H6.
  cbn [beginSession currentState sessionId startTime sessionDurationMs
         listeners notifications] in H1, H2, H3, H4, H5, H6.
  assert (members s1 = members s) as Hmembers
    by exact (members_notes ctx1 (members s) (beginSession sid started s)).
  destruct (perform_end_quiet fuel sid reason started ended s1 Hquiet H1 H2 H3)
    as [Hend Habort]; [by rewrite H5|].
  cbn zeta in Hend, Habort. fold elapsed in Hend, Habort.
  destruct (Z.ltb_spec elapsed 0) as [|_]; [lia|].
  rewrite Hmembers in Hend, Habort.
  set (ctx2 := SessionEndedContext sid elapsed) in *.
  set (s2 := notes ctx2 (members s) (finishSession ended s1)) in *.
  destruct (notes_fields ctx2 (members s) (finishSession ended s1))
    as (G1 & G2 & G3 & G4 & G5 & G6). fold s2 in G1, G2, G3, G4, G5, G6.
  cbn [finishSession currentState sessionId startTime sessionDurationMs
         listeners notifications] in G1, G2, G3, G4, G5, G6.
  rewrite H3 in G4. cbn [default from_option id] in G4. fold elapsed in G4.
  exists s1, s2.
  split; [by apply perform_start_quiet|].
  split; [by apply getContext_in_session|]. split; [done|].
  split; [done|]. split; [done|]. split.
  { rewrite (getContext_ended sid elapsed) by (by rewrite ?G2, ?H2).
    by destruct (Z.ltb_spec elapsed 0) as [|_]; [lia|]. }
  split; [done|].
  rewrite G6, H6. by rewrite <- app_assoc.
Qed.

(** X8.  A session started at a valid clock reading and ended no earlier
    reads back as it was driven, when the listeners do not call the driver:
    the snapshot in session carries the id and the start time, the snapshot
    after the end carries the id and the time elapsed, as the subtraction
    of doubles gives it, which is the exact difference below [2^53];
    [abortSession] does what [endSession] does; and each listener was
    handed the two snapshots. *)
Theorem session_round_trip (sid reason : string) (started ended : Z)
    (s : Driver) (fuel : nat) :
  quiet behaviour -> currentState s = INITIAL ->
  (List.length (listeners s) <= fuel)%nat ->
  0 <= started -> started <= ended ->
  let elapsed := JsNumber.nearestDouble (ended - started) in
  exists s1 s2,
    perform behaviour (S fuel) (StartSession sid started) s
    = Some (s1, Ok Nothing)
    /\ getContext s1 = (s1, Ok (InSessionContext sid started))
    /\ isSessionActive s1 = (s1, Ok true)
    /\ perform behaviour (S fuel) (EndSession reason ended) s1
       = Some (s2, Ok Nothing)
    /\ perform behaviour (S fuel) (AbortSession reason ended) s1
       = Some (s2, Ok Nothing)
    /\ getContext s2 = (s2, Ok (SessionEndedContext sid elapsed))
    /\ isSessionActive s2 = (s2, Ok false)
    /\ (ended < 2 ^ 53 -> elapsed = ended - started)
    /\ notifications s2
       = (notifications s
            ++ map (told (InSessionContext sid started)) (members s)
            ++ map (told (SessionEndedContext sid elapsed)) (members s))%list.
Proof.
  intros Hquiet Hinit Hlen Hpos Hle. cbn zeta.
  destruct (driven_session sid reason started ended s fuel Hquiet Hinit Hlen
              Hpos Hle)
    as (s1 & s2 & Hstart & Hctx1 & Hin & Hend & Habort & Hctx2 & Hended
        & Hnotes).
  cbn zeta in Hctx2, Hnotes. exists s1, s2.
  split; [done|]. split; [done|].
  split; [by rewrite isSessionActive_spec, Hin|].
  split; [done|]. split; [done|]. split; [done|].
  split; [by rewrite isSessionActive_spec, Hended|].
  split; [intros Hsafe; apply nearestDouble_exact; lia | done].
Qed.

(** X9.  The driver moves to [ENDED] before it checks the duration.  When
    the clock reads less at the end than at the start, [endSession] throws
    after the move: no listener is called, and from then on every read of
    the context throws, and with it every event sent through the gate.
    The error carries the negative duration. *)
Theorem end_before_start (sid reason : string) (started ended : Z)
    (s : Driver) (calls : list Call) (options : EventGate.GatedEmitOptions)
    (event : Fields) (fuel : nat) :
  quiet behaviour -> currentState s = INITIAL ->
  (List.length (listeners s) <= fuel)%nat ->
  0 <= started -> ended < started ->
  let carried := JsNumber.nearestDouble (ended - started) in
  exists s1 s2 later,
    perform behaviour (S fuel) (StartSession sid started) s
    = Some (s1, Ok Nothing)
    /\ perform behaviour (S fuel) (EndSession reason ended) s1
       = Some (s2, Throw (InvalidDurationError carried))
    /\ carried < 0
    /\ (- 2 ^ 53 < ended - started -> carried = ended - started)
    /\ currentState s2 = ENDED
    /\ notifications s2 = notifications s1
    /\ run behaviour (S fuel) calls s2 = Some later
    /\ (getContext later).2 = Throw (InvalidDurationError carried)
    /\ (gatedEmit options event later).2
       = Throw (InvalidDurationError carried).
Proof.
  intros Hquiet Hinit Hlen Hpos Hlt. cbn zeta.
  set (carried := JsNumber.nearestDouble (ended - started)).
  assert (carried < 0) as Hcarried by (apply nearestDouble_sign; lia).
  set (ctx1 := InSessionContext sid started).
  set (s1 := notes ctx1 (members s) (beginSession sid started s)).
  destruct (notes_fields ctx1 (members s) (beginSession sid started s))
    as (H1 & H2 & H3 & H4 & H5 & H6). fold s1 in H1, H2, H3, H4, H5, H6.
  cbn [beginSession currentState sessionId startTime sessionDurationMs
         listeners notifications] in H1, H2, H3, H4, H5, H6.
  destruct (perform_end_quiet fuel sid reason started ended s1 Hquiet H1 H2 H3)
    as [Hend _]; [by rewrite H5|].
  cbn zeta in Hend. fold carried in Hend.
  destruct (Z.ltb_spec carried 0) as [_|]; [|lia].
  set (s2 := finishSession ended s1) in *.
  assert (sessionDurationMs s2 = Some carried) as Hdur.
  { unfold s2, finishSession. cbn [sessionDurationMs]. by rewrite H3. }
  destruct (run_ended fuel calls s2 eq_refl)
    as (later & Hrun & G1 & G2 & G3 & G4 & G5).
  assert (getContext later = (later, Throw (InvalidDurationError carried)))
    as Hctx.
  { rewrite (getContext_ended sid carried) by (by rewrite ?G2, ?G4).
    by destruct (Z.ltb_spec carried 0) as [_|]; [|lia]. }
  exists s1, s2, later.
  split; [by apply perform_start_quiet|]. split; [done|]. split; [done|].
  split; [intros Hsafe; apply nearestDouble_exact; lia|].
  split; [done|]. split; [done|]. split; [done|].
  split; [by rewrite Hctx|].
  unfold gatedEmit, mbind, Eff_bind. by rewrite Hctx.
Qed.

(** X10.  [ENDED] is final.  Whatever is called on an ended driver, and
    whatever its listeners would do, the calls return, no listener is
    called, the state and the session data stay as they are; and each of
    the three transitions still throws, naming the state. *)
Theorem ended_is_final (calls : list Call) (s : Driver) (sid reason : string)
    (nowMs : Z) (fuel : nat) :
  currentState s = ENDED ->
  exists later,
    run behaviour (S fuel) calls s = Some later
    /\ currentState later = ENDED
    /\ sessionId later = sessionId s
    /\ startTime later = startTime s
    /\ sessionDurationMs later = sessionDurationMs s
    /\ notifications later = notifications s
    /\ perform behaviour (S fuel) (StartSession sid nowMs) later
       = Some (later,
               Throw (SdkError
                        "[SDK] Cannot start session: already in state ENDED"))
    /\ perform behaviour (S fuel) (EndSession reason nowMs) later
       = Some (later,
               Throw (SdkError
                        "[SDK] Cannot end session: not in session (state: ENDED)"))
    /\ perform behaviour (S fuel) (AbortSession reason nowMs) later
       = Some (later,
               Throw (SdkError
                        "[SDK] Cannot abort session: not in session (state: ENDED)")).
Proof.
  intros Hend.
  destruct (run_ended fuel calls s Hend) as (later & Hrun & H1 & H2 & H3 & H4 & H5).
  exists later. repeat (split; [done|]).
  rewrite startSession_throws, endSession_throws, abortSession_throws
    by by rewrite H1.
  by rewrite H1.
Qed.

(** X11.  A driver serves one session.  On any driver that has been reached,
    whatever its listeners do, further calls move the state forward only,
    and the session id, the start time and the duration stay as they are
    once they are set.  With listeners that do not call the driver every
    sequence of calls is carried out. *)
Theorem one_session_per_driver (calls more : list Call) (fuel : nat) :
  (forall driver later,
     run behaviour fuel calls createSessionDriver = Some driver ->
     run behaviour fuel more driver = Some later ->
     (rank (currentState driver) <= rank (currentState later))%nat
     /\ keeps (sessionId driver) (sessionId later)
     /\ keeps (startTime driver) (startTime later)
     /\ keeps (sessionDurationMs driver) (sessionDurationMs later))
  /\ (quiet behaviour ->
      (List.length calls + List.length more < fuel)%nat ->
      exists driver later,
        run behaviour fuel calls createSessionDriver = Some driver
        /\ run behaviour fuel more driver = Some later).
Proof.
  split.
  - intros driver later Hcalls Hmore.
    destruct (run_reachable _ _ _ _ reachable_initial Hcalls) as [Hreach _].
    by destruct (run_reachable _ _ _ _ Hreach Hmore) as [_ Hfollows].
  - intros Hquiet Hfuel.
    assert (forall l s, orderly s ->
              (List.length (listeners s) + List.length l < fuel)%nat ->
              exists s', run behaviour fuel l s = Some s'
                         /\ orderly s'
                         /\ (List.length (listeners s')
                             <= List.length (listeners s) + List.length l)%nat)
      as Hruns.
    { induction l as [|c rest IH]; intros s Hord Hlen.
      { exists s. split; [done|]. split; [done|]. lia. }
      destruct fuel as [|fuel']; [lia|]. cbn [List.length] in Hlen.
      destruct (perform_orderly behaviour Hquiet fuel' c s Hord)
        as (s1 & answer & Hrun & Hord1 & Hls & _); [lia|].
      destruct (IH s1 Hord1) as (s' & Hrest & Hord' & Hls'); [lia|].
      exists s'. cbn [run List.length]. rewrite Hrun.
      split; [done|]. split; [done|]. lia. }
    destruct (Hruns calls createSessionDriver orderly_initial)
      as (driver & Hcalls & Hord & Hls); [cbn; lia|].
    destruct (Hruns more driver Hord) as (later & Hmore & _); [cbn in Hls; lia|].
    by exists driver, later.
Qed.






(** X14.  The guards on a snapshot tell the state of the driver it was read
    from: exactly the guard of that state holds, [isSessionActive] agrees
    with [isInSessionContext], and [assertInSession] returns exactly when
    the session is active. *)
Theorem context_guards_follow_driver (s : Driver) (context : GameContext) :
  (getContext s).2 = Ok context ->
  isInitialContext context = bool_decide (currentState s = INITIAL)
  /\ isInSessionContext context = bool_decide (currentState s = IN_SESSION)
  /\ isSessionEndedContext context = bool_decide (currentState s = ENDED)
  /\ (isSessionActive s).2 = Ok (isInSessionContext context)
  /\ (assertInSession context = Ok ()
      <-> isInSessionContext context = true).
Proof.
  intros Hctx. apply createContextSnapshot_shape in Hctx.
  unfold isInitialContext, isInSessionContext, isSessionEndedContext,
    assertInSession.
  rewrite Hctx. repeat (split; [done|]).
  destruct (currentState s); cbn; split; done.
Qed.

End DriverProperties.


Lemma session_round_trip_witness :
  exists s1 s2,
    Session.perform silent 4 (Session.StartSession "s1" 100)
      Session.createSessionDriver = Some (s1, Ok Session.Nothing)
    /\ Session.perform silent 4 (Session.EndSession "completed" 250) s1
       = Some (s2, Ok Session.Nothing)
    /\ Session.getContext s2 = (s2, Ok (SessionEndedContext "s1" 150)).
Proof.
  destruct (session_round_trip silent "s1" "completed" 100 250
              Session.createSessionDriver 3)
    as (s1 & s2 & H1 & _ & _ & H4 & _ & H6 & _ & H8 & _);
    [apply quiet_silent | reflexivity | cbn; lia | lia | lia |].
  exists s1, s2. split; [exact H1|]. split; [exact H4|].
  rewrite H6. by rewrite H8 by lia.
Defined.

Lemma end_before_start_witness :
  exists s1 s2 later,
    Session.perform silent 4 (Session.StartSession "s1" 100)
      Session.createSessionDriver = Some (s1, Ok Session.Nothing)
    /\ Session.perform silent 4 (Session.EndSession "completed" 40) s1
       = Some (s2, Throw (InvalidDurationError (40 - 100)))
    /\ Session.run silent 4 [Session.GetContext] s2 = Some later
    /\ (gatedEmit (gatedEmitOptions true) (list_to_map devLog) later).2
       = Throw (InvalidDurationError (40 - 100)).
Proof.
  destruct (end_before_start silent "s1" "completed" 100 40
              Session.createSessionDriver [Session.GetContext]
              (gatedEmitOptions true) (list_to_map devLog) 3)
    as (s1 & s2 & later & H1 & H2 & _ & H4 & _ & _ & H7 & _ & H9);
    [apply quiet_silent | reflexivity | cbn; lia | lia | lia |].
  exists s1, s2, later. rewrite <- H4 by lia. by repeat split.
Defined.

Lemma ended_is_final_witness :
  exists later,
    Session.run silent 1
      [Session.StartSession "s2" 300; Session.EndSession "completed" 400]
      endedDriver = Some later
    /\ Session.currentState later = ENDED
    /\ Session.sessionId later = Session.sessionId endedDriver.
Proof.
  destruct (ended_is_final silent
              [Session.StartSession "s2" 300;
               Session.EndSession "completed" 400] endedDriver
              "s3" "completed" 500 0)
    as (later & H0 & H1 & H2 & _); [reflexivity|].
  by exists later.
Defined.


Lemma context_guards_follow_driver_witness :
  isSessionEndedContext (SessionEndedContext "s1" 150)
  = bool_decide (Session.currentState endedDriver = ENDED)
  /\ (assertInSession (SessionEndedContext "s1" 150) = Ok ()
      <-> isInSessionContext (SessionEndedContext "s1" 150) = true).
Proof.
  destruct (context_guards_follow_driver endedDriver
              (SessionEndedContext "s1" 150))
    as (_ & _ & H3 & _ & H5); [reflexivity|]. by split.
Defined.

(* ================================================================== *)
(** * The gate on its driver *)
(* ================================================================== *)

Section GateOnDriver.
Import Session EventGate.

Variable behaviour : ListenerBehaviour.





End GateOnDriver.


(* ================================================================== *)
(** * Further properties of the emitter *)
(* ================================================================== *)

Lemma process_outcome (config : EventEmitterConfig) (env : EmitEnv)
    (event : JsValue) (s : Emitter) :
  EmitOutcome config env s (process config env event s).1.
Proof.
  unfold process, mbind, Eff_bind, tryCatchEff, lift, modify, mret, Eff_ret.
  assert (EmitOutcome config env s (countDropped s)) as Hdrop
    by by apply Dropped.
  assert (forall m,
    EmitOutcome config env s
      (match validateEvent event m with
       | Ok result =>
           if negb (valid result) then (countDropped s, Ok ())
           else
             match createTimestamp (timestampNow env) with
             | Ok timestamp =>
                 match
                   deliver 0 (handlers config)
                     {| EmittedEvent.event := eventOr result event;
                        EmittedEvent.timestamp := timestamp;
                        EmittedEvent.sessionId := getSessionId env;
                        EmittedEvent.gameId := gameId config;
                        EmittedEvent.sdkVersion := sdkVersion config |} s
                 with
                 | (s', Ok _) => (countEvent s', Ok ())
                 | (s', Throw err) => (s', Throw err)
                 end
             | Throw err => (s, Throw err)
             end
       | Throw _ => (countDropped s, Ok ())
       end).1) as Hrest.
  { intros m. destruct (validateEvent event m) as [result|]; [|done].
    destruct (valid result); cbn [negb]; [|done].
    unfold createTimestamp.
    destruct (Z.ltb_spec (timestampNow env) 0) as [Hneg|_].
    - apply Uncounted; try done. by right.
    - rewrite deliver_spec. by eapply Delivered. }
  destruct (mode config) eqn:Hmode.
  - destruct (getProp event "type") as [type|];
      [|apply Uncounted; try done; by left].
    destruct (isStringLiteral type "DEV_LOG");
      [apply Uncounted; try done; by left|].
    specialize (Hrest production).
    destruct (validateEvent event production) as [result|]; [|done].
    destruct (valid result); cbn [negb] in *; [|done].
    destruct (createTimestamp _); [|done].
    by rewrite deliver_spec in *.
  - specialize (Hrest development).
    destruct (validateEvent event development) as [result|]; [|done].
    destruct (valid result); cbn [negb] in *; [|done].
    destruct (createTimestamp _); [|done].
    by rewrite deliver_spec in *.
Qed.

Lemma emit_outcome (config : EventEmitterConfig) (env : EmitEnv)
    (event : JsValue) (s : Emitter) :
  EmitOutcome config env s (emit config env event s).1.
Proof.
  rewrite emit_unfold. destruct (admitted (now env) s).
  - destruct (process_outcome config env event
                (countInWindow (windowAt (now env) s)))
      as [emittedEvent H1 H2 H3|H1 H2 H3|H1 H2 H3 H4];
      assert (eventCount (countInWindow (windowAt (now env) s))
              = eventCount s
              /\ droppedCount (countInWindow (windowAt (now env) s))
                 = droppedCount s
              /\ handlerCalls (countInWindow (windowAt (now env) s))
                 = handlerCalls s) as (E1 & E2 & E3)
        by (unfold windowAt; by destruct (_ <=? _));
      rewrite E1 in H1; rewrite E2 in H2; rewrite E3 in H3.
    + by eapply Delivered.
    + by apply Dropped.
    + by apply Uncounted.
  - cbn [fst]. unfold windowAt. by destruct (_ <=? _); apply Dropped.
Qed.

(** X17.  The two counters account for the calls.  Neither counter ever
    goes down, together they grow by at most one per call, and in
    development mode, with the wall clock at or after the epoch, by
    exactly one: every call is either delivered or counted as dropped. *)
Theorem emit_accounting (config : EventEmitterConfig)
    (calls : list (EmitEnv * JsValue)) (s : Emitter) :
  let final := emitAll config calls s in
  eventCount s <= eventCount final
  /\ droppedCount s <= droppedCount final
  /\ eventCount final + droppedCount final
     <= eventCount s + droppedCount s + Z.of_nat (List.length calls)
  /\ (mode config = development ->
      Forall (fun c => 0 <= timestampNow c.1) calls ->
      eventCount final + droppedCount final
      = eventCount s + droppedCount s + Z.of_nat (List.length calls)).
Proof.
  revert s. induction calls as [|[env event] rest IH]; intros s; cbn zeta.
  { cbn. repeat split; lia. }
  cbn [emitAll]. destruct (IH (emit config env event s).1)
    as (G1 & G2 & G3 & G4). cbn zeta in *.
  rewrite length_cons, Nat2Z.inj_succ.
  destruct (emit_outcome config env event s)
    as [emittedEvent H1 H2 H3|H1 H2 H3|H1 H2 H3 H4];
    rewrite H1, H2 in *.
  - repeat split; try lia. intros Hdev Hall.
    apply Forall_cons in Hall as [_ Hall]. specialize (G4 Hdev Hall). lia.
  - repeat split; try lia. intros Hdev Hall.
    apply Forall_cons in Hall as [_ Hall]. specialize (G4 Hdev Hall). lia.
  - repeat split; try lia. intros Hdev Hall.
    apply Forall_cons in Hall as [Hclock _]. cbn in Hclock.
    destruct H4 as [Hprod|Hneg]; [congruence | lia].
Qed.

(** X18.  Handlers are only ever called in complete rounds.  Whatever was
    emitted, and whatever threw on the way, the record of the handler calls
    is one round per delivered event: every registered handler, once, in
    order, with that event. *)
Theorem handlers_called_in_rounds (config : EventEmitterConfig)
    (calls : list (EmitEnv * JsValue)) (s : Emitter) :
  let final := emitAll config calls s in
  exists delivered : list EmittedEvent.t,
    Z.of_nat (List.length delivered) = eventCount final - eventCount s
    /\ handlerCalls final
       = (handlerCalls s
            ++ mjoin (map (fanOut 0 (handlers config)) delivered))%list.
Proof.
  revert s. induction calls as [|[env event] rest IH]; intros s; cbn zeta.
  { exists []. cbn. split; [lia | by rewrite app_nil_r]. }
  cbn [emitAll]. destruct (IH (emit config env event s).1)
    as (delivered & Hlen & Hcalls). cbn zeta in *.
  destruct (emit_outcome config env event s)
    as [emittedEvent H1 H2 H3|H1 H2 H3|H1 H2 H3 H4];
    rewrite H1 in Hlen; rewrite H3 in Hcalls.
  - exists (emittedEvent :: delivered). split.
    + rewrite length_cons, Nat2Z.inj_succ. lia.
    + rewrite Hcalls. cbn [map mjoin list_join]. by rewrite <- app_assoc.
  - by exists delivered.
  - by exists delivered.
Qed.

Lemma admittedCalls_length (config : EventEmitterConfig)
    (calls : list (EmitEnv * JsValue)) (s : Emitter) :
  0 <= eventsInWindow s ->
  eventsInWindow s + Z.of_nat (List.length calls) <= MAX_EVENTS_PER_SECOND ->
  Forall (fun c => now c.1 - rateLimitWindowStart s < RATE_LIMIT_WINDOW_MS)
         calls ->
  List.length (admittedCalls config calls s) = List.length calls.
Proof.
  revert s. induction calls as [|[env event] rest IH]; intros s Hpos Hroom Hall;
    [done|].
  apply Forall_cons in Hall as [Hnow Hall]. cbn in Hnow.
  rewrite length_cons, Nat2Z.inj_succ in Hroom.
  cbn [admittedCalls].
  destruct (emit_window config env event s) as [Hstart Hcount].
  cbn zeta in *.
  assert (windowAt (now env) s = s) as Hsame.
  { unfold windowAt. by destruct (Z.leb_spec RATE_LIMIT_WINDOW_MS
                                    (now env - rateLimitWindowStart s));
      [lia|]. }
  assert (admitted (now env) s = true) as Hadm.
  { unfold admitted. rewrite Hsame.
    by destruct (Z.leb_spec MAX_EVENTS_PER_SECOND (eventsInWindow s));
      [lia|]. }
  rewrite Hadm, Hsame in *. rewrite length_app. cbn [List.length].
  rewrite IH; [done | lia | lia |].
  by rewrite Hstart.
Qed.

(** X19.  [resetRateLimiter] opens a fresh window at the time it is called:
    it leaves the counters and the handlers' record alone, and whatever was
    refused before, the next fifty calls within a second of the reset are
    all let through. *)
Theorem reset_restores_budget (config : EventEmitterConfig) (dateNow : Z)
    (calls : list (EmitEnv * JsValue)) (s : Emitter) :
  (List.length calls <= 50)%nat ->
  Forall (fun c => now c.1 - dateNow < RATE_LIMIT_WINDOW_MS) calls ->
  let fresh := (resetRateLimiter dateNow s).1 in
  eventCount fresh = eventCount s
  /\ droppedCount fresh = droppedCount s
  /\ handlerCalls fresh = handlerCalls s
  /\ List.length (admittedCalls config calls fresh) = List.length calls.
Proof.
  intros Hlen Hall. cbn zeta. unfold resetRateLimiter, modify. cbn [fst].
  split; [done|]. split; [done|]. split; [done|].
  apply admittedCalls_length;
    cbn [resetWindow eventsInWindow rateLimitWindowStart]; try done.
  unfold MAX_EVENTS_PER_SECOND. lia.
Qed.

Lemma reset_restores_budget_witness :
  admitted 20 (emitAll prodConfig (replicate 50 (envAt 10, obj devLog))
                 (createEventEmitter 0)) = false
  /\ List.length
       (admittedCalls prodConfig (replicate 50 (envAt 20, obj errorMade))
          (resetRateLimiter 15
             (emitAll prodConfig (replicate 50 (envAt 10, obj devLog))
                (createEventEmitter 0))).1)
     = List.length (replicate 50 (envAt 20, obj errorMade)).
Proof.
  split; [by vm_compute|].
  apply (reset_restores_budget prodConfig 15
           (replicate 50 (envAt 20, obj errorMade))).
  - vm_compute. lia.
  - apply Forall_replicate. vm_compute. reflexivity.
Defined.

(* ================================================================== *)
(** * Properties: state migration *)
(* ================================================================== *)

Section MigratorProperties.
Import StateMigrator.

Context {State : Type}.
Variable migrations : gmap Z (@Migration State).

Lemma migrateLoop_app (n k : nat) (state : State) (version : Z) :
  migrateLoop migrations (n + k) state version
  = (middle ← migrateLoop migrations n state version;
     migrateLoop migrations k middle (version + Z.of_nat n)).
Proof.
  revert state version. induction n as [|n IH]; intros state version.
  - cbn. by rewrite Z.add_0_r.
  - cbn [Nat.add migrateLoop].
    destruct (migrations !! (version + 1)) as [m|]; [|done].
    cbn. destruct (m state) as [next|err]; cbn; [|done].
    rewrite IH. by replace (version + 1 + Z.of_nat n)
                      with (version + Z.of_nat (S n)) by lia.
Qed.

(** X20.  Migrating to a version the state is already at, or past, returns
    the state as it is, without looking for a migration: nothing is ever
    migrated downwards, and no error is raised for it. *)
Theorem migrate_not_upwards (state : State) (fromVersion toVersion : Z) :
  toVersion <= fromVersion ->
  createStateMigrator migrations state fromVersion toVersion = Ok state.
Proof.
  intros Hle. unfold createStateMigrator.
  by replace (Z.to_nat (toVersion - fromVersion)) with 0%nat by lia.
Qed.

(** X21.  Migrating in two legs is migrating in one: going from [a] to [c]
    is going from [a] to [b] and on from [b] to [c], failures included. *)
Theorem migrate_in_legs (state : State) (a b c : Z) :
  a <= b -> b <= c ->
  createStateMigrator migrations state a c
  = (middle ← createStateMigrator migrations state a b;
     createStateMigrator migrations middle b c).
Proof.
  intros Hab Hbc. unfold createStateMigrator.
  replace (Z.to_nat (c - a))
    with (Z.to_nat (b - a) + Z.to_nat (c - b))%nat by lia.
  rewrite migrateLoop_app.
  by replace (a + Z.of_nat (Z.to_nat (b - a))) with b by lia.
Qed.

Lemma migrateLoop_needs (n : nat) (state final : State) (version v : Z) :
  migrateLoop migrations n state version = Ok final ->
  version < v <= version + Z.of_nat n ->
  is_Some (migrations !! v).
Proof.
  revert state version. induction n as [|n IH]; intros state version Hok Hv;
    [lia|].
  cbn [migrateLoop] in Hok.
  destruct (migrations !! (version + 1)) as [m|] eqn:Hm; [|done].
  destruct (decide (v = version + 1)) as [->|Hne]; [by eexists|].
  cbn in Hok. destruct (m state) as [next|err]; [|done]. cbn in Hok.
  apply (IH next (version + 1)); [done | lia].
Qed.

(** X22.  A migration that returns has found a step for every version on
    the way; and the first missing step is reported as such once the steps
    before it have run. *)
Theorem migrate_needs_every_step (state : State) (fromVersion toVersion : Z) :
  (forall final v,
     createStateMigrator migrations state fromVersion toVersion = Ok final ->
     fromVersion < v <= toVersion ->
     is_Some (migrations !! v))
  /\ (forall middle v,
        fromVersion <= v < toVersion ->
        createStateMigrator migrations state fromVersion v = Ok middle ->
        migrations !! (v + 1) = None ->
        createStateMigrator migrations state fromVersion toVersion
        = Throw (SdkError ("Missing migration from version "
                             ++ pretty v ++ " to " ++ pretty (v + 1)))).
Proof.
  split.
  - intros final v Hok Hv. unfold createStateMigrator in Hok.
    apply (migrateLoop_needs _ _ _ _ v Hok). lia.
  - intros middle v Hv Hmid Hnone. unfold createStateMigrator in *.
    replace (Z.to_nat (toVersion - fromVersion))
      with (Z.to_nat (v - fromVersion)
              + S (Z.to_nat (toVersion - v - 1)))%nat by lia.
    rewrite (migrateLoop_app _ _ state fromVersion), Hmid.
    replace (fromVersion + Z.of_nat (Z.to_nat (v - fromVersion)))
      with v by lia.
    unfold mbind, Result_bind. cbn [migrateLoop].
    unfold Migration in *. by rewrite Hnone.
Qed.

End MigratorProperties.

Lemma migrate_not_upwards_witness :
  StateMigrator.createStateMigrator counterMigrations 5 3 1 = Ok 5.
Proof. apply migrate_not_upwards. lia. Defined.

Lemma migrate_in_legs_witness :
  StateMigrator.createStateMigrator counterMigrations 5 1 3
  = (middle ← StateMigrator.createStateMigrator counterMigrations 5 1 2;
     StateMigrator.createStateMigrator counterMigrations middle 2 3).
Proof. apply migrate_in_legs; lia. Defined.

(* ================================================================== *)
(** * Properties: metadata and registration *)
(* ================================================================== *)

Section Registration.
Import Metadata CreateGame.

Lemma size_list_to_set_le (l : list Capability) :
  (size (list_to_set l : gset Capability) <= List.length l)%nat.
Proof.
  induction l as [|x l IH]; [done|]. cbn [list_to_set List.length].
  rewrite size_union_alt, size_singleton.
  assert (size (list_to_set l ∖ {[x]} : gset Capability)
          <= size (list_to_set l : gset Capability))%nat
    by (apply subseteq_size; by apply subseteq_difference_l).
  lia.
Qed.

Lemma size_list_to_set_NoDup (l : list Capability) :
  size (list_to_set l : gset Capability) = List.length l <-> NoDup l.
Proof.
  split; [|apply size_list_to_set].
  induction l as [|x l IH]; [intros _; apply NoDup_nil_2|].
  cbn [list_to_set List.length]. intros Hsize.
  destruct (decide (x ∈ l)) as [Hin|Hfresh].
  - assert ({[x]} ∪ list_to_set l = (list_to_set l : gset Capability)) as Heq.
    { apply subseteq_union_1_L, singleton_subseteq_l.
      by apply elem_of_list_to_set. }
    rewrite Heq in Hsize. pose proof (size_list_to_set_le l). lia.
  - apply NoDup_cons. split; [done|]. apply IH.
    rewrite size_union in Hsize
      by (apply disjoint_singleton_l; by rewrite elem_of_list_to_set).
    rewrite size_singleton in Hsize. lia.
Qed.

Lemma has_listed (metadata : list JsValue) (cap : Capability) :
  has metadata cap = true <-> listed metadata cap.
Proof.
  unfold has, listed. rewrite existsb_exists. split.
  - intros (member & Hin & Heq). apply isStringLiteral_true in Heq as ->.
    by apply list_elem_of_In.
  - intros Hin. exists (JsString (capabilityName cap)).
    split; [by apply list_elem_of_In | by apply isStringLiteral_true].
Qed.

Lemma checkDeclared_spec (declared remaining : list Capability)
    (metadata : list JsValue) :
  (checkDeclared declared remaining metadata = Returns ()
   <-> Forall (listed metadata) remaining)
  /\ (forall error,
        checkDeclared declared remaining metadata = Raises error ->
        exists cap, cap ∈ remaining /\ ~ listed metadata cap
                    /\ error
                       = {| reason := "Capability '" ++ capabilityName cap
                                        ++ "' declared but not in "
                                        ++ "metadata.capabilities";
                            details := DeclaredAndMetadata declared metadata
                         |}).
Proof.
  induction remaining as [|cap rest [IH1 IH2]]; cbn [checkDeclared].
  { split; [by split|]. done. }
  pose proof (has_listed metadata cap) as Hhas.
  destruct (has metadata cap); cbn [negb];
    [assert (listed metadata cap) as Hin by by apply Hhas
    |assert (~ listed metadata cap) as Hout by (intros H; by apply Hhas in H)].

  - split.
    + rewrite IH1. split; [by constructor|]. by intros H; inversion H.
    + intros error Herr. destruct (IH2 error Herr) as (c & Hc & Hrest).
      exists c. split; [by apply elem_of_cons; right | done].
  - split.
    + split; [done|]. intros H. by inversion H.
    + intros error [= <-]. exists cap. split; [by apply elem_of_cons; left|].
      done.
Qed.

(** The test for duplicates. *)
Lemma duplicates_test (declared : list Capability) :
  bool_decide (size (list_to_set declared : gset Capability)
               ≠ List.length declared) = false
  <-> NoDup declared.
Proof.
  rewrite <- size_list_to_set_NoDup.
  destruct (bool_decide_reflect
              (size (list_to_set declared : gset Capability)
               ≠ List.length declared)) as [Hdup|Hnodup].
  - split; [done|]. by intros H.
  - split; [|done]. intros _.
    by destruct (decide (size (list_to_set declared : gset Capability)
                         = List.length declared)).
Qed.

Lemma validateCapabilities_returns (declared : list Capability)
    (metadata : list JsValue) :
  validateCapabilities declared metadata = Returns ()
  <-> NoDup declared /\ Forall (listed metadata) declared.
Proof.
  unfold validateCapabilities.
  pose proof (duplicates_test declared) as Htest.
  destruct (bool_decide _).
  - split; [done|]. intros [Hnd _]. by apply Htest in Hnd.
  - destruct (checkDeclared_spec declared declared metadata) as [-> _].
    split; [|by intros [_ H]]. intros H. split; [by apply Htest | done].
Qed.

(** X23.  The declared capabilities are accepted exactly when none is
    declared twice and each is listed in the metadata; capabilities the
    metadata lists and the game does not declare are no error; and
    duplicates are reported before anything else. *)
Theorem validateCapabilities_accepts (declared : list Capability)
    (metadata : list JsValue) :
  (validateCapabilities declared metadata = Returns ()
   <-> NoDup declared /\ Forall (listed metadata) declared)
  /\ (~ NoDup declared ->
      validateCapabilities declared metadata
      = Raises {| reason := "Duplicate capabilities declared";
                  details := Declared declared |}).
Proof.
  split; [apply validateCapabilities_returns|].
  intros Hdup. unfold validateCapabilities.
  pose proof (duplicates_test declared) as Htest.
  destruct (bool_decide _); [done|].
  exfalso. by apply Hdup, Htest.
Qed.



Lemma checkId_one_character (m : Fields) (c : ascii) :
  checkId (<["id" := JsString (String c "")]> m) = Returns ().
Proof.
  unfold checkId, prop. rewrite lookup_insert_eq.
  cbn [default from_option id String.length].
  rewrite (bool_decide_eq_false_2 (1 = 0)%nat) by done.
  rewrite (bool_decide_eq_false_2 (1 < 1)%nat) by lia.
  by rewrite andb_false_r.
Qed.

(** X25.  The pattern for ids is only applied to ids of two characters or
    more: valid metadata stays valid when its id is replaced by any single
    character, be it an upper-case letter, a digit or a hyphen. *)
Theorem one_character_id (m : Fields) (c : ascii) :
  Metadata.validateMetadata (JsObject m) = Returns () ->
  Metadata.validateMetadata (JsObject (<["id" := JsString (String c "")]> m))
  = Returns ().
Proof.
  unfold Metadata.validateMetadata. rewrite checkId_one_character.
  destruct (checkId m) as [[]|]; [|done].
  unfold checkName, checkVersion, checkCategories, checkDuration,
    checkCapabilities, checkSchemaVersion, prop.
  by rewrite !lookup_insert_ne by done.
Qed.

End Registration.

Lemma one_character_id_witness :
  Metadata.validateMetadata (obj memoryMatch) = Returns ()
  /\ Metadata.validateMetadata
       (JsObject (<["id" := JsString "-"]> (list_to_map memoryMatch)))
     = Returns ().
Proof.
  assert (Metadata.validateMetadata (obj memoryMatch) = Returns ()) as Hvalid
    by by vm_compute.
  split; [done|]. by apply (one_character_id _ "-"%char).
Defined.

(** The pattern at work on longer ids. *)
Example id_pattern_applies :
  Metadata.validateMetadata
    (JsObject (<["id" := JsString "-x"]> (list_to_map memoryMatch)))
  = Raises {| Metadata.field := "id";
              Metadata.reason := "Must be lowercase alphanumeric with hyphens, "
                          ++ "starting with a letter" |}
  /\ Metadata.validateMetadata
       (JsObject (<["id" := JsString "memory-"]> (list_to_map memoryMatch)))
     = Raises {| Metadata.field := "id";
                 Metadata.reason := "Must be lowercase alphanumeric with hyphens, "
                             ++ "starting with a letter" |}
  /\ Metadata.validateMetadata
       (JsObject (<["version" := JsString "1.0"]> (list_to_map memoryMatch)))
     = Raises {| Metadata.field := "version";
                 Metadata.reason := "Must be valid semver format "
                             ++ "(e.g., 1.0.0 or 1.0.0-beta.1)" |}
  /\ Metadata.validateMetadata
       (JsObject (<["version" := JsString "1.0.0-beta.1"]>
                    (list_to_map memoryMatch)))
     = Returns ().
Proof. split; [by vm_compute|]. split; [by vm_compute|]. split; by vm_compute. Qed.

(** The registration of the documentation's example, and a game that
    declares a capability its metadata does not list. *)
Example registers_memory_match :
  CreateGame.createGame
    {| CreateGame.metadata := obj memoryMatch;
       CreateGame.capabilities := [audio; haptics];
       CreateGame.render := CreateGame.Component 0 |}
  = Returns {| CreateGame.registeredMetadata := list_to_map memoryMatch;
               CreateGame.registeredCapabilities := [audio; haptics];
               CreateGame.registeredRender := 0%nat;
               CreateGame.sdkVersion := "0.1.0" |}.
Proof. by vm_compute. Qed.

Example rejects_unlisted_capability :
  CreateGame.createGame
    {| CreateGame.metadata := obj memoryMatch;
       CreateGame.capabilities := [audio; timers];
       CreateGame.render := CreateGame.Component 0 |}
  = Raises {| CreateGame.reason :=
                "Capability 'timers' declared but not in metadata.capabilities";
              CreateGame.details :=
                CreateGame.DeclaredAndMetadata [audio; timers]
                  [JsString "audio"; JsString "haptics"] |}.
Proof. by vm_compute. Qed.

(* ================================================================== *)
(** * Properties: the event inspector *)
(* ================================================================== *)

Section InspectorProperties.
Import EventInspector.

Variable behaviour : ListenerBehaviour.

Lemma notify_spec (ls : list Listener) (captured : CapturedEvent)
    (s : Inspector) :
  notify behaviour ls captured s
  = ({| history := history s; listeners := listeners s;
        eventIndex := eventIndex s;
        notifications := notifications s ++ broadcast ls captured |}, Ok ()).
Proof.
  revert s. induction ls as [|l rest IH]; intros s.
  - cbn. unfold mret, Eff_ret. rewrite app_nil_r. by destruct s.
  - cbn [notify broadcast map]. unfold mbind at 1. unfold Eff_bind at 1.
    unfold tryCatchEff, mbind, Eff_bind, modify, lift, mret, Eff_ret.
    destruct (behaviour l captured); rewrite IH;
      unfold noteNotification, broadcast; cbn; by rewrite <- app_assoc.
Qed.

Lemma capture_spec (dateNow : Z) (emitted : EmittedEvent.t) (s : Inspector) :
  capture behaviour dateNow emitted s
  = (recorded {| event := Some emitted;
                 rawEvent := EmittedEvent.event emitted;
                 validation := passed;
                 capturedAt := dateNow;
                 index := eventIndex s |} s,
     getProp (EmittedEvent.event emitted) "type";;
     toISOString (EmittedEvent.timestamp emitted)).
Proof.
  unfold capture, push, mbind, Eff_bind, gets. rewrite notify_spec.
  unfold lift, recorded. cbn [history listeners eventIndex notifications].
  by destruct (getProp _ _).
Qed.

Lemma captureRaw_spec (dateNow : Z) (raw : JsValue) (s : Inspector) :
  captureRaw behaviour dateNow raw s
  = match validateEvent raw development with
    | Ok result =>
        (recorded (rawEntry dateNow raw result (eventIndex s)) s,
         getProp raw "type";; Ok ())
    | Throw err => (s, Throw err)
    end.
Proof.
  unfold captureRaw, push, mbind, Eff_bind, gets, lift.
  destruct (validateEvent raw development) as [result|err]; [|done].
  rewrite notify_spec. unfold recorded, rawEntry, mret, Eff_ret.
  cbn [history listeners eventIndex notifications].
  by destruct (getProp _ _).
Qed.

Lemma getHistory_state (filter : option EventFilter) (s : Inspector) :
  (getHistory filter s).1 = s.
Proof.
  unfold getHistory, mbind, Eff_bind, gets, lift, mret, Eff_ret.
  destruct filter; [|done]. by destruct (filterHistory _ _).
Qed.

Lemma getStats_state (s : Inspector) : (getStats s).1 = s.
Proof.
  unfold getStats, mbind, Eff_bind, gets, lift, mret, Eff_ret.
  by destruct (tallyAll _ _).
Qed.

Lemma positions_S (n : nat) : positions (S n) = (positions n ++ [Z.of_nat n])%list.
Proof. unfold positions. by rewrite seq_S, map_app. Qed.

Lemma recorded_numbered (captured : CapturedEvent) (s : Inspector) :
  index captured = eventIndex s ->
  numbered s -> numbered (recorded captured s).
Proof.
  intros Hindex [Hmap Hnext]. unfold numbered, recorded.
  cbn [history eventIndex]. rewrite length_app, map_app. cbn [List.length map].
  rewrite Nat.add_1_r, positions_S, Hmap, Hindex, Hnext.
  split; [done | lia].
Qed.

Lemma perform_numbered (c : Call) (s : Inspector) :
  numbered s -> numbered (perform behaviour c s).1.
Proof.
  intros Hs. destruct c as [t emitted|t raw|filter| | |l|l]; cbn [perform].
  - rewrite capture_spec. cbn [fst]. by apply recorded_numbered.
  - rewrite captureRaw_spec.
    destruct (validateEvent raw development); [|done].
    cbn [fst]. by apply recorded_numbered.
  - unfold mbind, Eff_bind. pose proof (getHistory_state filter s) as Hsame.
    destruct (getHistory filter s) as [s0 [kept|err]]; cbn in *; by subst.
  - unfold mbind, Eff_bind. pose proof (getStats_state s) as Hsame.
    destruct (getStats s) as [s0 [stats|err]]; cbn in *; by subst.
  - done.
  - done.
  - done.
Qed.

(** X26.  The history is numbered by position.  Whatever a host calls on an
    inspector, the entry at position [i] of the history has index [i], and
    the index the next entry will get is the length of the history;
    [clear] starts the numbering again. *)
Theorem history_numbered (calls : list Call) :
  numbered (run behaviour calls createEventInspector).
Proof.
  assert (forall s, numbered s -> numbered (run behaviour calls s)) as Hrun.
  { induction calls as [|c rest IH]; intros s Hs; [done|].
    cbn [run]. by apply IH, perform_numbered. }
  apply Hrun. by split.
Qed.



(** ** Statistics *)



Lemma count_nonneg (test : CapturedEvent -> bool)
    (entries : list CapturedEvent) :
  0 <= count test entries.
Proof. unfold count. lia. Qed.




(** ** Filters *)

Lemma filterHistory_spec (select : CapturedEvent -> Result bool)
    (entries kept : list CapturedEvent) :
  filterHistory select entries = Ok kept ->
  kept `sublist_of` entries
  /\ Forall (fun c => select c = Ok true) kept
  /\ (Forall (fun c => select c = Ok true) entries -> kept = entries).
Proof.
  revert kept. induction entries as [|captured entries IH]; intros kept.
  { intros [= <-]. by repeat split. }
  cbn [filterHistory]. unfold mbind, Result_bind, mret, Result_ret.
  destruct (select captured) as [selected|] eqn:Hsel; [|done].
  destruct (filterHistory select entries) as [rest|]; [|done].
  destruct (IH rest eq_refl) as (Hsub & Hall & Hfull).
  intros [= <-]. destruct selected.
  - split; [by apply sublist_skip|]. split; [by apply Forall_cons|].
    intros H. apply Forall_cons in H as [_ H]. by rewrite (Hfull H).
  - split; [by apply sublist_cons|]. split; [done|].
    intros H. apply Forall_cons in H as [H _]. congruence.
Qed.

Lemma selects_true (filter : EventFilter) (captured : CapturedEvent) :
  selects filter captured = Ok true ->
  (validOnly filter = Some true -> foundValid captured = true)
  /\ (invalidOnly filter = Some true -> foundValid captured = false).
Proof.
  unfold selects, foundValid, mbind, Result_bind, mret, Result_ret.
  destruct (match types filter with
            | Some (first :: others) => _
            | _ => _
            end) as [[]|]; cbn [negb]; try done.
  destruct (bool_decide_reflect (validOnly filter = Some true)) as [Hv|Hv];
    destruct (bool_decide_reflect (invalidOnly filter = Some true))
      as [Hi|Hi];
    destruct (isValid (validation captured)); cbn; try done.
Qed.

(** X29.  [getHistory] without a filter gives the whole history.  With a
    filter it gives a selection of it, in order; [validOnly] leaves only
    valid entries and [invalidOnly] only invalid ones, so that the two
    together leave nothing; and a filter with an empty list of types and
    neither flag selects everything. *)
Theorem history_filters (filter : EventFilter) (s : Inspector) :
  getHistory None s = (s, Ok (history s))
  /\ (forall kept,
        getHistory (Some filter) s = (s, Ok kept) ->
        kept `sublist_of` history s
        /\ (validOnly filter = Some true ->
            Forall (fun c => foundValid c = true) kept)
        /\ (invalidOnly filter = Some true ->
            Forall (fun c => foundValid c = false) kept)
        /\ (validOnly filter = Some true ->
            invalidOnly filter = Some true -> kept = []))
  /\ (types filter = None \/ types filter = Some [] ->
      validOnly filter <> Some true ->
      invalidOnly filter <> Some true ->
      getHistory (Some filter) s = (s, Ok (history s))).
Proof.
  split; [done|]. split.
  - intros kept. unfold getHistory, mbind, Eff_bind, gets, lift.
    intros [= Hkept].
    destruct (filterHistory_spec _ _ _ Hkept) as (Hsub & Hall & _).
    split; [done|].
    assert (forall c, c ∈ kept -> selects filter c = Ok true) as Hsel
      by by apply Forall_forall.
    split; [|split].
    + intros Hv. apply Forall_forall. intros c Hc.
      by apply (selects_true filter c (Hsel c Hc)).
    + intros Hi. apply Forall_forall. intros c Hc.
      by apply (selects_true filter c (Hsel c Hc)).
    + intros Hv Hi. destruct kept as [|c kept]; [done|].
      destruct (selects_true filter c) as [H1 H2];
        [apply Hsel, elem_of_cons; by left|].
      rewrite (H1 Hv) in H2. by specialize (H2 Hi).
  - intros Htypes Hv Hi. unfold getHistory, mbind, Eff_bind, gets, lift.
    assert (Forall (fun c => selects filter c = Ok true) (history s)) as Hall.
    { apply Forall_forall. intros c _. unfold selects.
      rewrite bool_decide_eq_false_2 by done.
      rewrite (bool_decide_eq_false_2 (invalidOnly filter = Some true))
        by done.
      by destruct Htypes as [-> | ->]. }
    destruct (filterHistory (selects filter) (history s)) as [kept|err]
      eqn:Hkept.
    + destruct (filterHistory_spec _ _ _ Hkept) as (_ & _ & Hfull).
      by rewrite (Hfull Hall).
    + exfalso. clear Hv Hi Htypes. revert err Hkept.
      induction Hall as [|c entries Hc _ IH]; intros err; [done|].
      cbn [filterHistory]. rewrite Hc.
      unfold mbind, Result_bind, mret, Result_ret.
      destruct (filterHistory (selects filter) entries) eqn:Hrest; [done|].
      intros _. by eapply IH.
Qed.

End InspectorProperties.

(** A recorded [null]: the call throws after the entry was made, and the
    statistics cannot be read any more. *)
Example null_poisons_stats :
  let inspector :=
    EventInspector.run (fun _ _ => Ok ())
      [EventInspector.CaptureRaw 5 (obj errorMade);
       EventInspector.CaptureRaw 6 JsNull]
      EventInspector.createEventInspector in
  map EventInspector.index (EventInspector.history inspector) = [0; 1]
  /\ (EventInspector.captureRaw (fun _ _ => Ok ()) 6 JsNull
        EventInspector.createEventInspector).2 = Throw TypeError
  /\ (EventInspector.getStats inspector).2 = Throw TypeError
  /\ (EventInspector.getStats
        (EventInspector.clear inspector).1).2
     = Ok {| EventInspector.total := 0; EventInspector.valid := 0;
             EventInspector.invalid := 0; EventInspector.byType := ∅ |}.
Proof.
  split; [by vm_compute|]. split; [by vm_compute|].
  split; by vm_compute.
Qed.

(** An event whose [type] is the name of an inherited member: the entry
    of [byType] is a string, not the count 1. *)
Example inherited_name_in_stats :
  let emitted :=
    {| EmittedEvent.event := obj [("type", JsString "toString")];
       EmittedEvent.timestamp := 5;
       EmittedEvent.sessionId := None;
       EmittedEvent.gameId := "game";
       EmittedEvent.sdkVersion := "1.0.0" |} in
  let inspector :=
    EventInspector.run (fun _ _ => Ok ())
      [EventInspector.Capture 5 emitted; EventInspector.Capture 6 emitted]
      EventInspector.createEventInspector in
  (EventInspector.getStats inspector).2
  = Ok {| EventInspector.total := 2; EventInspector.valid := 2;
          EventInspector.invalid := 0;
          EventInspector.byType :=
            {[ "toString" := EventInspector.Spelled 2 ]} |}.
Proof. by vm_compute. Qed.

(* ================================================================== *)
(** * Properties: the guard on the simulator's runtime *)
(* ================================================================== *)

Section SimulatorProperties.
Import CapabilityGuard.

Context {Api : Type}.

(** X30.  A guard that asks the simulator's runtime hands out the real API
    of a declared capability exactly when the capability is switched on,
    an override taking precedence over the profile; when it is switched
    off the no-op API comes with the reason the simulator gives. *)
Theorem simulator_permissions (defaults : Capability -> bool)
    (overrides : gmap Capability bool) (declared : list Capability)
    (apiFactory noOpApiFactory : CapabilityApiFactory Api)
    (capability : Capability) (real noOp : Api) :
  capability ∈ declared ->
  apiFactory capability = Ok real ->
  noOpApiFactory capability = Ok noOp ->
  let config :=
    {| declaredCapabilities := declared;
       checkPermission :=
         Some (Simulator.checkRuntimePermission defaults overrides);
       apiFactory := apiFactory;
       noOpApiFactory := noOpApiFactory |} in
  let switch :=
    match overrides !! capability with
    | Some overridden => overridden
    | None => defaults capability
    end in
  getCapability config capability
  = Ok (if switch
        then {| isAvailable := true; api := real;
                unavailableReason := None |}
        else {| isAvailable := false; api := noOp;
                unavailableReason :=
                  Some ("Capability " ++ capabilityName capability
                          ++ " denied by simulator") |}).
Proof.
  intros Hin Hreal HnoOp. cbn zeta. unfold getCapability.
  cbn [declaredCapabilities checkPermission CapabilityGuard.apiFactory
         CapabilityGuard.noOpApiFactory default from_option id].
  rewrite bool_decide_eq_false_2
    by (intros Hout; apply Hout; by apply elem_of_list_to_set).
  unfold Simulator.checkRuntimePermission, Simulator.mergeCapabilities.
  cbn [mbind Result_bind readResult granted reason]. rewrite Hreal, HnoOp.
  by destruct (overrides !! capability) as [[]|]; cbn;
    [| |destruct (defaults capability)].
Qed.

End SimulatorProperties.

Lemma simulator_permissions_witness :
  CapabilityGuard.getCapability
    {| CapabilityGuard.declaredCapabilities := [audio; haptics];
       CapabilityGuard.checkPermission :=
         Some (Simulator.checkRuntimePermission (fun _ => true)
                 {[ haptics := false ]});
       CapabilityGuard.apiFactory := fun c => Ok ("real " ++ capabilityName c);
       CapabilityGuard.noOpApiFactory :=
         fun c => Ok ("no-op " ++ capabilityName c) |}
    haptics
  = Ok {| CapabilityGuard.isAvailable := false;
          CapabilityGuard.api := "no-op haptics";
          CapabilityGuard.unavailableReason :=
            Some "Capability haptics denied by simulator" |}.
Proof.
  etrans.
  - apply (simulator_permissions (fun _ => true) {[ haptics := false ]}
             [audio; haptics] (fun c => Ok ("real " ++ capabilityName c))
             (fun c => Ok ("no-op " ++ capabilityName c)) haptics
             "real haptics" "no-op haptics");
      [|reflexivity|reflexivity].
    apply elem_of_cons. right. apply elem_of_cons. by left.
  - reflexivity.
Defined.
